(** * factory: ticket-to-pull-request pipeline, ledger, poller and daemon supervisor

    A shallow embedding of [internal/jira.go], [internal/git.go],
    [internal/engine.go], [internal/daemon.go] and of the [trigger] and [clear]
    commands of [main.go], with the properties of the specification proved or
    refuted over it.

    - Go strings are the sequence of their code points, the way
      [strings.ToLower], [strings.TrimSpace] and package [regexp] read them.
    - The collaborators (tracker, git, the code generator, the code host, the
      file system, the process table) answer through an environment record
      [Env]; an answer may depend on everything that happened before.
    - The program runs in a state monad over [World]: the history of its
      calls and of the lines it prints, the package variable [processed], and
      the two files it owns.  Every call is recorded with the answer it got,
      so that "no such call occurs" can be stated of a run.
    - Writes to [processed.json] and [daemon.pid] take effect: the source
      drops the error of [os.WriteFile] in both places. *)

From Stdlib Require Import ZArith NArith List String Ascii Bool Lia.
From Stdlib Require Import DecimalString.
From Stdlib Require DecimalPos.
From stdpp Require Import gmap list.

Local Open Scope N_scope.

(* ================================================================== *)
(** ** Go strings *)
(* ================================================================== *)

Abbreviation rune := N (only parsing).
Abbreviation gostring := (list N) (only parsing).

(** A Go string literal made of ASCII characters. *)
Definition lit (s : string) : gostring :=
  List.map N_of_ascii (list_ascii_of_string s).

Arguments lit : simpl never.

Definition nl : gostring := [10].
Definition hyphen : rune := 45.

Definition is_upper (r : rune) : bool := (65 <=? r) && (r <=? 90).
Definition is_lower (r : rune) : bool := (97 <=? r) && (r <=? 122).
Definition is_digit (r : rune) : bool := (48 <=? r) && (r <=? 57).

(** The class [a-zA-Z0-9]. *)
Definition is_alnum (r : rune) : bool := is_lower r || is_upper r || is_digit r.

(** [unicode.ToLower].  ASCII capitals move by 32.  Outside ASCII only
    U+0130 and U+212A (the Kelvin sign) lower to an ASCII letter; every other
    rune from U+0080 on lowers to a rune that is again outside ASCII.  The
    functions of this repository only compare lowered text with ASCII literals
    and ASCII classes, so those runes are kept as they are. *)
Definition unicode_ToLower (r : rune) : rune :=
  if is_upper r then r + 32
  else if r =? 304 then 105
  else if r =? 8490 then 107
  else r.

(** [strings.ToLower]. *)
Definition ToLower (s : gostring) : gostring := List.map unicode_ToLower s.

(** [unicode.IsSpace]. *)
Definition unicode_IsSpace (r : rune) : bool :=
  ((9 <=? r) && (r <=? 13)) || (r =? 32) || (r =? 133) || (r =? 160)
  || (r =? 5760) || ((8192 <=? r) && (r <=? 8202))
  || (r =? 8232) || (r =? 8233) || (r =? 8239) || (r =? 8287) || (r =? 12288).

Fixpoint drop_while (p : rune -> bool) (s : gostring) : gostring :=
  match s with
  | c :: t => if p c then drop_while p t else s
  | [] => []
  end.

Definition drop_while_end (p : rune -> bool) (s : gostring) : gostring :=
  rev (drop_while p (rev s)).

(** [strings.TrimSpace]. *)
Definition TrimSpace (s : gostring) : gostring :=
  drop_while_end unicode_IsSpace (drop_while unicode_IsSpace s).

Definition rune_in (cutset : gostring) (r : rune) : bool :=
  existsb (N.eqb r) cutset.

(** [strings.Trim]: leading and trailing runes of [cutset] removed. *)
Definition Trim (s cutset : gostring) : gostring :=
  drop_while_end (rune_in cutset) (drop_while (rune_in cutset) s).

Fixpoint gostring_eqb (a b : gostring) : bool :=
  match a, b with
  | [], [] => true
  | x :: a', y :: b' => (x =? y) && gostring_eqb a' b'
  | _, _ => false
  end.

Fixpoint HasPrefix (s prefix : gostring) {struct prefix} : bool :=
  match prefix, s with
  | [], _ => true
  | p :: prefix', c :: s' => (c =? p) && HasPrefix s' prefix'
  | _ :: _, [] => false
  end.

(** [strings.Contains]. *)
Fixpoint Contains (s substr : gostring) : bool :=
  HasPrefix s substr ||
  match s with
  | _ :: t => Contains t substr
  | [] => false
  end.

(** [strings.Join]. *)
Fixpoint Join (elems : list gostring) (sep : gostring) : gostring :=
  match elems with
  | [] => []
  | [e] => e
  | e :: rest => e ++ sep ++ Join rest sep
  end.

(** Bytes of the UTF-8 encoding of a rune; [len] is Go's byte length. *)
Definition utf8_width (r : rune) : nat :=
  if r <? 128 then 1%nat else if r <? 2048 then 2%nat
  else if r <? 65536 then 3%nat else 4%nat.

Definition len (s : gostring) : nat :=
  fold_right (fun r n => (utf8_width r + n)%nat) 0%nat s.

(** [s[:n]] on a string whose runes are all ASCII (one byte each), the only
    strings this repository slices. *)
Definition slice_to (n : nat) (s : gostring) : gostring := firstn n s.

(** [strconv.Itoa]. *)
Definition Itoa (z : Z) : gostring :=
  lit (NilZero.string_of_int (Z.to_int z)).

Fixpoint digits_value (acc : Z) (s : gostring) : option Z :=
  match s with
  | [] => Some acc
  | c :: t => if is_digit c
              then digits_value (acc * 10 + Z.of_N (c - 48))%Z t
              else None
  end.

Definition max_int : Z := 9223372036854775807.
Definition min_int : Z := (-9223372036854775808)%Z.

(** [strconv.Atoi] with its error dropped, as [pid, _ := strconv.Atoi(..)]
    reads it: 0 on a syntax error, the nearest bound on a range error. *)
Definition Atoi (s : gostring) : Z :=
  let parse (neg : bool) (ds : gostring) : Z :=
    match ds with
    | [] => 0%Z
    | _ => match digits_value 0 ds with
           | Some v => let v' := if neg then (- v)%Z else v in
                       if (max_int <? v')%Z then max_int
                       else if (v' <? min_int)%Z then min_int else v'
           | None => 0%Z
           end
    end in
  match s with
  | 43 :: ds => parse false ds
  | 45 :: ds => parse true ds
  | _ => parse false s
  end.

(* ================================================================== *)
(** ** Package regexp, for the two patterns of the repository *)
(* ================================================================== *)

(** Patterns.  Repetition is over a character class, which is all the two
    patterns of the repository use. *)
Inductive regex : Type :=
| Lit (fold : bool) (s : gostring)   (* literal text; [fold] under (?i) *)
| Star (p : rune -> bool)            (* p-star, greedy *)
| StarLazy (p : rune -> bool)        (* p-star, lazy *)
| Plus (p : rune -> bool)            (* p-plus, greedy *)
| Seq (r1 r2 : regex)
| Alt (r1 r2 : regex)
| Group (r : regex)                  (* the capturing group *)
| EndText.                           (* $ without the m flag *)

(** Case folding of (?i) for an ASCII pattern rune: the other case of the
    letter, and the two partners that [unicode.SimpleFold] has outside
    ASCII (U+212A for k, U+017F for s). *)
Definition fold_eq (pat c : rune) : bool :=
  (c =? pat)
  || (is_upper pat && (c =? pat + 32))
  || (is_lower pat && (c =? pat - 32))
  || (((pat =? 107) || (pat =? 75)) && (c =? 8490))
  || (((pat =? 115) || (pat =? 83)) && (c =? 383)).

Definition rune_match (fold : bool) (pat c : rune) : bool :=
  if fold then fold_eq pat c else c =? pat.

Fixpoint lit_match (fold : bool) (pat s : gostring) : option gostring :=
  match pat, s with
  | [], _ => Some s
  | a :: pat', c :: s' =>
      if rune_match fold a c then lit_match fold pat' s' else None
  | _ :: _, [] => None
  end.

(** The ways a starred class [p] can match at the head of [s], as the texts
    left over, the preferred one first: longest first when greedy, shortest
    first when lazy. *)
Fixpoint star_greedy (p : rune -> bool) (s : gostring) : list gostring :=
  match s with
  | c :: t => if p c then star_greedy p t ++ [s] else [s]
  | [] => [[]]
  end.

Fixpoint star_lazy (p : rune -> bool) (s : gostring) : list gostring :=
  match s with
  | c :: t => s :: (if p c then star_lazy p t else [])
  | [] => [[]]
  end.

Definition plus_greedy (p : rune -> bool) (s : gostring) : list gostring :=
  match s with
  | c :: t => if p c then star_greedy p t else []
  | [] => []
  end.

(** The text consumed between [s] and its suffix [rest]. *)
Definition consumed (s rest : gostring) : gostring :=
  firstn (length s - length rest) s.

Definition no_cap (rests : list gostring) : list (gostring * option gostring) :=
  List.map (fun s' => (s', None)) rests.

(** All matches of [r] at the head of [s], in the order a backtracking
    matcher tries them (leftmost-first, the order package regexp prefers);
    each with the text left over and the text of the capturing group. *)
Fixpoint rmatch (r : regex) (s : gostring) : list (gostring * option gostring) :=
  match r with
  | Lit f pat => match lit_match f pat s with
                 | Some s' => [(s', None)]
                 | None => []
                 end
  | Star p => no_cap (star_greedy p s)
  | StarLazy p => no_cap (star_lazy p s)
  | Plus p => no_cap (plus_greedy p s)
  | Seq r1 r2 =>
      flat_map (fun m1 =>
                  List.map (fun m2 => (fst m2, match snd m2 with
                                               | Some c => Some c
                                               | None => snd m1
                                               end))
                           (rmatch r2 (fst m1)))
               (rmatch r1 s)
  | Alt r1 r2 => rmatch r1 s ++ rmatch r2 s
  | Group r1 => List.map (fun m1 => (fst m1, Some (consumed s (fst m1)))) (rmatch r1 s)
  | EndText => match s with
               | [] => [([], None)]
               | _ :: _ => []
               end
  end.

(** [Regexp.FindStringSubmatch] for a pattern with one group: the leftmost
    position with a match, and there the preferred match; the result is the
    whole match and the group's text, [None] for Go's nil. *)
Fixpoint FindStringSubmatch (r : regex) (s : gostring) : option (list gostring) :=
  match rmatch r s with
  | (rest, cap) :: _ => Some [consumed s rest; default [] cap]
  | [] => match s with
          | _ :: t => FindStringSubmatch r t
          | [] => None
          end
  end.

(** [Regexp.ReplaceAllString] for a pattern that cannot match the empty
    text: every successive leftmost match is replaced by [repl].  [fuel]
    bounds the number of steps; the length of the text is enough. *)
Fixpoint replace_from (fuel : nat) (r : regex) (s repl : gostring) : gostring :=
  match fuel with
  | O => s
  | S fuel' =>
      match s with
      | [] => []
      | c :: t =>
          match rmatch r s with
          | (rest, _) :: _ =>
              if (length rest <? length s)%nat
              then repl ++ replace_from fuel' r rest repl
              else c :: replace_from fuel' r t repl
          | [] => c :: replace_from fuel' r t repl
          end
      end
  end.

Definition ReplaceAllString (r : regex) (src repl : gostring) : gostring :=
  replace_from (length src) r src repl.

(* ================================================================== *)
(** ** internal/jira.go: items and the pure helpers *)
(* ================================================================== *)

(** Modelled from the spec: the declaration of [Comment] and the field
    [Issue.Comments] that [engine.go] reads are not in the sources at hand;
    section 3 of the specification gives a comment an author, a timestamp
    and a body. *)
Record Comment : Type := {
  Author : gostring;
  Date : gostring;
  Body : gostring
}.

Module Issue.
Record t : Type := {
  Key : gostring;
  Title : gostring;
  Description : gostring;
  Type_ : gostring;
  Priority : gostring;
  Status : gostring;
  Labels : list gostring;
  Components : list gostring;
  AcceptanceCriteria : gostring;
  Comments : list Comment
}.
End Issue.
Abbreviation Issue := Issue.t.

Definition IsValidType (i : Issue) : bool :=
  let t := ToLower (Issue.Type_ i) in
  gostring_eqb t (lit "bug") || gostring_eqb t (lit "task")
  || gostring_eqb t (lit "story") || gostring_eqb t (lit "sub-task").

Definition IsClosed (i : Issue) : bool :=
  let s := ToLower (Issue.Status i) in
  gostring_eqb s (lit "done") || gostring_eqb s (lit "closed")
  || gostring_eqb s (lit "resolved") || gostring_eqb s (lit "cancelled").

(** The class \s of package regexp: tab, newline, form feed, return, space. *)
Definition re_space (r : rune) : bool :=
  (r =? 9) || (r =? 10) || (r =? 12) || (r =? 13) || (r =? 32).

Definition colon_or_space (r : rune) : bool := (r =? 58) || re_space r.

Definition any_rune (r : rune) : bool := true.

(** The pattern of [extractAC]:
    (?i)acceptance\s*criteria[:\s]*([\s\S]*?)(?:\n\n|$) *)
Definition acceptance_re : regex :=
  Seq (Lit true (lit "acceptance"))
 (Seq (Star re_space)
 (Seq (Lit true (lit "criteria"))
 (Seq (Star colon_or_space)
 (Seq (Group (StarLazy any_rune))
      (Alt (Lit true (nl ++ nl)) EndText))))).

Definition extractAC (desc : gostring) : gostring :=
  match FindStringSubmatch acceptance_re desc with
  | Some m => if (1 <? length m)%nat then TrimSpace (nth 1 m []) else []
  | None => []
  end.

(* ================================================================== *)
(** ** Configuration (the unnamed source file) *)
(* ================================================================== *)

Record JiraConfig : Type := {
  BaseURL : gostring;
  Email : gostring;
  APIToken : gostring;
  UseACLI : bool
}.

Module GitHubConfig.
Record t : Type := {
  Token : gostring;
  Owner : gostring;
  Repo : gostring
}.
End GitHubConfig.

Record RepoConfig : Type := {
  CloneURL : gostring;
  LocalPath : gostring;
  DefaultBranch : gostring
}.

Record PollConfig : Type := {
  IntervalMinutes : Z;
  AutoTransition : bool
}.

Record Config : Type := {
  Jira : JiraConfig;
  GitHub : GitHubConfig.t;
  Repo : RepoConfig;
  Poll : PollConfig
}.

(* ================================================================== *)
(** ** Results, the ledger, and the history of effects *)
(* ================================================================== *)

Module Result.
Record t : Type := {
  IssueKey : gostring;
  Status : gostring;
  PRUrl : gostring;
  Error : gostring
}.
End Result.
Abbreviation Result := Result.t.

Module ProcessedIssue.
Record t : Type := {
  ProcessedAt : gostring;
  Status : gostring;
  PRUrl : gostring;
  Error : gostring
}.
End ProcessedIssue.
Abbreviation ProcessedIssue := ProcessedIssue.t.

(** How the external code generator ended: it exited (with or without an
    error) before the ten minutes were over, or it did not. *)
Inductive ClaudeOutcome : Type :=
| Exited (err : option gostring)
| TimedOut.

(** What the program does to the outside, in the order it does it.  A call
    is recorded with the answer it got.  Of the lines printed two are kept:
    [Processing key], the banner at the start of [ProcessIssue], and
    [Verdict r], its last line ("Completed: key" or "Failed at stage: err"),
    kept with the [Result] it is printed for. *)
Inductive Event : Type :=
(* lines of standard output *)
| Processing (issueKey : gostring)
| Verdict (r : Result)
(* tracker *)
| CallGetAssignedIssues (answer : list Issue + gostring)
| CallGetIssue (issueKey : gostring) (answer : Issue + gostring)
| CallAddComment (issueKey comment : gostring)
| CallTransition (issueKey status : gostring)
(* workspace *)
| CallMkdirAll (path : gostring) (err : option gostring)
| CallStat (path : gostring) (notExist : bool)
| CallClone (url path out : gostring) (failed : bool)
| CallGit (dir : gostring) (args : list gostring) (out : gostring) (failed : bool)
(* code generator *)
| CallClaude (dir prompt : gostring) (outcome : ClaudeOutcome)
| KillClaude
(* code host *)
| CallCreatePR (title body head base : gostring) (answer : gostring + gostring)
(* files and processes *)
| WriteProcessed (m : gmap (list N) ProcessedIssue)
| WritePid (data : gostring)
| OpenLog (err : option gostring)
| Spawn (answer : Z + gostring)
| Signal (pid sig : Z) (ok : bool).

(** The collaborators.  Each answers from the history so far, so that an
    answer may depend on everything that happened before.  [CreatePR] and
    [FormatPRBody] are functions of the repository whose file is not among
    the sources; they are taken as they are called, as parameters, like the
    functions of the Go library for paths, files and processes. *)
Record Env : Type := {
  GetAssignedIssues_ : list Event -> Config -> list Issue + gostring;
  GetIssue_ : list Event -> Config -> gostring -> Issue + gostring;
  MkdirAll_ : list Event -> gostring -> option gostring;
  StatNotExist_ : list Event -> gostring -> bool;
  Clone_ : list Event -> gostring -> gostring -> gostring * bool;
  GitExec_ : list Event -> gostring -> list gostring -> gostring * bool;
  Claude_ : list Event -> gostring -> gostring -> ClaudeOutcome;
  CreatePR_ : list Event -> Config -> gostring -> gostring -> gostring -> gostring
              -> gostring + gostring;
  FormatPRBody_ : Issue -> gostring -> gostring;
  Now_ : list Event -> gostring;
  ConfigExists_ : list Event -> bool;
  LoadConfig_ : list Event -> Config + gostring;
  Getenv_ : gostring -> gostring;
  OpenLog_ : list Event -> option gostring;
  Spawn_ : list Event -> Z + gostring;
  Signal_ : list Event -> Z -> Z -> bool;
  GetConfigDir_ : gostring;
  IsAbs_ : gostring -> bool;
  PathJoin_ : gostring -> gostring -> gostring
}.

(** The state the program works on: the history, the package variable
    [processed], and the two files it owns.  [processed.json] is kept as the
    map it encodes, [None] when the file cannot be read. *)
Record World : Type := {
  history : list Event;
  processed : gmap (list N) ProcessedIssue;
  processed_file : option (gmap (list N) ProcessedIssue);
  pid_file : option gostring
}.

Definition M (A : Type) : Type := World -> A * World.

#[global] Instance M_ret : MRet M := fun A a w => (a, w).

#[global] Instance M_bind : MBind M :=
  fun A B k c w => let (a, w') := c w in k a w'.

Definition ret {A : Type} (a : A) : M A := mret a.

Definition emit (e : Event) : M unit :=
  fun w => (tt, {| history := history w ++ [e];
                   processed := processed w;
                   processed_file := processed_file w;
                   pid_file := pid_file w |}).

(** Ask a collaborator: the answer is computed from the history and recorded. *)
Definition ask {A : Type} (answer : list Event -> A) (record : A -> Event) : M A :=
  fun w => let a := answer (history w) in
           (a, snd (emit (record a) w)).

(** The pattern of [CreateBranch]: [^a-zA-Z0-9]+ *)
Definition non_alnum_re : regex := Plus (fun r => negb (is_alnum r)).

Definition get_processed : M (gmap (list N) ProcessedIssue) :=
  fun w => (processed w, w).

Definition set_processed (m : gmap (list N) ProcessedIssue) : M unit :=
  fun w => (tt, {| history := history w;
                   processed := m;
                   processed_file := processed_file w;
                   pid_file := pid_file w |}).

Fixpoint for_each {A : Type} (l : list A) (body : A -> M unit) : M unit :=
  match l with
  | [] => ret tt
  | a :: rest => body a ;; for_each rest body
  end.

Section Program.

Variable env : Env.

(* ================================================================== *)
(** ** internal/git.go *)
(* ================================================================== *)

Record Git : Type := {
  repoPath : gostring;
  branch : gostring;
  cloneURL : gostring
}.

Definition NewGit (cfg : Config) : Git :=
  let path := LocalPath (Repo cfg) in
  let path := if IsAbs_ env path then path
              else PathJoin_ env (GetConfigDir_ env) path in
  {| repoPath := path;
     branch := DefaultBranch (Repo cfg);
     cloneURL := CloneURL (Repo cfg) |}.

(** [g.exec]: the trimmed output, or an error that quotes the command. *)
Definition Git_exec (g : Git) (args : list gostring) : M (gostring * option gostring) :=
  r ← ask (fun h => GitExec_ env h (repoPath g) args)
           (fun r => CallGit (repoPath g) args (fst r) (snd r));
  if snd (r : gostring * bool)
  then ret ([], Some (lit "git " ++ Join args (lit " ") ++ lit ": " ++ fst r))
  else ret (TrimSpace (fst r), None).

Definition Git_Init (g : Git) : M (option gostring) :=
  e ← ask (fun h => MkdirAll_ env h (repoPath g)) (CallMkdirAll (repoPath g));
  match e with
  | Some err => ret (Some err)
  | None =>
      let configure : M (option gostring) :=
        Git_exec g [lit "config"; lit "user.email"; lit "automation@jira-automation"] ;;
        Git_exec g [lit "config"; lit "user.name"; lit "Jira Automation"] ;;
        ret None in
      let dotgit := PathJoin_ env (repoPath g) (lit ".git") in
      missing ← ask (fun h => StatNotExist_ env h dotgit) (CallStat dotgit);
      if missing : bool
      then r ← ask (fun h => Clone_ env h (cloneURL g) (repoPath g))
                    (fun r => CallClone (cloneURL g) (repoPath g) (fst r) (snd r));
           if snd (r : gostring * bool)
           then ret (Some (lit "clone failed: " ++ fst r))
           else configure
      else configure
  end.

Definition Git_Pull (g : Git) : M (option gostring) :=
  r ← Git_exec g [lit "checkout"; branch g];
  match snd (r : gostring * option gostring) with
  | Some err => ret (Some err)
  | None =>
      r ← Git_exec g [lit "pull"; lit "origin"; branch g];
      ret (snd (r : gostring * option gostring))
  end.

Definition Git_CreateBranch (g : Git) (issueKey title : gostring) : M (gostring + gostring) :=
  e ← Git_Pull g;
  match e with
  | Some err => ret (inr err)
  | None =>
      let re := non_alnum_re in
      let slug := ReplaceAllString re (ToLower title) (lit "-") in
      let slug := Trim slug (lit "-") in
      let slug := if (40 <? len slug)%nat then slice_to 40 slug else slug in
      let branchName := lit "feature/" ++ issueKey ++ lit "-" ++ slug in
      r ← Git_exec g [lit "branch"; lit "-a"];
      (if Contains (fst (r : gostring * option gostring)) branchName
       then Git_exec g [lit "checkout"; branchName]
       else Git_exec g [lit "checkout"; lit "-b"; branchName]) ;;
      ret (inl branchName)
  end.

Definition Git_HasChanges (g : Git) : M bool :=
  r ← Git_exec g [lit "status"; lit "--porcelain"];
  ret (negb (gostring_eqb (fst (r : gostring * option gostring)) [])).

Definition Git_CommitAndPush (g : Git) (branch message : gostring) : M (option gostring) :=
  r ← Git_exec g [lit "add"; lit "-A"];
  match snd (r : gostring * option gostring) with
  | Some err => ret (Some err)
  | None =>
      r ← Git_exec g [lit "commit"; lit "-m"; message];
      match snd (r : gostring * option gostring) with
      | Some err => ret (Some err)
      | None =>
          r ← Git_exec g [lit "push"; lit "-u"; lit "origin"; branch];
          match snd (r : gostring * option gostring) with
          | Some err => ret (Some err)
          | None => ret None
          end
      end
  end.

Definition Git_Path (g : Git) : gostring := repoPath g.

(* ================================================================== *)
(** ** internal/engine.go *)
(* ================================================================== *)

Definition fail (result : Result) (stage err : gostring) : M Result :=
  let result := {| Result.IssueKey := Result.IssueKey result;
                   Result.Status := lit "failed";
                   Result.PRUrl := Result.PRUrl result;
                   Result.Error := stage ++ lit ": " ++ err |} in
  emit (Verdict result) ;;
  ret result.

Definition formatComments (comments : list Comment) : gostring :=
  match comments with
  | [] => lit "No comments"
  | _ =>
      Join (List.map (fun c => lit "**" ++ Author c ++ lit "** (" ++ Date c
                               ++ lit "):" ++ nl ++ Body c) comments)
           (nl ++ nl ++ lit "---" ++ nl ++ nl)
  end.

Definition claude_prompt (issue : Issue) : gostring :=
  lit "Implement the following Jira issue:" ++ nl ++ nl
  ++ lit "## " ++ Issue.Key issue ++ lit ": " ++ Issue.Title issue ++ nl ++ nl
  ++ lit "**Type**: " ++ Issue.Type_ issue ++ lit " | **Priority**: "
  ++ Issue.Priority issue ++ nl ++ nl
  ++ lit "## Description" ++ nl ++ Issue.Description issue ++ nl ++ nl
  ++ lit "## Acceptance Criteria" ++ nl ++ Issue.AcceptanceCriteria issue ++ nl ++ nl
  ++ lit "## Comments (Additional Context/Instructions)" ++ nl
  ++ formatComments (Issue.Comments issue) ++ nl ++ nl
  ++ lit "## Instructions" ++ nl
  ++ lit "1. Analyze the codebase" ++ nl
  ++ lit "2. Review the comments above for additional context or specific instructions" ++ nl
  ++ lit "3. Implement the required changes" ++ nl
  ++ lit "4. Add/update tests if needed" ++ nl
  ++ lit "5. Keep changes minimal and focused" ++ nl
  ++ lit "6. Add TODO comments for ambiguous parts".

Definition runClaude (repoPath : gostring) (issue : Issue) : M (option gostring) :=
  let prompt := claude_prompt issue in
  o ← ask (fun h => Claude_ env h repoPath prompt) (CallClaude repoPath prompt);
  match o with
  | Exited err => ret err
  | TimedOut => emit KillClaude ;; ret (Some (lit "timeout after 10 minutes"))
  end.

Definition GetIssue (cfg : Config) (issueKey : gostring) : M (Issue + gostring) :=
  ask (fun h => GetIssue_ env h cfg issueKey) (CallGetIssue issueKey).

Definition CreatePR (cfg : Config) (title body head base : gostring) : M (gostring + gostring) :=
  ask (fun h => CreatePR_ env h cfg title body head base)
      (CallCreatePR title body head base).

(** The two tracker updates; [ProcessIssue] drops what they return. *)
Definition AddComment (cfg : Config) (issueKey comment : gostring) : M unit :=
  emit (CallAddComment issueKey comment).

Definition Transition (cfg : Config) (issueKey status : gostring) : M unit :=
  emit (CallTransition issueKey status).

Definition with_PRUrl (result : Result) (url : gostring) : Result :=
  {| Result.IssueKey := Result.IssueKey result;
     Result.Status := Result.Status result;
     Result.PRUrl := url;
     Result.Error := Result.Error result |}.

Definition with_Status (result : Result) (status : gostring) : Result :=
  {| Result.IssueKey := Result.IssueKey result;
     Result.Status := status;
     Result.PRUrl := Result.PRUrl result;
     Result.Error := Result.Error result |}.

(** The last three lines of [ProcessIssue], reached from both branches of
    the test on [git.HasChanges()]. *)
Definition completed (result : Result) : M Result :=
  let result := with_Status result (lit "completed") in
  emit (Verdict result) ;;
  ret result.

Definition ProcessIssue (cfg : Config) (issueKey : gostring) : M Result :=
  let result := {| Result.IssueKey := issueKey; Result.Status := lit "started";
                   Result.PRUrl := []; Result.Error := [] |} in
  emit (Processing issueKey) ;;
  fetched ← GetIssue cfg issueKey;
  match fetched with
  | inr err => fail result (lit "fetch") err
  | inl issue =>
  if negb (IsValidType issue)
  then fail result (lit "validate") (lit "invalid type: " ++ Issue.Type_ issue)
  else if IsClosed issue
  then fail result (lit "validate") (lit "issue is closed: " ++ Issue.Status issue)
  else
  let git := NewGit cfg in
  e ← Git_Init git;
  match e with
  | Some err => fail result (lit "git") err
  | None =>
  b ← Git_CreateBranch git issueKey (Issue.Title issue);
  match b with
  | inr err => fail result (lit "branch") err
  | inl branchName =>
  e ← runClaude (Git_Path git) issue;
  match e with
  | Some err => fail result (lit "claude") err
  | None =>
  changed ← Git_HasChanges git;
  if changed : bool
  then
    let msg := issueKey ++ lit ": " ++ Issue.Title issue ++ nl ++ nl
               ++ lit "Implemented via factory" in
    e ← Git_CommitAndPush git branchName msg;
    match e with
    | Some err => fail result (lit "push") err
    | None =>
    let prTitle := lit "[" ++ issueKey ++ lit "] " ++ Issue.Title issue in
    let prBody := FormatPRBody_ env issue (BaseURL (Jira cfg)) in
    pr ← CreatePR cfg prTitle prBody branchName (DefaultBranch (Repo cfg));
    match pr with
    | inr err => fail result (lit "pr") err
    | inl prURL =>
    let result := with_PRUrl result prURL in
    AddComment cfg issueKey (lit "PR raised: " ++ prURL) ;;
    (if AutoTransition (Poll cfg)
     then Transition cfg issueKey (lit "In Progress")
     else ret tt) ;;
    completed result
    end
    end
  else completed result
  end
  end
  end
  end.

(* ================================================================== *)
(** ** internal/daemon.go *)
(* ================================================================== *)

(** [json.Unmarshal] into the existing map: the entries of the file are
    added to [processed], replacing those with the same key; nothing happens
    when the file cannot be read. *)
Definition loadProcessed : M unit :=
  fun w =>
    match processed_file w with
    | Some data => set_processed (data ∪ processed w) w
    | None => (tt, w)
    end.

(** The whole map is written over the file. *)
Definition saveProcessed : M unit :=
  fun w => (tt, {| history := history w ++ [WriteProcessed (processed w)];
                   processed := processed w;
                   processed_file := Some (processed w);
                   pid_file := pid_file w |}).

Definition Now : M gostring := fun w => (Now_ env (history w), w).

Definition LoadConfig : M (Config + gostring) :=
  fun w => (LoadConfig_ env (history w), w).

Definition ConfigExists : M bool :=
  fun w => (ConfigExists_ env (history w), w).

Definition GetAssignedIssues (cfg : Config) : M (list Issue + gostring) :=
  ask (fun h => GetAssignedIssues_ env h cfg) CallGetAssignedIssues.

Definition poll (cfg : Config) : M unit :=
  fetched ← GetAssignedIssues cfg;
  match fetched with
  | inr err => ret tt
  | inl issues =>
      m ← get_processed;
      let newIssues :=
        List.filter (fun issue : Issue =>
                       match (m : gmap (list N) ProcessedIssue) !! Issue.Key issue with
                       | Some _ => false
                       | None => true
                       end) issues in
      match newIssues with
      | [] => ret tt
      | _ :: _ =>
          for_each newIssues (fun issue : Issue =>
            result ← ProcessIssue cfg (Issue.Key issue);
            now ← Now;
            m ← get_processed;
            set_processed
              (<[Issue.Key issue :=
                   {| ProcessedIssue.ProcessedAt := now;
                      ProcessedIssue.Status := Result.Status result;
                      ProcessedIssue.PRUrl := Result.PRUrl result;
                      ProcessedIssue.Error := Result.Error result |}]>
                 (m : gmap (list N) ProcessedIssue)) ;;
            saveProcessed)
      end
  end.

(** [runDaemon] never returns once the configuration is loaded: it polls,
    then polls again at every firing of the ticker.  The model follows it
    for the first [ticks] firings. *)
Definition runDaemon (ticks : nat) : M (option gostring) :=
  c ← LoadConfig;
  match c with
  | inr err => ret (Some err)
  | inl cfg =>
      loadProcessed ;;
      poll cfg ;;
      for_each (repeat tt ticks) (fun _ => poll cfg) ;;
      ret None
  end.

Definition GetDaemonPid : M Z :=
  fun w =>
    match pid_file w with
    | None => (0%Z, w)
    | Some data => (Atoi (TrimSpace data), w)
    end.

(** [os.FindProcess] always succeeds on Unix; the probe is signal 0. *)
Definition isRunning (pid : Z) : M bool :=
  ask (fun h => Signal_ env h pid 0%Z) (Signal pid 0%Z).

Definition write_pid (data : gostring) : M unit :=
  fun w => (tt, {| history := history w ++ [WritePid data];
                   processed := processed w;
                   processed_file := processed_file w;
                   pid_file := Some data |}).

Definition StartDaemon (ticks : nat) : M (option gostring) :=
  let launch : M (option gostring) :=
    if negb (gostring_eqb (Getenv_ env (lit "FACTORY_DAEMON")) (lit "1"))
    then
      e ← ask (OpenLog_ env) OpenLog;
      match e with
      | Some err => ret (Some err)
      | None =>
          child ← ask (Spawn_ env) Spawn;
          match child with
          | inr err => ret (Some err)
          | inl childPid =>
              write_pid (Itoa childPid) ;;
              ret None
          end
      end
    else runDaemon ticks in
  pid ← GetDaemonPid;
  if (0 <? pid)%Z
  then
    running ← isRunning pid;
    if running : bool
    then ret (Some (lit "daemon already running (PID " ++ Itoa pid ++ lit ")"))
    else launch
  else launch.

Definition ClearProcessed (issueKey : gostring) : M unit :=
  loadProcessed ;;
  (if gostring_eqb issueKey []
   then set_processed ∅
   else m ← get_processed;
        set_processed (delete issueKey (m : gmap (list N) ProcessedIssue))) ;;
  saveProcessed.

(* ================================================================== *)
(** ** main.go: the [trigger] and [clear] commands *)
(* ================================================================== *)

(** The [trigger] case of [main], with the exit status of the process. *)
Definition main_trigger (args : list gostring) : M Z :=
  if (length args <? 3)%nat then ret 1%Z
  else
    configured ← ConfigExists;
    if negb configured then ret 1%Z
    else
      c ← LoadConfig;
      match c with
      | inr err => ret 1%Z
      | inl cfg =>
          result ← ProcessIssue cfg (nth 2 args []);
          if negb (gostring_eqb (Result.Status result) (lit "completed"))
          then ret 1%Z
          else ret 0%Z
      end.

(** The [clear] case of [main]. *)
Definition main_clear (args : list gostring) : M Z :=
  let key := if (3 <=? length args)%nat then nth 2 args [] else [] in
  ClearProcessed key ;;
  ret 0%Z.

End Program.

(** What a computation returns and what it adds to the history. *)
Definition result_of {A : Type} (c : M A) (w : World) : A := fst (c w).

Definition world_after {A : Type} (c : M A) (w : World) : World := snd (c w).

Definition events_of {A : Type} (c : M A) (w : World) : list Event :=
  drop (length (history w)) (history (snd (c w))).

(* ================================================================== *)
(** ** A scenario to run the program in *)
(* ================================================================== *)

(** The answers of the collaborators in a test scenario; they do not depend
    on the history. *)
Record Scenario : Type := {
  sc_assigned : list Issue + gostring;
  sc_issue : gostring -> Issue + gostring;
  sc_mkdir : option gostring;
  sc_missing : bool;
  sc_clone : gostring * bool;
  sc_git : list gostring -> gostring * bool;
  sc_claude : ClaudeOutcome;
  sc_pr : gostring + gostring;
  sc_config : Config + gostring;
  sc_marker : gostring;
  sc_openlog : option gostring;
  sc_spawn : Z + gostring;
  sc_alive : Z -> bool
}.

Definition scenario_env (sc : Scenario) : Env :=
  {| GetAssignedIssues_ := fun _ _ => sc_assigned sc;
     GetIssue_ := fun _ _ k => sc_issue sc k;
     MkdirAll_ := fun _ _ => sc_mkdir sc;
     StatNotExist_ := fun _ _ => sc_missing sc;
     Clone_ := fun _ _ _ => sc_clone sc;
     GitExec_ := fun _ _ args => sc_git sc args;
     Claude_ := fun _ _ _ => sc_claude sc;
     CreatePR_ := fun _ _ _ _ _ _ => sc_pr sc;
     FormatPRBody_ := fun i _ => Issue.Description i;
     Now_ := fun _ => lit "2024-01-01T00:00:00Z";
     ConfigExists_ := fun _ => true;
     LoadConfig_ := fun _ => sc_config sc;
     Getenv_ := fun _ => sc_marker sc;
     OpenLog_ := fun _ => sc_openlog sc;
     Spawn_ := fun _ => sc_spawn sc;
     Signal_ := fun _ pid _ => sc_alive sc pid;
     GetConfigDir_ := lit "/home/dev/.factory";
     IsAbs_ := fun p => HasPrefix p (lit "/");
     PathJoin_ := fun a b => a ++ lit "/" ++ b |}.

Definition cfg0 : Config :=
  {| Jira := {| BaseURL := lit "https://example.atlassian.net"; Email := lit "dev@example.com";
                APIToken := lit "token"; UseACLI := true |};
     GitHub := {| GitHubConfig.Token := lit "ghp"; GitHubConfig.Owner := lit "org";
                  GitHubConfig.Repo := lit "repo" |};
     Repo := {| CloneURL := lit "https://github.com/org/repo.git";
                LocalPath := lit "workspace"; DefaultBranch := lit "main" |};
     Poll := {| IntervalMinutes := 5; AutoTransition := true |} |}.

Definition issue_of (key title type status : gostring) : Issue :=
  {| Issue.Key := key; Issue.Title := title; Issue.Description := lit "Do it.";
     Issue.Type_ := type; Issue.Priority := lit "High"; Issue.Status := status;
     Issue.Labels := []; Issue.Components := []; Issue.AcceptanceCriteria := [];
     Issue.Comments := [] |}.

(** Every collaborator succeeds; [git status] reports one changed file. *)
Definition sc_happy : Scenario :=
  {| sc_assigned := inl [issue_of (lit "K-1") (lit "Fix login") (lit "Bug") (lit "Open");
                         issue_of (lit "K-2") (lit "Add logout") (lit "Task") (lit "Open")];
     sc_issue := fun k => inl (issue_of k (lit "Fix login") (lit "Bug") (lit "Open"));
     sc_mkdir := None;
     sc_missing := false;
     sc_clone := ([], false);
     sc_git := fun args => if HasPrefix (Join args (lit " ")) (lit "status")
                           then (lit " M main.go", false) else ([], false);
     sc_claude := Exited None;
     sc_pr := inl (lit "https://github.com/org/repo/pull/7");
     sc_config := inl cfg0;
     sc_marker := [];
     sc_openlog := None;
     sc_spawn := inl 4711%Z;
     sc_alive := fun _ => false |}.

Definition world0 : World :=
  {| history := []; processed := ∅; processed_file := None; pid_file := None |}.

(* ================================================================== *)
(** ** Reasoning about histories *)
(* ================================================================== *)

(** [emits c Q]: from any world, [c] leaves the ledger and the files as they
    are and extends the history by some events [tr] such that [Q] holds of
    its result and [tr]. *)
Definition emits {A : Type} (c : M A) (Q : A -> list Event -> Prop) : Prop :=
  forall w,
    processed (snd (c w)) = processed w /\
    processed_file (snd (c w)) = processed_file w /\
    pid_file (snd (c w)) = pid_file w /\
    exists tr, history (snd (c w)) = history w ++ tr /\ Q (fst (c w)) tr.

(* ================================================================== *)
(** ** The runs of the pipeline, stage by stage *)
(* ================================================================== *)

(** What [g.exec] returns for an answer of git. *)
Definition exec_result (args : list gostring) (out : gostring) (failed : bool)
  : gostring * option gostring :=
  if failed
  then ([], Some (lit "git " ++ Join args (lit " ") ++ lit ": " ++ out))
  else (TrimSpace out, None).

Definition git_error (args : list gostring) (out : gostring) : gostring :=
  lit "git " ++ Join args (lit " ") ++ lit ": " ++ out.

(** The slug and the branch name, as [CreateBranch] computes them. *)
Definition slug_of (title : gostring) : gostring :=
  let slug := ReplaceAllString non_alnum_re (ToLower title) (lit "-") in
  let slug := Trim slug (lit "-") in
  if (40 <? len slug)%nat then slice_to 40 slug else slug.

Definition branch_name (issueKey title : gostring) : gostring :=
  lit "feature/" ++ issueKey ++ lit "-" ++ slug_of title.

Definition config_email : list gostring :=
  [lit "config"; lit "user.email"; lit "automation@jira-automation"].
Definition config_name : list gostring :=
  [lit "config"; lit "user.name"; lit "Jira Automation"].
Definition status_args : list gostring := [lit "status"; lit "--porcelain"].

(** The result and the events of each way [git.Init] can go. *)
Inductive Init_run (env : Env) (g : Git) : option gostring -> list Event -> Prop :=
| Init_mkdir_fails (err : gostring) :
    Init_run env g (Some err) [CallMkdirAll (repoPath g) (Some err)]
| Init_clone_fails (out : gostring) :
    Init_run env g (Some (lit "clone failed: " ++ out))
      [CallMkdirAll (repoPath g) None;
       CallStat (PathJoin_ env (repoPath g) (lit ".git")) true;
       CallClone (cloneURL g) (repoPath g) out true]
| Init_cloned (out o1 o2 : gostring) (f1 f2 : bool) :
    Init_run env g None
      [CallMkdirAll (repoPath g) None;
       CallStat (PathJoin_ env (repoPath g) (lit ".git")) true;
       CallClone (cloneURL g) (repoPath g) out false;
       CallGit (repoPath g) config_email o1 f1;
       CallGit (repoPath g) config_name o2 f2]
| Init_reused (o1 o2 : gostring) (f1 f2 : bool) :
    Init_run env g None
      [CallMkdirAll (repoPath g) None;
       CallStat (PathJoin_ env (repoPath g) (lit ".git")) false;
       CallGit (repoPath g) config_email o1 f1;
       CallGit (repoPath g) config_name o2 f2].

Inductive Pull_run (g : Git) : option gostring -> list Event -> Prop :=
| Pull_checkout_fails (out : gostring) :
    Pull_run g (Some (git_error [lit "checkout"; branch g] out))
      [CallGit (repoPath g) [lit "checkout"; branch g] out true]
| Pull_pull_fails (o1 out : gostring) :
    Pull_run g (Some (git_error [lit "pull"; lit "origin"; branch g] out))
      [CallGit (repoPath g) [lit "checkout"; branch g] o1 false;
       CallGit (repoPath g) [lit "pull"; lit "origin"; branch g] out true]
| Pull_ok (o1 o2 : gostring) :
    Pull_run g None
      [CallGit (repoPath g) [lit "checkout"; branch g] o1 false;
       CallGit (repoPath g) [lit "pull"; lit "origin"; branch g] o2 false].

Inductive CreateBranch_run (g : Git) (issueKey title : gostring)
  : gostring + gostring -> list Event -> Prop :=
| CreateBranch_pull_fails (err : gostring) (tr : list Event) :
    Pull_run g (Some err) tr ->
    CreateBranch_run g issueKey title (inr err) tr
| CreateBranch_done (tr : list Event) (o1 o2 : gostring) (f1 f2 : bool) :
    Pull_run g None tr ->
    CreateBranch_run g issueKey title (inl (branch_name issueKey title))
      (tr ++ [CallGit (repoPath g) [lit "branch"; lit "-a"] o1 f1;
              CallGit (repoPath g)
                (if Contains (fst (exec_result [lit "branch"; lit "-a"] o1 f1))
                             (branch_name issueKey title)
                 then [lit "checkout"; branch_name issueKey title]
                 else [lit "checkout"; lit "-b"; branch_name issueKey title])
                o2 f2]).

Inductive Claude_run (dir : gostring) (issue : Issue) : option gostring -> list Event -> Prop :=
| Claude_exited (err : option gostring) :
    Claude_run dir issue err [CallClaude dir (claude_prompt issue) (Exited err)]
| Claude_timed_out :
    Claude_run dir issue (Some (lit "timeout after 10 minutes"))
      [CallClaude dir (claude_prompt issue) TimedOut; KillClaude].

Inductive CommitAndPush_run (g : Git) (branchName message : gostring)
  : option gostring -> list Event -> Prop :=
| Commit_add_fails (out : gostring) :
    CommitAndPush_run g branchName message
      (Some (git_error [lit "add"; lit "-A"] out))
      [CallGit (repoPath g) [lit "add"; lit "-A"] out true]
| Commit_commit_fails (o1 out : gostring) :
    CommitAndPush_run g branchName message
      (Some (git_error [lit "commit"; lit "-m"; message] out))
      [CallGit (repoPath g) [lit "add"; lit "-A"] o1 false;
       CallGit (repoPath g) [lit "commit"; lit "-m"; message] out true]
| Commit_push_fails (o1 o2 out : gostring) :
    CommitAndPush_run g branchName message
      (Some (git_error [lit "push"; lit "-u"; lit "origin"; branchName] out))
      [CallGit (repoPath g) [lit "add"; lit "-A"] o1 false;
       CallGit (repoPath g) [lit "commit"; lit "-m"; message] o2 false;
       CallGit (repoPath g) [lit "push"; lit "-u"; lit "origin"; branchName] out true]
| Commit_pushed (o1 o2 o3 : gostring) :
    CommitAndPush_run g branchName message None
      [CallGit (repoPath g) [lit "add"; lit "-A"] o1 false;
       CallGit (repoPath g) [lit "commit"; lit "-m"; message] o2 false;
       CallGit (repoPath g) [lit "push"; lit "-u"; lit "origin"; branchName] o3 false].

(** The answer of [git status --porcelain] that [HasChanges] reads as
    "nothing changed": the command failed, or its trimmed output is empty. *)
Definition no_changes (out : gostring) (failed : bool) : bool :=
  gostring_eqb (fst (exec_result status_args out failed)) [].

Definition failed_result (issueKey stage err : gostring) : Result :=
  {| Result.IssueKey := issueKey; Result.Status := lit "failed";
     Result.PRUrl := []; Result.Error := stage ++ lit ": " ++ err |}.

Definition completed_result (issueKey url : gostring) : Result :=
  {| Result.IssueKey := issueKey; Result.Status := lit "completed";
     Result.PRUrl := url; Result.Error := [] |}.

Definition commit_message (issueKey title : gostring) : gostring :=
  issueKey ++ lit ": " ++ title ++ nl ++ nl ++ lit "Implemented via factory".

Definition pr_title (issueKey title : gostring) : gostring :=
  lit "[" ++ issueKey ++ lit "] " ++ title.

(** The events of a run up to and including the Implement stage, for an
    item that passed validation and a workspace that could be prepared. *)
Inductive Implemented (env : Env) (cfg : Config) (issueKey : gostring) (issue : Issue)
  : option gostring -> list Event -> Prop :=
| Implemented_intro (trI trB trC : list Event) (e : option gostring) :
    IsValidType issue = true ->
    IsClosed issue = false ->
    Init_run env (NewGit env cfg) None trI ->
    CreateBranch_run (NewGit env cfg) issueKey (Issue.Title issue)
      (inl (branch_name issueKey (Issue.Title issue))) trB ->
    Claude_run (repoPath (NewGit env cfg)) issue e trC ->
    Implemented env cfg issueKey issue e
      ([Processing issueKey; CallGetIssue issueKey (inl issue)] ++ trI ++ trB ++ trC).

(** Every way [ProcessIssue] can go: the [Result] it returns and the events
    it adds to the history. *)
Inductive Process_run (env : Env) (cfg : Config) (issueKey : gostring)
  : Result -> list Event -> Prop :=
| Run_fetch_fails (err : gostring) :
    let r := failed_result issueKey (lit "fetch") err in
    Process_run env cfg issueKey r
      [Processing issueKey; CallGetIssue issueKey (inr err); Verdict r]
| Run_invalid_type (issue : Issue) :
    IsValidType issue = false ->
    let r := failed_result issueKey (lit "validate")
               (lit "invalid type: " ++ Issue.Type_ issue) in
    Process_run env cfg issueKey r
      [Processing issueKey; CallGetIssue issueKey (inl issue); Verdict r]
| Run_closed (issue : Issue) :
    IsValidType issue = true ->
    IsClosed issue = true ->
    let r := failed_result issueKey (lit "validate")
               (lit "issue is closed: " ++ Issue.Status issue) in
    Process_run env cfg issueKey r
      [Processing issueKey; CallGetIssue issueKey (inl issue); Verdict r]
| Run_init_fails (issue : Issue) (err : gostring) (trI : list Event) :
    IsValidType issue = true ->
    IsClosed issue = false ->
    Init_run env (NewGit env cfg) (Some err) trI ->
    let r := failed_result issueKey (lit "git") err in
    Process_run env cfg issueKey r
      ([Processing issueKey; CallGetIssue issueKey (inl issue)] ++ trI ++ [Verdict r])
| Run_branch_fails (issue : Issue) (err : gostring) (trI trB : list Event) :
    IsValidType issue = true ->
    IsClosed issue = false ->
    Init_run env (NewGit env cfg) None trI ->
    CreateBranch_run (NewGit env cfg) issueKey (Issue.Title issue) (inr err) trB ->
    let r := failed_result issueKey (lit "branch") err in
    Process_run env cfg issueKey r
      ([Processing issueKey; CallGetIssue issueKey (inl issue)] ++ trI ++ trB ++ [Verdict r])
| Run_claude_fails (issue : Issue) (err : gostring) (tr : list Event) :
    Implemented env cfg issueKey issue (Some err) tr ->
    let r := failed_result issueKey (lit "claude") err in
    Process_run env cfg issueKey r (tr ++ [Verdict r])
| Run_no_changes (issue : Issue) (tr : list Event) (out : gostring) (failed : bool) :
    Implemented env cfg issueKey issue None tr ->
    no_changes out failed = true ->
    let r := completed_result issueKey [] in
    Process_run env cfg issueKey r
      (tr ++ [CallGit (repoPath (NewGit env cfg)) status_args out failed; Verdict r])
| Run_push_fails (issue : Issue) (tr trP : list Event) (out err : gostring) (failed : bool) :
    Implemented env cfg issueKey issue None tr ->
    no_changes out failed = false ->
    CommitAndPush_run (NewGit env cfg) (branch_name issueKey (Issue.Title issue))
      (commit_message issueKey (Issue.Title issue)) (Some err) trP ->
    let r := failed_result issueKey (lit "push") err in
    Process_run env cfg issueKey r
      (tr ++ [CallGit (repoPath (NewGit env cfg)) status_args out failed] ++ trP ++ [Verdict r])
| Run_pr_fails (issue : Issue) (tr trP : list Event) (out err : gostring) (failed : bool) :
    Implemented env cfg issueKey issue None tr ->
    no_changes out failed = false ->
    CommitAndPush_run (NewGit env cfg) (branch_name issueKey (Issue.Title issue))
      (commit_message issueKey (Issue.Title issue)) None trP ->
    let r := failed_result issueKey (lit "pr") err in
    Process_run env cfg issueKey r
      (tr ++ [CallGit (repoPath (NewGit env cfg)) status_args out failed] ++ trP
          ++ [CallCreatePR (pr_title issueKey (Issue.Title issue))
                (FormatPRBody_ env issue (BaseURL (Jira cfg)))
                (branch_name issueKey (Issue.Title issue))
                (DefaultBranch (Repo cfg)) (inr err);
              Verdict r])
| Run_published (issue : Issue) (tr trP : list Event) (out url : gostring) (failed : bool) :
    Implemented env cfg issueKey issue None tr ->
    no_changes out failed = false ->
    CommitAndPush_run (NewGit env cfg) (branch_name issueKey (Issue.Title issue))
      (commit_message issueKey (Issue.Title issue)) None trP ->
    let r := completed_result issueKey url in
    Process_run env cfg issueKey r
      (tr ++ [CallGit (repoPath (NewGit env cfg)) status_args out failed] ++ trP
          ++ [CallCreatePR (pr_title issueKey (Issue.Title issue))
                (FormatPRBody_ env issue (BaseURL (Jira cfg)))
                (branch_name issueKey (Issue.Title issue))
                (DefaultBranch (Repo cfg)) (inl url);
              CallAddComment issueKey (lit "PR raised: " ++ url)]
          ++ (if AutoTransition (Poll cfg)
              then [CallTransition issueKey (lit "In Progress")] else [])
          ++ [Verdict r]).

(* ================================================================== *)
(** ** Vocabulary of the specification *)
(* ================================================================== *)

(** The accepted types and the closed statuses, in lower case. *)
Definition accepted_types : list gostring :=
  [lit "bug"; lit "task"; lit "story"; lit "sub-task"].

Definition closed_statuses : list gostring :=
  [lit "done"; lit "closed"; lit "resolved"; lit "cancelled"].

(** A [Result] that failed at [stage]: [fail] writes the stage name, a colon
    and a space in front of the cause. *)
Definition failed_at (r : Result) (stage : gostring) : bool :=
  gostring_eqb (Result.Status r) (lit "failed")
  && HasPrefix (Result.Error r) (stage ++ lit ": ").

(** The run of [ProcessIssue] from [w] fetched [issue]: its second event,
    after the banner, is the tracker's answer. *)
Definition fetched (env : Env) (cfg : Config) (issueKey : gostring) (w : World)
    (issue : Issue) : Prop :=
  events_of (ProcessIssue env cfg issueKey) w !! 1%nat
  = Some (CallGetIssue issueKey (inl issue)).

(** The kinds of events the specification tells apart. *)
Inductive Kind : Type :=
| Output          (* a line on standard output *)
| TrackerRead     (* fetching from the tracker *)
| TrackerWrite    (* comment, transition *)
| Workspace       (* clone, configure, pull, checkout, branch *)
| Implement       (* the code generator *)
| Inspect         (* git status *)
| Publish         (* git add, commit, push *)
| ChangeRequest   (* the code host *)
| Ledger          (* writing processed.json *)
| Supervisor.     (* pid file, log file, spawn, signals *)

#[global] Instance Kind_eq_dec : EqDecision Kind.
Proof. solve_decision. Defined.

Definition git_kind (args : list gostring) : Kind :=
  match args with
  | verb :: _ =>
      if gostring_eqb verb (lit "status") then Inspect
      else if gostring_eqb verb (lit "add") || gostring_eqb verb (lit "commit")
              || gostring_eqb verb (lit "push")
      then Publish
      else Workspace
  | [] => Workspace
  end.

Definition kind_of (e : Event) : Kind :=
  match e with
  | Processing _ | Verdict _ => Output
  | CallGetAssignedIssues _ | CallGetIssue _ _ => TrackerRead
  | CallAddComment _ _ | CallTransition _ _ => TrackerWrite
  | CallMkdirAll _ _ | CallStat _ _ | CallClone _ _ _ _ => Workspace
  | CallGit _ args _ _ => git_kind args
  | CallClaude _ _ _ | KillClaude => Implement
  | CallCreatePR _ _ _ _ _ => ChangeRequest
  | WriteProcessed _ => Ledger
  | WritePid _ | OpenLog _ | Spawn _ | Signal _ _ _ => Supervisor
  end.

Definition kind_in (ks : list Kind) (e : Event) : bool :=
  bool_decide (kind_of e ∈ ks).

(** The workspace reports no uncommitted changes: the answer of
    [git status --porcelain] that [HasChanges] turns into [false]. *)
Definition reports_no_changes (e : Event) : bool :=
  match e with
  | CallGit _ args out failed =>
      bool_decide (git_kind args = Inspect) && no_changes out failed
  | _ => false
  end.

(** Scenarios derived from [sc_happy]. *)
Definition set_issue (sc : Scenario) (f : gostring -> Issue + gostring) : Scenario :=
  {| sc_assigned := sc_assigned sc; sc_issue := f; sc_mkdir := sc_mkdir sc;
     sc_missing := sc_missing sc; sc_clone := sc_clone sc; sc_git := sc_git sc;
     sc_claude := sc_claude sc; sc_pr := sc_pr sc; sc_config := sc_config sc;
     sc_marker := sc_marker sc; sc_openlog := sc_openlog sc;
     sc_spawn := sc_spawn sc; sc_alive := sc_alive sc |}.

Definition set_git (sc : Scenario) (f : list gostring -> gostring * bool) : Scenario :=
  {| sc_assigned := sc_assigned sc; sc_issue := sc_issue sc; sc_mkdir := sc_mkdir sc;
     sc_missing := sc_missing sc; sc_clone := sc_clone sc; sc_git := f;
     sc_claude := sc_claude sc; sc_pr := sc_pr sc; sc_config := sc_config sc;
     sc_marker := sc_marker sc; sc_openlog := sc_openlog sc;
     sc_spawn := sc_spawn sc; sc_alive := sc_alive sc |}.

Definition set_clone (sc : Scenario) (missing : bool) (answer : gostring * bool) : Scenario :=
  {| sc_assigned := sc_assigned sc; sc_issue := sc_issue sc; sc_mkdir := sc_mkdir sc;
     sc_missing := missing; sc_clone := answer; sc_git := sc_git sc;
     sc_claude := sc_claude sc; sc_pr := sc_pr sc; sc_config := sc_config sc;
     sc_marker := sc_marker sc; sc_openlog := sc_openlog sc;
     sc_spawn := sc_spawn sc; sc_alive := sc_alive sc |}.

Definition set_alive (sc : Scenario) (f : Z -> bool) : Scenario :=
  {| sc_assigned := sc_assigned sc; sc_issue := sc_issue sc; sc_mkdir := sc_mkdir sc;
     sc_missing := sc_missing sc; sc_clone := sc_clone sc; sc_git := sc_git sc;
     sc_claude := sc_claude sc; sc_pr := sc_pr sc; sc_config := sc_config sc;
     sc_marker := sc_marker sc; sc_openlog := sc_openlog sc;
     sc_spawn := sc_spawn sc; sc_alive := f |}.

(** The tracker hands out an Epic. *)
Definition sc_epic : Scenario :=
  set_issue sc_happy (fun k => inl (issue_of k (lit "Big plan") (lit "Epic") (lit "Open"))).

(** The code generator changes nothing: [git status] prints nothing. *)
Definition sc_idle : Scenario := set_git sc_happy (fun _ => ([], false)).

(** No working tree yet, and the clone fails. *)
Definition sc_clone_fails : Scenario :=
  set_clone sc_happy true (lit "fatal: repository not found", true).

(** [git pull] fails. *)
Definition sc_pull_fails : Scenario :=
  set_git sc_happy (fun args => if HasPrefix (Join args (lit " ")) (lit "pull")
                                then (lit "fatal: no remote", true) else ([], false)).

Definition git_verb_is (verb : gostring) (e : Event) : bool :=
  match e with
  | CallGit _ (v :: _) _ _ => gostring_eqb v verb
  | _ => false
  end.

(** The two steps of the prepare-workspace stage whose error [ProcessIssue]
    is handed: [git.Init], and the pull of the default branch inside
    [git.CreateBranch].  The third step of the stage, the checkout or the
    creation of the feature branch, is not one of them: [CreateBranch] drops
    what [g.exec] returns for it. *)
Inductive PrepareStep : Type := InitStep | PullStep.

(** A run in which [git.Init] or the pull of the default branch failed, with
    the failing step and its cause: the directory could not be made, the
    clone failed, or the first [git checkout] or the first [git pull] of the
    run (those of [Pull], on the default branch) failed.  A failure of the
    checkout or creation of the feature branch is no [InitOrPullFailure]. *)
Inductive InitOrPullFailure (g : Git) (tr : list Event) : PrepareStep -> gostring -> Prop :=
| Mkdir_failed (err : gostring) :
    In (CallMkdirAll (repoPath g) (Some err)) tr ->
    InitOrPullFailure g tr InitStep err
| Clone_failed (out : gostring) :
    In (CallClone (cloneURL g) (repoPath g) out true) tr ->
    InitOrPullFailure g tr InitStep (lit "clone failed: " ++ out)
| Checkout_failed (dir : gostring) (args : list gostring) (out : gostring) :
    List.find (git_verb_is (lit "checkout")) tr = Some (CallGit dir args out true) ->
    InitOrPullFailure g tr PullStep (git_error args out)
| Pull_failed (dir : gostring) (args : list gostring) (out : gostring) :
    List.find (git_verb_is (lit "pull")) tr = Some (CallGit dir args out true) ->
    InitOrPullFailure g tr PullStep (git_error args out).

(** The stage name [ProcessIssue] reports for each step. *)
Definition stage_of_step (s : PrepareStep) : gostring :=
  match s with
  | InitStep => lit "git"
  | PullStep => lit "branch"
  end.

(* ================================================================== *)
(** ** The slug, in the words of the specification *)
(* ================================================================== *)

(** Every run of non-alphanumeric characters collapsed to a single hyphen:
    inside a run nothing is written, and its last character becomes the
    hyphen.  Alphanumeric are the letters a to z, A to Z and the digits, as
    in the pattern of [CreateBranch]. *)
Fixpoint collapse_runs (s : gostring) : gostring :=
  match s with
  | [] => []
  | c :: t =>
      if is_alnum c then c :: collapse_runs t
      else match t with
           | d :: _ => if is_alnum d then hyphen :: collapse_runs t
                       else collapse_runs t
           | [] => [hyphen]
           end
  end.

Definition is_hyphen (r : rune) : bool := r =? hyphen.

(** Leading and trailing hyphens trimmed. *)
Definition trim_hyphens (s : gostring) : gostring :=
  drop_while_end is_hyphen (drop_while is_hyphen s).

(** The runes a slug is made of. *)
Definition slug_rune (r : rune) : bool := is_alnum r || is_hyphen r.

(** The slug of the specification: the title lower-cased, runs collapsed,
    hyphens trimmed, at most 40 characters kept. *)
Definition slug_spec (title : gostring) : gostring :=
  firstn 40 (trim_hyphens (collapse_runs (ToLower title))).

(* ================================================================== *)
(** ** The acceptance criteria, without the regular expression *)
(* ================================================================== *)

(** The marker at the head of [s]: "acceptance", any white space, "criteria",
    letters in either case.  The result is the text after the marker. *)
Definition marker_at (s : gostring) : option gostring :=
  match lit_match true (lit "acceptance") s with
  | Some s1 => lit_match true (lit "criteria") (drop_while re_space s1)
  | None => None
  end.

(** The text after the first (leftmost) marker of [s]. *)
Fixpoint after_first_marker (s : gostring) : option gostring :=
  match marker_at s with
  | Some after => Some after
  | None => match s with
            | _ :: t => after_first_marker t
            | [] => None
            end
  end.

(** The text up to the next blank line (two line feeds) or the end. *)
Fixpoint before_blank (s : gostring) : gostring :=
  match s with
  | [] => []
  | c :: t => if HasPrefix s (nl ++ nl) then [] else c :: before_blank t
  end.

(** What [extractAC] returns, read off the first marker: colons and white
    space after the marker are skipped, blank lines among them; then the text
    up to the next blank line or the end is taken and trimmed. *)
Definition criteria_after_marker (desc : gostring) : gostring :=
  match after_first_marker desc with
  | Some after => TrimSpace (before_blank (drop_while colon_or_space after))
  | None => []
  end.

(** The reading of the specification: the capture starts right after the
    marker and ends at the next blank line after the marker. *)
Definition criteria_as_specified (desc : gostring) : gostring :=
  match after_first_marker desc with
  | Some after => TrimSpace (before_blank after)
  | None => []
  end.

(** The pattern of [extractAC] from its end: the lazy group followed by a
    blank line or the end of the text; the colons and white space before the
    group; "criteria"; the white space before it. *)
Definition re_capture : regex :=
  Seq (Group (StarLazy any_rune)) (Alt (Lit true (nl ++ nl)) EndText).
Definition re_after_marker : regex := Seq (Star colon_or_space) re_capture.
Definition re_criteria : regex := Seq (Lit true (lit "criteria")) re_after_marker.
Definition re_gap : regex := Seq (Star re_space) re_criteria.

(** How [Seq] joins a match of its left part with one of its right part. *)
Definition join_match (m1 m2 : gostring * option gostring) : gostring * option gostring :=
  (fst m2, match snd m2 with
           | Some c => Some c
           | None => snd m1
           end).

(* ================================================================== *)
(** ** The runs of a tick *)
(* ================================================================== *)

(** The ledger record [poll] makes of a [Result]. *)
Definition record_of (now : gostring) (result : Result) : ProcessedIssue :=
  {| ProcessedIssue.ProcessedAt := now;
     ProcessedIssue.Status := Result.Status result;
     ProcessedIssue.PRUrl := Result.PRUrl result;
     ProcessedIssue.Error := Result.Error result |}.

(** The body of the loop of [poll]: process one item, record it, save. *)
Definition poll_item (env : Env) (cfg : Config) (issue : Issue) : M unit :=
  result ← ProcessIssue env cfg (Issue.Key issue);
  now ← Now env;
  m ← get_processed;
  set_processed (<[Issue.Key issue := record_of now result]>
                   (m : gmap (list N) ProcessedIssue)) ;;
  saveProcessed.

(** The items a tick processes: the fetched ones whose key is not in the
    ledger. *)
Definition new_issues (m : gmap (list N) ProcessedIssue) (issues : list Issue)
  : list Issue :=
  List.filter (fun issue : Issue =>
                 match m !! Issue.Key issue with
                 | Some _ => false
                 | None => true
                 end) issues.

(** The events of the loop over the new items, from ledger [m] to ledger
    [m']: for each item in turn a run of the pipeline, then one write of the
    ledger as it is with that item's record put in. *)
Inductive Items_run (env : Env) (cfg : Config)
  : list Issue -> gmap (list N) ProcessedIssue -> list Event
    -> gmap (list N) ProcessedIssue -> Prop :=
| Items_done (m : gmap (list N) ProcessedIssue) :
    Items_run env cfg [] m [] m
| Items_next (issue : Issue) (rest : list Issue)
    (m m' : gmap (list N) ProcessedIssue)
    (r : Result) (now : gostring) (trP tr : list Event) :
    Process_run env cfg (Issue.Key issue) r trP ->
    Items_run env cfg rest (<[Issue.Key issue := record_of now r]> m) tr m' ->
    Items_run env cfg (issue :: rest) m
      (trP ++ WriteProcessed (<[Issue.Key issue := record_of now r]> m) :: tr) m'.

(** The ledger [m] holds the outcome [r] under the key of [r]. *)
Definition recorded (m : gmap (list N) ProcessedIssue) (r : Result) : bool :=
  match m !! Result.IssueKey r with
  | Some rec =>
      gostring_eqb (ProcessedIssue.Status rec) (Result.Status r)
      && gostring_eqb (ProcessedIssue.PRUrl rec) (Result.PRUrl r)
      && gostring_eqb (ProcessedIssue.Error rec) (Result.Error r)
  | None => false
  end.

(** In a history, every verdict of the pipeline is followed at once by a
    write of the ledger file that holds that verdict. *)
Fixpoint saved_after_each (tr : list Event) : bool :=
  match tr with
  | [] => true
  | Verdict r :: rest =>
      match rest with
      | WriteProcessed m :: _ => recorded m r
      | _ => false
      end && saved_after_each rest
  | _ :: rest => saved_after_each rest
  end.

Definition is_verdict (e : Event) : bool :=
  match e with
  | Verdict _ => true
  | _ => false
  end.

(** A ledger that already holds K-1 as failed, in memory and on disk. *)
Definition rec_failed : ProcessedIssue :=
  {| ProcessedIssue.ProcessedAt := lit "2023-12-31T23:00:00Z";
     ProcessedIssue.Status := lit "failed";
     ProcessedIssue.PRUrl := [];
     ProcessedIssue.Error := lit "claude: timeout after 10 minutes" |}.

Definition world1 : World :=
  {| history := [];
     processed := {[ lit "K-1" := rec_failed ]};
     processed_file := Some {[ lit "K-1" := rec_failed ]};
     pid_file := None |}.

(** What [loadProcessed] leaves in the package variable. *)
Definition loaded (w : World) : gmap (list N) ProcessedIssue :=
  match processed_file w with
  | Some data => data ∪ processed w
  | None => processed w
  end.

(** A stale and a live pid file. *)
Definition world_pid : World :=
  {| history := []; processed := ∅; processed_file := None;
     pid_file := Some (lit "321" ++ nl) |}.

Definition sc_live : Scenario := set_alive sc_happy (fun pid => (pid =? 321)%Z).

(* ================================================================== *)
(** ** More of the program: the tracker over the jira command line *)
(* ================================================================== *)

(** [strings.SplitN] for a non-empty separator and a positive count: [s] cut
    at the first [n - 1] occurrences of [sep].  [skip] counts the runes of a
    separator still to be passed over, [cur] holds the piece being read, in
    reverse. *)
Fixpoint splitn_from (sep s : gostring) (skip : nat) (cur : gostring) (n : nat)
  : list gostring :=
  match s with
  | [] => [rev cur]
  | c :: t =>
      match skip with
      | S k => splitn_from sep t k cur n
      | O =>
          if (1 <? n)%nat && HasPrefix s sep
          then rev cur :: splitn_from sep t (length sep - 1) [] (n - 1)
          else splitn_from sep t 0 (c :: cur) n
      end
  end.

Definition SplitN (s sep : gostring) (n : nat) : list gostring :=
  match n with
  | O => []
  | _ => splitn_from sep s 0 [] n
  end.

(** [strings.Split] for a non-empty separator: no bound on the pieces. *)
Definition Split (s sep : gostring) : list gostring :=
  splitn_from sep s 0 [] (S (length s)).

(** [execJira]: the standard output of the jira command, trimmed, or the
    error of running it.  [jira] is the command: what it prints for its
    arguments, or how it fails. *)
Definition execJira (jira : list gostring -> gostring + gostring)
    (args : list gostring) : gostring + gostring :=
  match jira args with
  | inl out => inl (TrimSpace out)
  | inr err => inr err
  end.

Definition zero_issue (key : gostring) : Issue :=
  {| Issue.Key := key; Issue.Title := []; Issue.Description := [];
     Issue.Type_ := []; Issue.Priority := []; Issue.Status := [];
     Issue.Labels := []; Issue.Components := []; Issue.AcceptanceCriteria := [];
     Issue.Comments := [] |}.

Definition template_args (issueKey field : gostring) : list gostring :=
  [lit "view"; issueKey; lit "-t"; lit "{{.fields." ++ field ++ lit "}}"].

(** [GetIssueACLI]: one call of the command per field; a field whose call
    fails is left empty, and the function itself never fails. *)
Definition GetIssueACLI (jira : list gostring -> gostring + gostring)
    (issueKey : gostring) : Issue + gostring :=
  let field (name : gostring) : option gostring :=
    match execJira jira (template_args issueKey name) with
    | inl out => Some out
    | inr _ => None
    end in
  let description := field (lit "description") in
  inl {| Issue.Key := issueKey;
         Issue.Title := default [] (field (lit "summary"));
         Issue.Description := default [] description;
         Issue.Type_ := default [] (field (lit "issuetype.name"));
         Issue.Priority := default [] (field (lit "priority.name"));
         Issue.Status := default [] (field (lit "status.name"));
         Issue.Labels := [];
         Issue.Components := [];
         Issue.AcceptanceCriteria :=
           match description with
           | Some out => extractAC out
           | None => []
           end;
         Issue.Comments := [] |}.

Definition assigned_jql : gostring :=
  lit "assignee = currentUser() AND status != Done AND status != Closed AND type in (Bug, Task, Story) ORDER BY updated DESC".

(** The issue [GetAssignedIssuesACLI] makes of one line of the listing, or
    none for a blank line. *)
Definition issue_of_line (line : gostring) : option Issue :=
  let line := TrimSpace line in
  if gostring_eqb line [] then None
  else
    let parts := SplitN line (lit ":") 2 in
    let issue := zero_issue (TrimSpace (nth 0 parts [])) in
    Some (if (2 <=? length parts)%nat
          then {| Issue.Key := Issue.Key issue;
                  Issue.Title := TrimSpace (nth 1 parts []);
                  Issue.Description := []; Issue.Type_ := []; Issue.Priority := [];
                  Issue.Status := []; Issue.Labels := []; Issue.Components := [];
                  Issue.AcceptanceCriteria := []; Issue.Comments := [] |}
          else issue).

Definition GetAssignedIssuesACLI (jira : list gostring -> gostring + gostring)
  : list Issue + gostring :=
  match execJira jira [lit "list"; lit "-q"; assigned_jql] with
  | inr err => inr err
  | inl out => inl (omap issue_of_line (Split out nl))
  end.

(** What [GetIssueREST] decodes of the answer of the tracker: the fields it
    asks for, the description as its blocks of text nodes. *)
Record RestIssue : Type := {
  rest_Key : gostring;
  rest_Summary : gostring;
  rest_Description : list (list gostring);
  rest_IssueType : gostring;
  rest_Priority : gostring;
  rest_Status : gostring;
  rest_Labels : list gostring;
  rest_Components : list gostring
}.

Definition rest_description (blocks : list (list gostring)) : gostring :=
  Join (List.filter (fun text => negb (gostring_eqb text [])) (concat blocks)) nl.

(** [GetIssueREST], from the answer of [jiraRequest] decoded by
    [json.Unmarshal], or the error of either. *)
Definition GetIssueREST (answer : RestIssue + gostring) : Issue + gostring :=
  match answer with
  | inr err => inr err
  | inl data =>
      let description := rest_description (rest_Description data) in
      inl {| Issue.Key := rest_Key data;
             Issue.Title := rest_Summary data;
             Issue.Description := description;
             Issue.Type_ := rest_IssueType data;
             Issue.Priority := rest_Priority data;
             Issue.Status := rest_Status data;
             Issue.Labels := rest_Labels data;
             Issue.Components := rest_Components data;
             Issue.AcceptanceCriteria := extractAC description;
             Issue.Comments := [] |}
  end.

(** An environment whose tracker is the one of [jira.go]: [GetIssue] and
    [GetAssignedIssues] go to the command line when [UseACLI] is set, and
    [GetIssue] to the REST answer otherwise. *)
Definition tracker_env (base : Env) (jira : list gostring -> gostring + gostring)
    (rest : gostring -> RestIssue + gostring) : Env :=
  {| GetAssignedIssues_ := fun h cfg =>
       if UseACLI (Jira cfg) then GetAssignedIssuesACLI jira
       else GetAssignedIssues_ base h cfg;
     GetIssue_ := fun h cfg k =>
       if UseACLI (Jira cfg) then GetIssueACLI jira k else GetIssueREST (rest k);
     MkdirAll_ := MkdirAll_ base;
     StatNotExist_ := StatNotExist_ base;
     Clone_ := Clone_ base;
     GitExec_ := GitExec_ base;
     Claude_ := Claude_ base;
     CreatePR_ := CreatePR_ base;
     FormatPRBody_ := FormatPRBody_ base;
     Now_ := Now_ base;
     ConfigExists_ := ConfigExists_ base;
     LoadConfig_ := LoadConfig_ base;
     Getenv_ := Getenv_ base;
     OpenLog_ := OpenLog_ base;
     Spawn_ := Spawn_ base;
     Signal_ := Signal_ base;
     GetConfigDir_ := GetConfigDir_ base;
     IsAbs_ := IsAbs_ base;
     PathJoin_ := PathJoin_ base |}.

(* ================================================================== *)
(** ** More of the program: stopping the daemon *)
(* ================================================================== *)

Definition SIGTERM : Z := 15.
Definition SIGKILL : Z := 9.

(** [os.Remove] of the pid file; like the writes, it takes effect. *)
Definition remove_pid : M unit :=
  fun w => (tt, {| history := history w;
                   processed := processed w;
                   processed_file := processed_file w;
                   pid_file := None |}).

(** [StopDaemon]: the termination signal, the kill signal when that one
    cannot be sent, then the pid file is removed. *)
Definition StopDaemon (env : Env) : M (option gostring) :=
  pid ← GetDaemonPid;
  if (pid =? 0)%Z
  then ret (Some (lit "daemon not running"))
  else
    sent ← ask (fun h => Signal_ env h pid SIGTERM) (Signal pid SIGTERM);
    (if sent : bool
     then ret tt
     else ask (fun h => Signal_ env h pid SIGKILL) (Signal pid SIGKILL) ;; ret tt) ;;
    remove_pid ;;
    ret None.

(* ================================================================== *)
(** ** More vocabulary: stages, banners, scenarios *)
(* ================================================================== *)

(** The stage names [ProcessIssue] hands to [fail]. *)
Definition stage_names : list gostring :=
  [lit "fetch"; lit "validate"; lit "git"; lit "branch"; lit "claude";
   lit "push"; lit "pr"].

(** The keys of the banners of a history, in order. *)
Definition banner_keys (tr : list Event) : list gostring :=
  omap (fun e => match e with
                 | Processing k => Some k
                 | _ => None
                 end) tr.

Definition set_claude (sc : Scenario) (o : ClaudeOutcome) : Scenario :=
  {| sc_assigned := sc_assigned sc; sc_issue := sc_issue sc; sc_mkdir := sc_mkdir sc;
     sc_missing := sc_missing sc; sc_clone := sc_clone sc; sc_git := sc_git sc;
     sc_claude := o; sc_pr := sc_pr sc; sc_config := sc_config sc;
     sc_marker := sc_marker sc; sc_openlog := sc_openlog sc;
     sc_spawn := sc_spawn sc; sc_alive := sc_alive sc |}.

Definition set_assigned (sc : Scenario) (a : list Issue + gostring) : Scenario :=
  {| sc_assigned := a; sc_issue := sc_issue sc; sc_mkdir := sc_mkdir sc;
     sc_missing := sc_missing sc; sc_clone := sc_clone sc; sc_git := sc_git sc;
     sc_claude := sc_claude sc; sc_pr := sc_pr sc; sc_config := sc_config sc;
     sc_marker := sc_marker sc; sc_openlog := sc_openlog sc;
     sc_spawn := sc_spawn sc; sc_alive := sc_alive sc |}.

Definition set_openlog (sc : Scenario) (e : option gostring) : Scenario :=
  {| sc_assigned := sc_assigned sc; sc_issue := sc_issue sc; sc_mkdir := sc_mkdir sc;
     sc_missing := sc_missing sc; sc_clone := sc_clone sc; sc_git := sc_git sc;
     sc_claude := sc_claude sc; sc_pr := sc_pr sc; sc_config := sc_config sc;
     sc_marker := sc_marker sc; sc_openlog := e;
     sc_spawn := sc_spawn sc; sc_alive := sc_alive sc |}.

(** The tracker cannot be reached; the code generator runs out of time; the
    listing of assigned items fails; the log file cannot be opened. *)
Definition sc_unreachable : Scenario :=
  set_issue sc_happy (fun _ => inr (lit "jira API error 503: unavailable")).
Definition sc_timeout : Scenario := set_claude sc_happy TimedOut.
Definition sc_no_listing : Scenario :=
  set_assigned sc_happy (inr (lit "exit status 1")).
Definition sc_no_log : Scenario :=
  set_openlog sc_happy (Some (lit "open daemon.log: permission denied")).

(** Two processes share the files, not the package variable: [new_process w]
    is what a command started now finds (an empty [processed], the files and
    the history of [w]); [sees_files w v] is the process of [w] once another
    process has left the files as they are in [v]. *)
Definition new_process (w : World) : World :=
  {| history := history w; processed := ∅;
     processed_file := processed_file w; pid_file := pid_file w |}.

Definition sees_files (w v : World) : World :=
  {| history := history w; processed := processed w;
     processed_file := processed_file v; pid_file := pid_file v |}.

(** ** More vocabulary: decimal numbers *)

(** The value [digits_value] reads from the digits of a decimal number. *)
Fixpoint uint_value (acc : Z) (d : Decimal.uint) : Z :=
  match d with
  | Decimal.Nil => acc
  | Decimal.D0 d => uint_value (acc * 10 + 0) d
  | Decimal.D1 d => uint_value (acc * 10 + 1) d
  | Decimal.D2 d => uint_value (acc * 10 + 2) d
  | Decimal.D3 d => uint_value (acc * 10 + 3) d
  | Decimal.D4 d => uint_value (acc * 10 + 4) d
  | Decimal.D5 d => uint_value (acc * 10 + 5) d
  | Decimal.D6 d => uint_value (acc * 10 + 6) d
  | Decimal.D7 d => uint_value (acc * 10 + 7) d
  | Decimal.D8 d => uint_value (acc * 10 + 8) d
  | Decimal.D9 d => uint_value (acc * 10 + 9) d
  end%Z.

(** [git checkout -b] fails: the feature branch cannot be created. *)
Definition sc_no_feature_branch : Scenario :=
  set_git sc_happy
    (fun args => if HasPrefix (Join args (lit " ")) (lit "checkout -b")
                 then (lit "fatal: cannot lock ref", true)
                 else sc_git sc_happy args).

(* ================================================================== *)
(** * Properties *)
(* ================================================================== *)

Lemma emits_ret {A : Type} (a : A) (Q : A -> list Event -> Prop) :
  Q a [] -> emits (ret a) Q.
Proof.
  intros HQ w. cbn. repeat split; try reflexivity.
  exists []. rewrite app_nil_r. auto.
Qed.

Lemma emits_mret {A : Type} (a : A) (Q : A -> list Event -> Prop) :
  Q a [] -> emits (mret a) Q.
Proof. apply emits_ret. Qed.

Lemma emits_bind {A B : Type} (c : M A) (k : A -> M B) (Q : B -> list Event -> Prop) :
  emits c (fun a tr1 => emits (k a) (fun b tr2 => Q b (tr1 ++ tr2))) ->
  emits (c ≫= k) Q.
Proof.
  intros Hc w. unfold mbind, M_bind.
  destruct (Hc w) as (Hp & Hf & Hd & tr1 & Hh & Hk).
  destruct (c w) as [a w1]. cbn in *.
  destruct (Hk w1) as (Hp' & Hf' & Hd' & tr2 & Hh' & HQ).
  repeat split; try congruence.
  exists (tr1 ++ tr2). rewrite Hh', Hh, app_assoc. auto.
Qed.

Lemma emits_conseq {A : Type} (c : M A) (Q Q' : A -> list Event -> Prop) :
  emits c Q -> (forall a tr, Q a tr -> Q' a tr) -> emits c Q'.
Proof.
  intros Hc Himp w. destruct (Hc w) as (Hp & Hf & Hd & tr & Hh & HQ).
  repeat split; auto. exists tr. auto.
Qed.

Lemma emits_emit (e : Event) : emits (emit e) (fun _ tr => tr = [e]).
Proof. intros w. cbn. repeat split; eauto. Qed.

Lemma emits_ask {A : Type} (answer : list Event -> A) (record : A -> Event) :
  emits (ask answer record) (fun a tr => tr = [record a]).
Proof. intros w. cbn. repeat split; eauto. Qed.

(** Reading a run off [emits]. *)
Lemma emits_run {A : Type} (c : M A) (Q : A -> list Event -> Prop) (w : World) :
  emits c Q -> Q (result_of c w) (events_of c w).
Proof.
  intros Hc. destruct (Hc w) as (_ & _ & _ & tr & Hh & HQ).
  unfold result_of, events_of. rewrite Hh, drop_app_length. exact HQ.
Qed.

Lemma emits_frame {A : Type} (c : M A) (Q : A -> list Event -> Prop) (w : World) :
  emits c Q ->
  processed (world_after c w) = processed w /\
  processed_file (world_after c w) = processed_file w /\
  pid_file (world_after c w) = pid_file w /\
  history (world_after c w) = history w ++ events_of c w.
Proof.
  intros Hc. destruct (Hc w) as (Hp & Hf & Hd & tr & Hh & _).
  unfold world_after, events_of. rewrite Hh, drop_app_length. auto.
Qed.

(** ** The model at work on a few inputs *)

Example IsValidType_examples :
  IsValidType (issue_of [] [] (lit "Sub-Task") []) = true
  /\ IsValidType (issue_of [] [] (lit "Epic") []) = false
  /\ IsValidType (issue_of [] [] [] []) = false
  /\ IsValidType (issue_of [] [] (lit "tas" ++ [8490]) []) = true.
Proof. vm_compute. auto. Qed.

Example IsClosed_examples :
  IsClosed (issue_of [] [] [] (lit "Done")) = true
  /\ IsClosed (issue_of [] [] [] (lit "In Progress")) = false.
Proof. vm_compute. auto. Qed.

Example slug_examples :
  slug_of (lit "  Fix: the LOGIN bug!! (v2) ") = lit "fix-the-login-bug-v2"
  /\ slug_of (lit "Caf" ++ [233] ++ lit " menu") = lit "caf-menu"
  /\ slug_of (lit "a very long title that goes on and on and on and on")
     = lit "a-very-long-title-that-goes-on-and-on-an"
  /\ slug_of (lit "!!!") = [].
Proof. vm_compute. auto. Qed.

Example extractAC_examples :
  extractAC (lit "Intro. Acceptance Criteria:" ++ nl ++ lit "- a" ++ nl ++ lit "- b"
             ++ nl ++ nl ++ lit "Notes")
  = lit "- a" ++ nl ++ lit "- b"
  /\ extractAC (lit "ACCEPTANCEcriteria: x" ++ nl ++ nl ++ lit "acceptance criteria: y")
     = lit "x"
  /\ extractAC (lit "nothing here") = [].
Proof. vm_compute. auto. Qed.

Example Atoi_examples :
  Atoi (lit "-12") = (-12)%Z /\ Atoi (lit "12a") = 0%Z /\ Atoi [] = 0%Z
  /\ Atoi (Itoa 4711) = 4711%Z
  /\ Atoi (lit "99999999999999999999") = max_int.
Proof. vm_compute. auto. Qed.

(** ** The stages emit what their run relations say *)

Lemma Git_exec_emits (env : Env) (g : Git) (args : list gostring) :
  emits (Git_exec env g args)
    (fun r tr => exists out failed,
         tr = [CallGit (repoPath g) args out failed] /\ r = exec_result args out failed).
Proof.
  unfold Git_exec. apply emits_bind.
  eapply emits_conseq; [apply emits_ask |].
  intros [out failed] tr ->. cbn [fst snd].
  destruct failed; apply emits_ret; exists out; eexists; split; reflexivity.
Qed.

(** A call of [g.exec] whose result is used or dropped by what follows. *)
Lemma emits_exec (env : Env) (g : Git) (args : list gostring) {B : Type}
    (k : gostring * option gostring -> M B) (Q : B -> list Event -> Prop) :
  (forall out failed,
      emits (k (exec_result args out failed))
            (fun b tr => Q b (CallGit (repoPath g) args out failed :: tr))) ->
  emits (Git_exec env g args ≫= k) Q.
Proof.
  intros Hk. apply emits_bind.
  eapply emits_conseq; [apply Git_exec_emits |].
  intros r tr (out & failed & -> & ->). cbn. apply Hk.
Qed.

Lemma Git_Init_emits (env : Env) (g : Git) :
  emits (Git_Init env g) (Init_run env g).
Proof.
  unfold Git_Init. apply emits_bind.
  eapply emits_conseq; [apply emits_ask |].
  intros [err|] tr ->.
  - apply emits_ret. constructor.
  - apply emits_bind. eapply emits_conseq; [apply emits_ask |].
    intros [|] tr ->.
    + apply emits_bind. eapply emits_conseq; [apply emits_ask |].
      intros [out [|]] tr ->; cbn [fst snd].
      * apply emits_ret. constructor.
      * apply emits_exec; intros o1 f1. apply emits_exec; intros o2 f2.
        apply emits_ret. cbn. apply Init_cloned.
    + apply emits_exec; intros o1 f1. apply emits_exec; intros o2 f2.
      apply emits_ret. cbn. apply Init_reused.
Qed.

Lemma Git_Pull_emits (env : Env) (g : Git) :
  emits (Git_Pull env g) (Pull_run g).
Proof.
  unfold Git_Pull. apply emits_exec; intros o1 [|]; cbn.
  - apply emits_ret. apply Pull_checkout_fails.
  - apply emits_exec; intros o2 [|]; cbn; apply emits_ret; constructor.
Qed.

Lemma Git_CreateBranch_emits (env : Env) (g : Git) (issueKey title : gostring) :
  emits (Git_CreateBranch env g issueKey title) (CreateBranch_run g issueKey title).
Proof.
  unfold Git_CreateBranch. apply emits_bind.
  eapply emits_conseq; [apply Git_Pull_emits |].
  intros [err|] tr Hp.
  - apply emits_ret. rewrite app_nil_r. constructor. exact Hp.
  - apply emits_exec; intros o1 f1.
    fold (slug_of title). fold (branch_name issueKey title).
    destruct (Contains (fst (exec_result [lit "branch"; lit "-a"] o1 f1))
                       (branch_name issueKey title)) eqn:Hc.
    + apply emits_exec; intros o2 f2. apply emits_ret.
      pose proof (CreateBranch_done g issueKey title tr o1 o2 f1 f2 Hp) as H.
      rewrite Hc in H. exact H.
    + apply emits_exec; intros o2 f2. apply emits_ret.
      pose proof (CreateBranch_done g issueKey title tr o1 o2 f1 f2 Hp) as H.
      rewrite Hc in H. exact H.
Qed.

Lemma runClaude_emits (env : Env) (dir : gostring) (issue : Issue) :
  emits (runClaude env dir issue) (Claude_run dir issue).
Proof.
  unfold runClaude. apply emits_bind.
  eapply emits_conseq; [apply emits_ask |].
  intros [err|] tr ->.
  - apply emits_ret. constructor.
  - apply emits_bind. eapply emits_conseq; [apply emits_emit |].
    intros _ tr ->. apply emits_ret. constructor.
Qed.

Lemma Git_HasChanges_emits (env : Env) (g : Git) :
  emits (Git_HasChanges env g)
    (fun changed tr => exists out failed,
         tr = [CallGit (repoPath g) status_args out failed]
         /\ changed = negb (no_changes out failed)).
Proof.
  unfold Git_HasChanges. apply emits_exec; intros out failed.
  apply emits_ret. exists out, failed. split; reflexivity.
Qed.

Lemma Git_CommitAndPush_emits (env : Env) (g : Git) (branchName message : gostring) :
  emits (Git_CommitAndPush env g branchName message)
        (CommitAndPush_run g branchName message).
Proof.
  unfold Git_CommitAndPush. apply emits_exec; intros o1 [|]; cbn.
  { apply emits_ret. apply Commit_add_fails. }
  apply emits_exec; intros o2 [|]; cbn.
  { apply emits_ret. apply Commit_commit_fails. }
  apply emits_exec; intros o3 [|]; cbn; apply emits_ret; constructor.
Qed.

Lemma fail_emits (issueKey stage err : gostring) :
  emits (fail {| Result.IssueKey := issueKey; Result.Status := lit "started";
                 Result.PRUrl := []; Result.Error := [] |} stage err)
    (fun r tr => r = failed_result issueKey stage err /\ tr = [Verdict r]).
Proof.
  unfold fail. apply emits_bind. eapply emits_conseq; [apply emits_emit |].
  intros _ tr ->. apply emits_ret. split; reflexivity.
Qed.

Lemma completed_emits (issueKey url : gostring) :
  emits (completed {| Result.IssueKey := issueKey; Result.Status := lit "started";
                      Result.PRUrl := url; Result.Error := [] |})
    (fun r tr => r = completed_result issueKey url /\ tr = [Verdict r]).
Proof.
  unfold completed. apply emits_bind. eapply emits_conseq; [apply emits_emit |].
  intros _ tr ->. apply emits_ret. split; reflexivity.
Qed.

(** [ProcessIssue] goes one of the ways of [Process_run], whatever the
    collaborators answer. *)
Ltac close_run H :=
  cbn zeta in H; rewrite <- ?app_assoc in *; cbn [app] in *; exact H.

Lemma ProcessIssue_emits (env : Env) (cfg : Config) (issueKey : gostring) :
  emits (ProcessIssue env cfg issueKey) (Process_run env cfg issueKey).
Proof.
  unfold ProcessIssue.
  apply emits_bind. eapply emits_conseq; [apply emits_emit |]. intros _ ? ->.
  apply emits_bind. eapply emits_conseq; [apply emits_ask |]. intros [issue|err] ? ->.
  2:{ eapply emits_conseq; [apply fail_emits |].
      intros r tr [-> ->]. apply Run_fetch_fails. }
  destruct (IsValidType issue) eqn:Hvalid; cbn [negb].
  2:{ eapply emits_conseq; [apply fail_emits |].
      intros r tr [-> ->]. apply Run_invalid_type. exact Hvalid. }
  destruct (IsClosed issue) eqn:Hclosed.
  { eapply emits_conseq; [apply fail_emits |].
    intros r tr [-> ->]. apply Run_closed; assumption. }
  apply emits_bind. eapply emits_conseq; [apply Git_Init_emits |].
  intros [err|] trI HI.
  { eapply emits_conseq; [apply fail_emits |].
    intros r tr [-> ->].
    pose proof (Run_init_fails env cfg issueKey issue err trI Hvalid Hclosed HI) as H.
    close_run H. }
  apply emits_bind. eapply emits_conseq; [apply Git_CreateBranch_emits |].
  intros [branchName|err] trB HB.
  2:{ eapply emits_conseq; [apply fail_emits |].
      intros r tr [-> ->].
      pose proof (Run_branch_fails env cfg issueKey issue err trI trB
                    Hvalid Hclosed HI HB) as H.
      close_run H. }
  assert (branchName = branch_name issueKey (Issue.Title issue)) as ->
    by (inversion HB; reflexivity).
  apply emits_bind. eapply emits_conseq; [apply runClaude_emits |].
  intros e trC HC.
  pose proof (Implemented_intro env cfg issueKey issue trI trB trC e
                Hvalid Hclosed HI HB HC) as HImp.
  destruct e as [err|].
  { eapply emits_conseq; [apply fail_emits |].
    intros r tr [-> ->].
    pose proof (Run_claude_fails env cfg issueKey issue err _ HImp) as H.
    close_run H. }
  apply emits_bind. eapply emits_conseq; [apply Git_HasChanges_emits |].
  intros changed ? (out & failed & -> & ->).
  destruct (no_changes out failed) eqn:Hnc; cbn [negb].
  { eapply emits_conseq; [apply completed_emits |].
    intros r tr [-> ->].
    pose proof (Run_no_changes env cfg issueKey issue _ out failed HImp Hnc) as H.
    close_run H. }
  apply emits_bind. eapply emits_conseq; [apply Git_CommitAndPush_emits |].
  intros [err|] trP HP.
  { eapply emits_conseq; [apply fail_emits |].
    intros r tr [-> ->].
    pose proof (Run_push_fails env cfg issueKey issue _ trP out err failed
                  HImp Hnc HP) as H.
    close_run H. }
  apply emits_bind. eapply emits_conseq; [apply emits_ask |].
  intros [url|err] ? ->.
  2:{ eapply emits_conseq; [apply fail_emits |].
      intros r tr [-> ->].
      pose proof (Run_pr_fails env cfg issueKey issue _ trP out err failed
                    HImp Hnc HP) as H.
      close_run H. }
  apply emits_bind. eapply emits_conseq; [apply emits_emit |]. intros _ ? ->.
  apply emits_bind.
  pose proof (Run_published env cfg issueKey issue _ trP out url failed
                HImp Hnc HP) as H.
  destruct (AutoTransition (Poll cfg)).
  - eapply emits_conseq; [apply emits_emit |]. intros _ ? ->.
    eapply emits_conseq; [apply completed_emits |].
    intros r tr [-> ->]. close_run H.
  - apply emits_ret.
    eapply emits_conseq; [apply completed_emits |].
    intros r tr [-> ->]. close_run H.
Qed.

(** ** Strings *)

Lemma gostring_eqb_eq (a b : gostring) : gostring_eqb a b = true <-> a = b.
Proof.
  revert b. induction a as [|x a IH]; intros [|y b]; cbn; try (split; congruence).
  rewrite andb_true_iff, N.eqb_eq, IH. split; [intros [-> ->] | intros [= -> ->]]; auto.
Qed.

Lemma gostring_eqb_refl (a : gostring) : gostring_eqb a a = true.
Proof. apply gostring_eqb_eq. reflexivity. Qed.

Lemma gostring_eqb_neq (a b : gostring) : gostring_eqb a b = false <-> a <> b.
Proof.
  rewrite <- gostring_eqb_eq. destruct (gostring_eqb a b); split; congruence.
Qed.

Lemma IsValidType_accepted (i : Issue) :
  IsValidType i = true <-> In (ToLower (Issue.Type_ i)) accepted_types.
Proof.
  unfold IsValidType, accepted_types. cbn [In].
  rewrite !orb_true_iff, !gostring_eqb_eq. intuition congruence.
Qed.

Lemma IsClosed_closed (i : Issue) :
  IsClosed i = true <-> In (ToLower (Issue.Status i)) closed_statuses.
Proof.
  unfold IsClosed, closed_statuses. cbn [In].
  rewrite !orb_true_iff, !gostring_eqb_eq. intuition congruence.
Qed.

(** ** The pipeline *)

Lemma ProcessIssue_run (env : Env) (cfg : Config) (issueKey : gostring) (w : World) :
  Process_run env cfg issueKey
    (result_of (ProcessIssue env cfg issueKey) w)
    (events_of (ProcessIssue env cfg issueKey) w).
Proof. apply (emits_run _ _ w (ProcessIssue_emits env cfg issueKey)). Qed.

(** Case analysis on a run whose fetched item is known. *)
Ltac run_cases Hrun Hfetched :=
  inversion Hrun; subst;
  repeat match goal with
         | H : Implemented _ _ _ _ _ _ |- _ => inversion H; subst; clear H
         end;
  match type of Hfetched with
  | _ !! _ = _ => rewrite <- ?app_assoc in Hfetched; cbn in Hfetched;
                  injection Hfetched as Hfetched; subst
  end.

(** C3. For every fetched item, [ProcessIssue] fails at stage "validate" with
    reason "invalid type" exactly when the lower-cased type is not one of bug,
    task, story, sub-task; for an item of accepted type it fails at stage
    "validate" with a reason mentioning "closed" exactly when the lower-cased
    status is one of done, closed, resolved, cancelled; and in both cases the
    run consists of the banner, the fetch and the verdict, with no workspace,
    implement or change-request call. *)
Theorem validate_rejects_exactly (env : Env) (cfg : Config) (issueKey : gostring)
    (w : World) (issue : Issue) :
  fetched env cfg issueKey w issue ->
  let r := result_of (ProcessIssue env cfg issueKey) w in
  let tr := events_of (ProcessIssue env cfg issueKey) w in
  (~ In (ToLower (Issue.Type_ issue)) accepted_types
   <-> failed_at r (lit "validate") = true
       /\ HasPrefix (Result.Error r) (lit "validate: invalid type") = true)
  /\ (In (ToLower (Issue.Type_ issue)) accepted_types ->
      (In (ToLower (Issue.Status issue)) closed_statuses
       <-> failed_at r (lit "validate") = true
           /\ Contains (Result.Error r) (lit "closed") = true))
  /\ (~ In (ToLower (Issue.Type_ issue)) accepted_types
      \/ In (ToLower (Issue.Status issue)) closed_statuses ->
      tr = [Processing issueKey; CallGetIssue issueKey (inl issue); Verdict r]).
Proof.
  intros Hf r tr. subst r tr. unfold fetched in Hf.
  pose proof (ProcessIssue_run env cfg issueKey w) as Hrun.
  rewrite <- IsValidType_accepted, <- IsClosed_closed.
  set (r := result_of (ProcessIssue env cfg issueKey) w) in *.
  set (tr := events_of (ProcessIssue env cfg issueKey) w) in *.
  clearbody r tr.
  run_cases Hrun Hf;
    repeat match goal with
           | H : IsValidType _ = _ |- _ => rewrite H; clear H
           | H : IsClosed _ = _ |- _ => rewrite H; clear H
           end;
    unfold failed_at; cbn [Result.Status Result.Error failed_result completed_result];
    (split; [| split]).
  all: try (vm_compute; intuition congruence).
  all: try (intros _; rewrite <- ?app_assoc; reflexivity).
Qed.

Lemma validate_rejects_exactly_witness :
  let env := scenario_env sc_epic in
  let issue := issue_of (lit "K-9") (lit "Big plan") (lit "Epic") (lit "Open") in
  let r := result_of (ProcessIssue env cfg0 (lit "K-9")) world0 in
  let tr := events_of (ProcessIssue env cfg0 (lit "K-9")) world0 in
  (~ In (ToLower (Issue.Type_ issue)) accepted_types
   <-> failed_at r (lit "validate") = true
       /\ HasPrefix (Result.Error r) (lit "validate: invalid type") = true)
  /\ (In (ToLower (Issue.Type_ issue)) accepted_types ->
      (In (ToLower (Issue.Status issue)) closed_statuses
       <-> failed_at r (lit "validate") = true
           /\ Contains (Result.Error r) (lit "closed") = true))
  /\ (~ In (ToLower (Issue.Type_ issue)) accepted_types
      \/ In (ToLower (Issue.Status issue)) closed_statuses ->
      tr = [Processing (lit "K-9"); CallGetIssue (lit "K-9") (inl issue); Verdict r]).
Proof.
  apply (validate_rejects_exactly (scenario_env sc_epic) cfg0 (lit "K-9") world0
           (issue_of (lit "K-9") (lit "Big plan") (lit "Epic") (lit "Open"))).
  vm_compute. reflexivity.
Defined.

(** ** Kinds of events in the stages *)

Ltac kinds :=
  repeat match goal with
         | |- Forall _ [] => constructor
         | |- Forall _ (_ :: _) => constructor; [vm_compute; reflexivity |]
         | |- Forall _ (_ ++ _) => apply Forall_app; split
         end;
  try assumption.

Lemma Init_run_kinds (env : Env) (g : Git) (r : option gostring) (tr : list Event) :
  Init_run env g r tr -> Forall (fun e => kind_of e = Workspace) tr.
Proof. intros H; inversion H; subst; kinds. Qed.

Lemma Pull_run_kinds (g : Git) (r : option gostring) (tr : list Event) :
  Pull_run g r tr -> Forall (fun e => kind_of e = Workspace) tr.
Proof. intros H; inversion H; subst; kinds. Qed.

Lemma CreateBranch_run_kinds (g : Git) (issueKey title : gostring)
    (r : gostring + gostring) (tr : list Event) :
  CreateBranch_run g issueKey title r tr -> Forall (fun e => kind_of e = Workspace) tr.
Proof.
  intros H; inversion H as [err tr' Hp | tr' o1 o2 f1 f2 Hp]; subst.
  - eapply Pull_run_kinds; eauto.
  - apply Forall_app; split; [eapply Pull_run_kinds; eauto |].
    destruct (Contains _ _); kinds.
Qed.

Lemma Claude_run_kinds (dir : gostring) (issue : Issue) (r : option gostring)
    (tr : list Event) :
  Claude_run dir issue r tr -> Forall (fun e => kind_of e = Implement) tr.
Proof. intros H; inversion H; subst; kinds. Qed.

Lemma CommitAndPush_run_kinds (g : Git) (b m : gostring) (r : option gostring)
    (tr : list Event) :
  CommitAndPush_run g b m r tr -> Forall (fun e => kind_of e = Publish) tr.
Proof. intros H; inversion H; subst; kinds. Qed.

(** Closes a goal on the kind of an event known by its kind. *)
Ltac by_kind Hk :=
  unfold kind_in; rewrite Hk; vm_compute; reflexivity.

(** Proves a [Forall] on the kinds of the events of a run from the kinds of
    its stages. *)
Ltac run_kinds :=
  rewrite <- ?app_assoc;
  repeat match goal with
         | |- Forall _ [] => constructor
         | |- Forall _ (_ :: _) => constructor; [vm_compute; reflexivity |]
         | |- Forall _ ((if ?b then _ else _) ++ _) => destruct b
         | |- Forall _ (_ ++ _) => apply Forall_app; split
         | H : Init_run _ _ _ ?tr |- Forall _ ?tr =>
             eapply Forall_impl; [eapply Init_run_kinds; exact H |];
             cbv beta; let Hk := fresh in intros ? Hk; by_kind Hk
         | H : CreateBranch_run _ _ _ _ ?tr |- Forall _ ?tr =>
             eapply Forall_impl; [eapply CreateBranch_run_kinds; exact H |];
             cbv beta; let Hk := fresh in intros ? Hk; by_kind Hk
         | H : Claude_run _ _ _ ?tr |- Forall _ ?tr =>
             eapply Forall_impl; [eapply Claude_run_kinds; exact H |];
             cbv beta; let Hk := fresh in intros ? Hk; by_kind Hk
         | H : CommitAndPush_run _ _ _ _ ?tr |- Forall _ ?tr =>
             eapply Forall_impl; [eapply CommitAndPush_run_kinds; exact H |];
             cbv beta; let Hk := fresh in intros ? Hk; by_kind Hk
         end.

Ltac run_inversion Hrun :=
  inversion Hrun; subst;
  repeat match goal with
         | H : Implemented _ _ _ _ _ _ |- _ => inversion H; subst; clear H
         end.

(** An event that is not a [git status] reports nothing about changes; a
    [git status] that shows changes does not report their absence. *)
Lemma no_report_by_kind (tr : list Event) :
  Forall (fun e => kind_in [Inspect] e = false) tr ->
  Forall (fun e => reports_no_changes e = false) tr.
Proof.
  intros H. eapply Forall_impl; [exact H |]. cbv beta.
  intros e He. destruct e; try reflexivity.
  unfold kind_in in He. cbn in *.
  apply bool_decide_eq_false in He.
  rewrite bool_decide_eq_false_2; [reflexivity |].
  intros Heq. apply He. rewrite Heq. apply elem_of_cons. left. reflexivity.
Qed.

Lemma no_report_with_changes (dir out : gostring) (failed : bool) :
  no_changes out failed = false ->
  reports_no_changes (CallGit dir status_args out failed) = false.
Proof. intros H. cbn. rewrite H. apply andb_false_r. Qed.

Lemma Forall_not_Exists (P : Event -> bool) (tr : list Event) :
  Forall (fun e => P e = false) tr -> Exists (fun e => P e = true) tr -> False.
Proof.
  intros HF HE. apply Exists_exists in HE as (e & Hin & He).
  rewrite Forall_forall in HF. specialize (HF e Hin). congruence.
Qed.

(** C4. When the workspace reports no uncommitted changes after the Implement
    stage, [ProcessIssue] returns status "completed" with an empty
    change-request URL, and the run has no commit, push, change-request or
    tracker-update call. *)
Theorem no_changes_completes_quietly (env : Env) (cfg : Config) (issueKey : gostring)
    (w : World) :
  existsb reports_no_changes (events_of (ProcessIssue env cfg issueKey) w) = true ->
  let r := result_of (ProcessIssue env cfg issueKey) w in
  let tr := events_of (ProcessIssue env cfg issueKey) w in
  Result.Status r = lit "completed"
  /\ Result.PRUrl r = []
  /\ Forall (fun e => kind_in [Publish; ChangeRequest; TrackerWrite] e = false) tr.
Proof.
  intros Hex r tr. subst r tr.
  assert (Hex' : Exists (fun e => reports_no_changes e = true)
                        (events_of (ProcessIssue env cfg issueKey) w)).
  { apply existsb_exists in Hex as (e & Hin & He).
    apply Exists_exists. exists e. split; [apply list_elem_of_In; exact Hin | exact He]. }
  clear Hex.
  pose proof (ProcessIssue_run env cfg issueKey w) as Hrun.
  set (r := result_of (ProcessIssue env cfg issueKey) w) in *.
  set (tr := events_of (ProcessIssue env cfg issueKey) w) in *.
  clearbody r tr.
  run_inversion Hrun.
  7:{ split; [reflexivity | split; [reflexivity |]]. run_kinds. }
  all: exfalso; revert Hex'; apply Forall_not_Exists.
  all: rewrite <- ?app_assoc;
    repeat match goal with
           | |- Forall _ (CallGit _ status_args _ _ :: _) =>
               constructor; [apply no_report_with_changes; assumption |]
           | |- Forall _ ([CallGit _ status_args _ _] ++ _) => cbn [app]
           | |- Forall _ (_ ++ _) => apply Forall_app; split
           | |- Forall (fun e => reports_no_changes e = false) _ =>
               apply no_report_by_kind; run_kinds
           end.
Qed.

Lemma no_changes_completes_quietly_witness :
  let r := result_of (ProcessIssue (scenario_env sc_idle) cfg0 (lit "K-1")) world0 in
  let tr := events_of (ProcessIssue (scenario_env sc_idle) cfg0 (lit "K-1")) world0 in
  Result.Status r = lit "completed"
  /\ Result.PRUrl r = []
  /\ Forall (fun e => kind_in [Publish; ChangeRequest; TrackerWrite] e = false) tr.
Proof.
  apply (no_changes_completes_quietly (scenario_env sc_idle) cfg0 (lit "K-1") world0).
  vm_compute. reflexivity.
Defined.

(** C10. A [Result] that carries a change-request URL has status "completed",
    and the URL is the one the code host answered with; a failed [Result]
    carries no URL. *)
Theorem url_only_on_completed (env : Env) (cfg : Config) (issueKey : gostring)
    (w : World) :
  Result.PRUrl (result_of (ProcessIssue env cfg issueKey) w) <> [] ->
  let r := result_of (ProcessIssue env cfg issueKey) w in
  let tr := events_of (ProcessIssue env cfg issueKey) w in
  Result.Status r = lit "completed"
  /\ Result.Status r <> lit "failed"
  /\ exists title body head base,
       In (CallCreatePR title body head base (inl (Result.PRUrl r))) tr.
Proof.
  intros Hurl r tr. subst r tr.
  pose proof (ProcessIssue_run env cfg issueKey w) as Hrun.
  set (r := result_of (ProcessIssue env cfg issueKey) w) in *.
  set (tr := events_of (ProcessIssue env cfg issueKey) w) in *.
  clearbody r tr.
  inversion Hrun; subst; cbn in Hurl; try congruence.
  split; [reflexivity | split; [vm_compute; discriminate |]].
  exists (pr_title issueKey (Issue.Title issue)),
         (FormatPRBody_ env issue (BaseURL (Jira cfg))),
         (branch_name issueKey (Issue.Title issue)),
         (DefaultBranch (Repo cfg)).
  rewrite !in_app_iff. cbn. auto 10.
Qed.

Lemma url_only_on_completed_witness :
  let r := result_of (ProcessIssue (scenario_env sc_happy) cfg0 (lit "K-1")) world0 in
  let tr := events_of (ProcessIssue (scenario_env sc_happy) cfg0 (lit "K-1")) world0 in
  Result.Status r = lit "completed"
  /\ Result.Status r <> lit "failed"
  /\ exists title body head base,
       In (CallCreatePR title body head base (inl (Result.PRUrl r))) tr.
Proof.
  apply (url_only_on_completed (scenario_env sc_happy) cfg0 (lit "K-1") world0).
  vm_compute. discriminate.
Defined.

(** The same, read from the failed side. *)
Lemma failed_result_has_no_url (env : Env) (cfg : Config) (issueKey : gostring)
    (w : World) :
  Result.Status (result_of (ProcessIssue env cfg issueKey) w) = lit "failed" ->
  Result.PRUrl (result_of (ProcessIssue env cfg issueKey) w) = [].
Proof.
  intros Hst.
  pose proof (ProcessIssue_run env cfg issueKey w) as Hrun.
  set (r := result_of (ProcessIssue env cfg issueKey) w) in *.
  clearbody r.
  inversion Hrun; subst; cbn in *; try reflexivity; vm_compute in Hst; discriminate.
Qed.

(** Turns every stage of a run into its events. *)
Ltac concretize :=
  repeat match goal with
         | H : Implemented _ _ _ _ _ _ |- _ => inversion H; subst; clear H
         | H : Init_run _ _ _ _ |- _ => inversion H; subst; clear H
         | H : CreateBranch_run _ _ _ _ _ |- _ => inversion H; subst; clear H
         | H : Pull_run _ _ _ |- _ => inversion H; subst; clear H
         | H : Claude_run _ _ _ _ |- _ => inversion H; subst; clear H
         | H : CommitAndPush_run _ _ _ _ _ |- _ => inversion H; subst; clear H
         end.

(** C8, as amended. When [git.Init] fails (making the directory, or the
    clone of an absent working tree), the [Result] is failed and names the
    stage "git"; when the pull of the default branch fails (its checkout or
    the pull itself), the [Result] is failed and names the stage "branch";
    each with the cause of the failing step.  Nothing is said of a failure
    of the checkout or creation of the feature branch. *)
Theorem prepare_failure_stage (env : Env) (cfg : Config) (issueKey : gostring)
    (w : World) (step : PrepareStep) (cause : gostring) :
  InitOrPullFailure (NewGit env cfg) (events_of (ProcessIssue env cfg issueKey) w)
                    step cause ->
  let r := result_of (ProcessIssue env cfg issueKey) w in
  r = failed_result issueKey (stage_of_step step) cause
  /\ failed_at r (stage_of_step step) = true.
Proof.
  intros Hfail r. subst r.
  pose proof (ProcessIssue_run env cfg issueKey w) as Hrun.
  set (r := result_of (ProcessIssue env cfg issueKey) w) in *.
  set (tr := events_of (ProcessIssue env cfg issueKey) w) in *.
  clearbody r tr.
  assert (Hr : r = failed_result issueKey (stage_of_step step) cause).
  2:{ split; [exact Hr |]. rewrite Hr. destruct step; vm_compute; reflexivity. }
  inversion Hrun; subst; concretize;
    repeat match goal with
           | H : context [if ?b then _ else _] |- _ => destruct b
           end;
    inversion Hfail as [err' Hin | out' Hin | dir args out' Hfind | dir args out' Hfind];
    subst; cbn [stage_of_step];
    repeat match goal with
           | x := _ : Result |- _ => subst x
           end.
  all: try (rewrite <- ?app_assoc in Hin; cbn in Hin;
            repeat (destruct Hin as [Hin | Hin];
                    [ try discriminate Hin;
                      try (injection Hin; intros; subst; reflexivity) |]);
            contradiction).
  all: try (vm_compute in Hfind; discriminate).
  all: try (vm_compute in Hfind; injection Hfind as <- <- <-; reflexivity).
Qed.

Lemma prepare_failure_stage_witness :
  let env := scenario_env sc_pull_fails in
  let r := result_of (ProcessIssue env cfg0 (lit "K-1")) world0 in
  r = failed_result (lit "K-1") (stage_of_step PullStep)
        (git_error [lit "pull"; lit "origin"; lit "main"] (lit "fatal: no remote"))
  /\ failed_at r (stage_of_step PullStep) = true.
Proof.
  apply (prepare_failure_stage (scenario_env sc_pull_fails) cfg0 (lit "K-1") world0 PullStep
           (git_error [lit "pull"; lit "origin"; lit "main"] (lit "fatal: no remote"))).
  apply (Pull_failed _ _ (lit "/home/dev/.factory/workspace")).
  vm_compute. reflexivity.
Defined.

(** C8 as the specification words it fails when the clone fails: the
    prepare-workspace stage has failed, in [git.Init], and the [Result] names
    the stage "git", not "branch". *)
Lemma clone_failure_is_stage_git :
  let env := scenario_env sc_clone_fails in
  let r := result_of (ProcessIssue env cfg0 (lit "K-1")) world0 in
  let tr := events_of (ProcessIssue env cfg0 (lit "K-1")) world0 in
  InitOrPullFailure (NewGit env cfg0) tr InitStep
    (lit "clone failed: fatal: repository not found")
  /\ Result.Status r = lit "failed"
  /\ Result.Error r = lit "git: clone failed: fatal: repository not found"
  /\ failed_at r (lit "branch") = false.
Proof.
  split.
  - apply (Clone_failed _ _ (lit "fatal: repository not found")).
    vm_compute. auto 10.
  - vm_compute. auto.
Qed.

(** The step that C8 as amended leaves out.  Here [git checkout -b] of the
    feature branch fails; [CreateBranch] drops the error (git.go, lines 85 to
    92, where the two other calls of [g.exec] in the function and all those
    of [Pull] and [CommitAndPush] return theirs), and the run goes on on the
    branch that was checked out before, to a change request and the verdict
    "completed". *)
Lemma feature_branch_failure_is_dropped :
  let env := scenario_env sc_no_feature_branch in
  let r := result_of (ProcessIssue env cfg0 (lit "K-1")) world0 in
  let tr := events_of (ProcessIssue env cfg0 (lit "K-1")) world0 in
  In (CallGit (repoPath (NewGit env cfg0))
        [lit "checkout"; lit "-b"; branch_name (lit "K-1") (lit "Fix login")]
        (lit "fatal: cannot lock ref") true) tr
  /\ r = completed_result (lit "K-1") (lit "https://github.com/org/repo/pull/7")
  /\ failed_at r (lit "branch") = false.
Proof.
  vm_compute. repeat split.
  repeat (first [left; reflexivity | right]).
Qed.

(** ** The branch name *)

Lemma star_greedy_head (p : rune -> bool) (s : gostring) :
  exists l, star_greedy p s = drop_while p s :: l.
Proof.
  induction s as [|c t [l IH]]; cbn.
  - exists []. reflexivity.
  - destruct (p c).
    + rewrite IH. exists (l ++ [c :: t]). reflexivity.
    + exists []. reflexivity.
Qed.

Lemma drop_while_length (p : rune -> bool) (s : gostring) :
  (length (drop_while p s) <= length s)%nat.
Proof.
  induction s as [|c t IH]; cbn; [lia |]. destruct (p c); cbn; lia.
Qed.

Lemma drop_while_ext (p q : rune -> bool) (s : gostring) :
  (forall r, p r = q r) -> drop_while p s = drop_while q s.
Proof.
  intros Hpq. induction s as [|c t IH]; cbn; [reflexivity |].
  rewrite Hpq, IH. reflexivity.
Qed.

Lemma collapse_runs_skip (c : rune) (t : gostring) :
  is_alnum c = false ->
  collapse_runs (c :: t)
  = hyphen :: collapse_runs (drop_while (fun r => negb (is_alnum r)) t).
Proof.
  revert c. induction t as [|d t IH]; intros c Hc.
  - cbn. rewrite Hc. reflexivity.
  - change (collapse_runs (c :: d :: t))
      with (if is_alnum c then c :: collapse_runs (d :: t)
            else if is_alnum d then hyphen :: collapse_runs (d :: t)
                 else collapse_runs (d :: t)).
    rewrite Hc. cbn [drop_while].
    destruct (is_alnum d) eqn:Hd; cbn [negb]; [reflexivity | apply IH; exact Hd].
Qed.

Lemma replace_from_collapse (fuel : nat) (s : gostring) :
  (length s <= fuel)%nat ->
  replace_from fuel non_alnum_re s (lit "-") = collapse_runs s.
Proof.
  revert s. induction fuel as [|fuel IH]; intros s Hlen.
  - destruct s; [reflexivity | cbn in Hlen; lia].
  - destruct s as [|c t]; [reflexivity |].
    cbn [replace_from rmatch non_alnum_re plus_greedy].
    destruct (is_alnum c) eqn:Hc; cbn [negb no_cap List.map].
    + cbn [collapse_runs]. rewrite Hc. f_equal. apply IH. cbn in Hlen. lia.
    + destruct (star_greedy_head (fun r => negb (is_alnum r)) t) as [l ->].
      cbn [List.map].
      pose proof (drop_while_length (fun r => negb (is_alnum r)) t) as Hd.
      replace (length (drop_while (fun r => negb (is_alnum r)) t) <? length (c :: t))%nat
        with true by (symmetry; apply Nat.ltb_lt; cbn; lia).
      rewrite collapse_runs_skip by exact Hc.
      rewrite IH by (cbn in Hlen; lia). reflexivity.
Qed.

Lemma ReplaceAllString_collapse (s : gostring) :
  ReplaceAllString non_alnum_re s (lit "-") = collapse_runs s.
Proof. apply replace_from_collapse. lia. Qed.

Lemma Trim_hyphens (s : gostring) : Trim s (lit "-") = trim_hyphens s.
Proof.
  unfold Trim, trim_hyphens, drop_while_end.
  assert (H : forall r, rune_in (lit "-") r = is_hyphen r).
  { intros r. unfold rune_in, is_hyphen, hyphen. cbn. apply orb_false_r. }
  rewrite (drop_while_ext _ _ s H).
  rewrite (drop_while_ext _ _ (rev (drop_while is_hyphen s)) H). reflexivity.
Qed.

Lemma slug_rune_width (r : rune) : slug_rune r = true -> utf8_width r = 1%nat.
Proof.
  unfold slug_rune, is_alnum, is_lower, is_upper, is_digit, is_hyphen, hyphen, utf8_width.
  intros H. replace (r <? 128) with true; [reflexivity |].
  symmetry. apply N.ltb_lt.
  rewrite !orb_true_iff, !andb_true_iff, !N.leb_le, N.eqb_eq in H. lia.
Qed.

Lemma collapse_runs_runes (s : gostring) :
  Forall (fun r => slug_rune r = true) (collapse_runs s).
Proof.
  induction s as [|c t IH]; cbn [collapse_runs]; [constructor |].
  destruct (is_alnum c) eqn:Hc.
  - constructor; [unfold slug_rune; rewrite Hc; reflexivity | exact IH].
  - destruct t as [|d t']; [repeat constructor |].
    destruct (is_alnum d); [constructor; [reflexivity | exact IH] | exact IH].
Qed.

Lemma drop_while_Forall (P : rune -> Prop) (p : rune -> bool) (s : gostring) :
  Forall P s -> Forall P (drop_while p s).
Proof.
  induction 1 as [|c t Hc Ht IH]; cbn; [constructor |].
  destruct (p c); [exact IH | constructor; assumption].
Qed.

Lemma trim_hyphens_runes (s : gostring) :
  Forall (fun r => slug_rune r = true) s ->
  Forall (fun r => slug_rune r = true) (trim_hyphens s).
Proof.
  intros H. unfold trim_hyphens, drop_while_end.
  apply Forall_rev, drop_while_Forall, Forall_rev, drop_while_Forall, H.
Qed.

Lemma len_slug_runes (s : gostring) :
  Forall (fun r => slug_rune r = true) s -> len s = length s.
Proof.
  induction 1 as [|c t Hc Ht IH]; cbn; [reflexivity |].
  fold (len t). rewrite IH, (slug_rune_width c Hc). reflexivity.
Qed.

(** The slug computed by [CreateBranch] is the slug of the specification;
    its 40 bytes are 40 characters because only ASCII is left in it. *)
Lemma slug_of_spec (title : gostring) : slug_of title = slug_spec title.
Proof.
  unfold slug_of, slug_spec, slice_to.
  rewrite ReplaceAllString_collapse, Trim_hyphens.
  rewrite len_slug_runes by (apply trim_hyphens_runes, collapse_runs_runes).
  destruct (40 <? length (trim_hyphens (collapse_runs (ToLower title))))%nat eqn:H.
  - reflexivity.
  - apply Nat.ltb_ge in H. symmetry. apply firstn_all2. exact H.
Qed.

(** C7. The branch name that [CreateBranch] computes for an item key and
    title is "feature/", the key, a hyphen and the slug: the title lower-cased,
    every run of non-alphanumeric characters collapsed to one hyphen, leading
    and trailing hyphens trimmed, cut to at most 40 characters. *)
Theorem branch_name_is_feature_key_slug (env : Env) (g : Git) (issueKey title : gostring)
    (w : World) (name : gostring) :
  result_of (Git_CreateBranch env g issueKey title) w = inl name ->
  name = lit "feature/" ++ issueKey ++ lit "-" ++ slug_spec title
  /\ (length (slug_spec title) <= 40)%nat.
Proof.
  intros Hres.
  pose proof (emits_run _ _ w (Git_CreateBranch_emits env g issueKey title)) as Hrun.
  rewrite Hres in Hrun.
  split.
  - inversion Hrun; subst. unfold branch_name. rewrite slug_of_spec. reflexivity.
  - unfold slug_spec. rewrite length_firstn. lia.
Qed.

Lemma branch_name_is_feature_key_slug_witness :
  lit "feature/K-1-fix-the-login-bug-v2"
  = lit "feature/" ++ lit "K-1" ++ lit "-" ++ slug_spec (lit "  Fix: the LOGIN bug!! (v2) ")
  /\ (length (slug_spec (lit "  Fix: the LOGIN bug!! (v2) ")) <= 40)%nat.
Proof.
  apply (branch_name_is_feature_key_slug (scenario_env sc_happy) (NewGit (scenario_env sc_happy) cfg0)
           (lit "K-1") (lit "  Fix: the LOGIN bug!! (v2) ") world0).
  vm_compute. reflexivity.
Defined.

(** ** The acceptance criteria *)

Lemma rune_match_nl (c : rune) : rune_match true 10 c = (c =? 10).
Proof.
  unfold rune_match, fold_eq.
  cbn [is_upper is_lower N.leb N.eqb N.compare andb Pos.compare Pos.compare_cont Pos.eqb].
  destruct (c =? 10); reflexivity.
Qed.

Lemma lit_match_blank (s : gostring) :
  lit_match true (nl ++ nl) s
  = if HasPrefix s (nl ++ nl) then Some (drop 2 s) else None.
Proof.
  destruct s as [|a [|b s]]; cbn [nl app lit_match HasPrefix drop];
    rewrite ?rune_match_nl; try reflexivity.
  - destruct (a =? 10); reflexivity.
  - destruct (a =? 10); [| reflexivity]. destruct (b =? 10); reflexivity.
Qed.

Lemma rmatch_Seq (r1 r2 : regex) (s : gostring) :
  rmatch (Seq r1 r2) s
  = flat_map (fun m1 => List.map (join_match m1) (rmatch r2 (fst m1))) (rmatch r1 s).
Proof. reflexivity. Qed.

Lemma consumed_app (pre s : gostring) : consumed (pre ++ s) s = pre.
Proof.
  unfold consumed. rewrite length_app.
  replace (length pre + length s - length s)%nat with (length pre) by lia.
  rewrite firstn_app, Nat.sub_diag, firstn_all. cbn. apply app_nil_r.
Qed.

(** The lazy group stops at the first blank line, or at the end. *)
Lemma capture_candidates (pre s : gostring) :
  exists rest l,
    flat_map (fun m1 => List.map (join_match m1)
                          (rmatch (Alt (Lit true (nl ++ nl)) EndText) (fst m1)))
             (List.map (fun t => (t, Some (consumed (pre ++ s) t))) (star_lazy any_rune s))
    = (rest, Some (pre ++ before_blank s)) :: l.
Proof.
  revert pre. induction s as [|c t IH]; intros pre.
  - exists [], []. cbn. rewrite app_nil_r.
    unfold consumed. cbn. rewrite Nat.sub_0_r, firstn_all. reflexivity.
  - cbn [star_lazy any_rune List.map flat_map fst].
    cbn [rmatch]. rewrite lit_match_blank. cbn [before_blank].
    destruct (HasPrefix (c :: t) (nl ++ nl)) eqn:Hp.
    + eexists _, _. cbn [List.map app join_match fst snd].
      rewrite consumed_app, app_nil_r. reflexivity.
    + cbn [List.map app].
      specialize (IH (pre ++ [c])). destruct IH as (rest & l & IH).
      exists rest, l.
      replace ((pre ++ [c]) ++ t) with (pre ++ c :: t) in IH
        by (rewrite <- app_assoc; reflexivity).
      replace (pre ++ c :: before_blank t) with ((pre ++ [c]) ++ before_blank t)
        by (rewrite <- app_assoc; reflexivity).
      exact IH.
Qed.

Lemma rmatch_capture (s : gostring) :
  exists rest l, rmatch re_capture s = (rest, Some (before_blank s)) :: l.
Proof.
  unfold re_capture. rewrite rmatch_Seq.
  cbn [rmatch]. unfold no_cap. rewrite map_map. cbn [fst].
  apply (capture_candidates [] s).
Qed.

Lemma rmatch_after_marker (s : gostring) :
  exists rest l,
    rmatch re_after_marker s
    = (rest, Some (before_blank (drop_while colon_or_space s))) :: l.
Proof.
  unfold re_after_marker. rewrite rmatch_Seq. cbn [rmatch].
  destruct (star_greedy_head colon_or_space s) as [l1 ->].
  cbn [no_cap List.map flat_map fst].
  destruct (rmatch_capture (drop_while colon_or_space s)) as (rest & l & ->).
  eexists _, _. cbn [List.map app join_match fst snd]. reflexivity.
Qed.

Lemma join_match_none (x : gostring) (m : gostring * option gostring) :
  join_match (x, None) m = m.
Proof. destruct m as [rest [c|]]; reflexivity. Qed.

Lemma map_join_none (x : gostring) (l : list (gostring * option gostring)) :
  List.map (join_match (x, None)) l = l.
Proof.
  induction l as [|m l IH]; cbn; [reflexivity |].
  rewrite join_match_none, IH. reflexivity.
Qed.

Lemma rmatch_Lit_Seq (pat : gostring) (r : regex) (s : gostring) :
  rmatch (Seq (Lit true pat) r) s
  = match lit_match true pat s with
    | Some s' => rmatch r s'
    | None => []
    end.
Proof.
  rewrite rmatch_Seq. cbn [rmatch].
  destruct (lit_match true pat s) as [s'|]; cbn [flat_map fst]; [| reflexivity].
  rewrite map_join_none. apply app_nil_r.
Qed.

Lemma star_greedy_rest (p : rune -> bool) (s : gostring) :
  exists l, star_greedy p s = drop_while p s :: l
            /\ Forall (fun t => exists c t', t = c :: t' /\ p c = true) l.
Proof.
  induction s as [|c t (l & IH & Hl)]; cbn.
  - exists []. split; [reflexivity | constructor].
  - destruct (p c) eqn:Hc.
    + rewrite IH. exists (l ++ [c :: t]). split; [reflexivity |].
      apply Forall_app. split; [exact Hl |].
      constructor; [| constructor]. exists c, t. auto.
    + exists []. split; [reflexivity | constructor].
Qed.

(** "criteria" cannot start at a white-space character, so the white space
    between the two words is always taken whole. *)
Lemma lit_criteria_space (c : rune) (t : gostring) :
  re_space c = true -> lit_match true (lit "criteria") (c :: t) = None.
Proof.
  unfold re_space. rewrite !orb_true_iff, !N.eqb_eq.
  intros [[[[-> | ->] | ->] | ->] | ->]; reflexivity.
Qed.

Lemma rmatch_gap (s : gostring) :
  rmatch re_gap s = rmatch re_criteria (drop_while re_space s).
Proof.
  unfold re_gap. rewrite rmatch_Seq. cbn [rmatch].
  destruct (star_greedy_rest re_space s) as (l & -> & Hl).
  cbn [no_cap List.map flat_map fst]. rewrite map_join_none.
  assert (Hnil : flat_map
                   (fun m1 => List.map (join_match m1) (rmatch re_criteria (fst m1)))
                   (List.map (fun s' => (s', None)) l) = []).
  { induction Hl as [|t l (c & t' & -> & Hc) Hl IH]; cbn [List.map flat_map fst];
      [reflexivity |].
    rewrite IH. unfold re_criteria at 1. rewrite rmatch_Lit_Seq.
    rewrite (lit_criteria_space c t' Hc). reflexivity. }
  rewrite Hnil. apply app_nil_r.
Qed.

Lemma acceptance_re_unfold :
  acceptance_re = Seq (Lit true (lit "acceptance")) re_gap.
Proof. reflexivity. Qed.

(** At one position the pattern matches exactly when the marker is there,
    and its preferred match captures the text up to the next blank line after
    the colons and white space that follow the marker. *)
Lemma rmatch_acceptance (s : gostring) :
  match marker_at s with
  | Some after =>
      exists rest l,
        rmatch acceptance_re s
        = (rest, Some (before_blank (drop_while colon_or_space after))) :: l
  | None => rmatch acceptance_re s = []
  end.
Proof.
  rewrite acceptance_re_unfold, rmatch_Lit_Seq. unfold marker_at.
  destruct (lit_match true (lit "acceptance") s) as [s1|]; [| reflexivity].
  rewrite rmatch_gap. unfold re_criteria. rewrite rmatch_Lit_Seq.
  destruct (lit_match true (lit "criteria") (drop_while re_space s1)) as [after|];
    [| reflexivity].
  apply rmatch_after_marker.
Qed.

Lemma FindStringSubmatch_acceptance (s : gostring) :
  match after_first_marker s with
  | Some after =>
      exists whole,
        FindStringSubmatch acceptance_re s
        = Some [whole; before_blank (drop_while colon_or_space after)]
  | None => FindStringSubmatch acceptance_re s = None
  end.
Proof.
  induction s as [|c t IH].
  - cbn [after_first_marker FindStringSubmatch].
    pose proof (rmatch_acceptance []) as H.
    destruct (marker_at []) as [after|].
    + destruct H as (rest & l & ->). eexists. reflexivity.
    + rewrite H. reflexivity.
  - cbn [after_first_marker FindStringSubmatch].
    pose proof (rmatch_acceptance (c :: t)) as H.
    destruct (marker_at (c :: t)) as [after|].
    + destruct H as (rest & l & ->). eexists. reflexivity.
    + rewrite H. exact IH.
Qed.

(** C9, as the code has it. [extractAC] looks for the first place where
    "acceptance", optional white space and "criteria" stand, in any case of
    the letters; it skips the colons and the white space that follow, blank
    lines included, takes the text up to the next blank line or the end, and
    trims it; without a marker it returns the empty string. *)
Theorem extractAC_first_marker (desc : gostring) :
  extractAC desc = criteria_after_marker desc.
Proof.
  unfold extractAC, criteria_after_marker.
  pose proof (FindStringSubmatch_acceptance desc) as H.
  destruct (after_first_marker desc) as [after|].
  - destruct H as (whole & ->). reflexivity.
  - rewrite H. reflexivity.
Qed.

(** C9 as the specification words it fails on this description, where its
    reading and the code part: the marker, a blank line, one paragraph, a
    blank line, the rest. *)
Lemma extractAC_skips_blank_line_after_marker :
  let desc := lit "Acceptance Criteria" ++ nl ++ nl ++ lit "foo" ++ nl ++ nl ++ lit "bar" in
  after_first_marker desc = Some (nl ++ nl ++ lit "foo" ++ nl ++ nl ++ lit "bar")
  /\ criteria_as_specified desc = []
  /\ extractAC desc = lit "foo"
  /\ extractAC desc <> criteria_as_specified desc.
Proof. vm_compute. repeat split; discriminate. Qed.

(** ** The poller *)

(** The events before the closing verdict of a right-nested trace. *)
Ltac strip_verdict L :=
  lazymatch L with
  | [Verdict _] => constr:(@nil Event)
  | ?a :: ?rest => let m := strip_verdict rest in constr:(a :: m)
  | ?a ++ ?rest => let m := strip_verdict rest in constr:(a ++ m)
  end.

(** The shape of every run of the pipeline: the banner, events that are
    neither output nor ledger writes, the verdict on the [Result] returned,
    for the key asked. *)
Lemma Process_run_shape (env : Env) (cfg : Config) (issueKey : gostring)
    (r : Result) (tr : list Event) :
  Process_run env cfg issueKey r tr ->
  exists mid,
    tr = Processing issueKey :: mid ++ [Verdict r]
    /\ Forall (fun e => kind_in [Output; Ledger] e = false) mid
    /\ Result.IssueKey r = issueKey.
Proof.
  intros Hrun. run_inversion Hrun;
    repeat match goal with
           | x := _ : Result |- _ => subst x
           end;
    rewrite <- ?app_assoc; cbn [app].
  all: match goal with
       | |- exists mid, Processing _ :: ?L = _ /\ _ =>
           let m := strip_verdict L in exists m
       end.
  all: split;
    [repeat first [rewrite <- app_assoc | rewrite app_nil_r | progress cbn [app]];
     reflexivity |].
  all: split; [| reflexivity].
  all: run_kinds.
Qed.

Lemma poll_item_run (env : Env) (cfg : Config) (issue : Issue) (u : World) :
  let u' := snd (poll_item env cfg issue u) in
  exists r now trP,
    Process_run env cfg (Issue.Key issue) r trP
    /\ processed u' = <[Issue.Key issue := record_of now r]> (processed u)
    /\ history u' = history u ++ trP ++ [WriteProcessed (processed u')]
    /\ processed_file u' = Some (processed u')
    /\ pid_file u' = pid_file u.
Proof.
  unfold poll_item, mbind, M_bind.
  destruct (ProcessIssue_emits env cfg (Issue.Key issue) u)
    as (Hp & Hf & Hd & trP & Hh & Hrun).
  destruct (ProcessIssue env cfg (Issue.Key issue) u) as [r u1]. cbn in *.
  exists r, (Now_ env (history u1)), trP.
  rewrite Hp, Hh, Hd, <- app_assoc. auto.
Qed.

Lemma for_each_items (env : Env) (cfg : Config) (l : list Issue) (u : World) :
  let u' := snd (for_each l (poll_item env cfg) u) in
  exists tr,
    history u' = history u ++ tr
    /\ Items_run env cfg l (processed u) tr (processed u')
    /\ pid_file u' = pid_file u
    /\ match l with
       | [] => u' = u
       | _ :: _ => processed_file u' = Some (processed u')
       end.
Proof.
  revert u. induction l as [|issue rest IH]; intros u.
  - exists []. cbn. rewrite app_nil_r. repeat split. constructor.
  - cbv zeta. cbn [for_each].
    assert (E : (poll_item env cfg issue ≫= fun _ => for_each rest (poll_item env cfg)) u
                = for_each rest (poll_item env cfg) (snd (poll_item env cfg issue u))).
    { unfold mbind, M_bind. destruct (poll_item env cfg issue u). reflexivity. }
    rewrite E. clear E.
    destruct (poll_item_run env cfg issue u) as (r & now & trP & Hrun & Hp & Hh & Hf & Hd).
    set (u1 := snd (poll_item env cfg issue u)) in *. clearbody u1.
    destruct (IH u1) as (tr & Hh' & Hitems & Hd' & Hrest).
    exists (trP ++ WriteProcessed (<[Issue.Key issue := record_of now r]> (processed u)) :: tr).
    repeat split.
    + rewrite Hh', Hh, Hp, <- !app_assoc. reflexivity.
    + apply Items_next; [exact Hrun |]. rewrite <- Hp. exact Hitems.
    + congruence.
    + destruct rest; [rewrite Hrest; exact Hf | exact Hrest].
Qed.

(** The body of the loop of [poll] is [poll_item]. *)
Lemma poll_unfold (env : Env) (cfg : Config) (w : World) :
  poll env cfg w
  = let (fetched, w1) := GetAssignedIssues env cfg w in
    match fetched with
    | inr _ => (tt, w1)
    | inl issues =>
        match new_issues (processed w1) issues with
        | [] => (tt, w1)
        | l => for_each l (poll_item env cfg) w1
        end
    end.
Proof.
  unfold poll, mbind, M_bind. destruct (GetAssignedIssues env cfg w) as [[issues|err] w1];
    [| reflexivity].
  cbn. fold (new_issues (processed w1) issues).
  destruct (new_issues (processed w1) issues); reflexivity.
Qed.

Lemma new_issues_absent (m : gmap (list N) ProcessedIssue) (issues : list Issue) :
  Forall (fun issue => m !! Issue.Key issue = None) (new_issues m issues).
Proof.
  unfold new_issues. apply Forall_forall. intros issue Hin.
  apply list_elem_of_In, filter_In in Hin as [_ H].
  destruct (m !! Issue.Key issue); [discriminate | reflexivity].
Qed.

(** A tick: the fetch, then the loop over the new items. *)
Lemma poll_run (env : Env) (cfg : Config) (w : World) :
  let w' := world_after (poll env cfg) w in
  exists answer l tr,
    events_of (poll env cfg) w = CallGetAssignedIssues answer :: tr
    /\ Items_run env cfg l (processed w) tr (processed w')
    /\ Forall (fun issue => processed w !! Issue.Key issue = None) l
    /\ pid_file w' = pid_file w
    /\ match l with
       | [] => processed_file w' = processed_file w
       | _ :: _ => processed_file w' = Some (processed w')
       end.
Proof.
  unfold world_after, events_of. rewrite poll_unfold.
  unfold GetAssignedIssues, ask. cbn [emit snd].
  set (answer := GetAssignedIssues_ env (history w) cfg).
  set (w1 := {| history := history w ++ [CallGetAssignedIssues answer];
                processed := processed w;
                processed_file := processed_file w;
                pid_file := pid_file w |}).
  assert (Hw1 : drop (length (history w)) (history w1) = [CallGetAssignedIssues answer])
    by (cbn; apply drop_app_length).
  exists answer.
  destruct answer as [issues|err].
  - change (processed w1) with (processed w).
    pose proof (new_issues_absent (processed w) issues) as Hnew.
    destruct (new_issues (processed w) issues) as [|issue rest].
    + exists [], []. cbn [snd]. rewrite Hw1. repeat split; constructor.
    + destruct (for_each_items env cfg (issue :: rest) w1) as (tr & Hh & Hitems & Hd & Hf).
      exists (issue :: rest), tr.
      rewrite Hh. cbn [history w1]. rewrite <- app_assoc, drop_app_length.
      repeat split; assumption.
  - exists [], []. cbn [snd]. rewrite Hw1. repeat split; constructor.
Qed.

Lemma quiet_event (e : Event) :
  kind_in [Output; Ledger] e = false ->
  (forall k, e <> Processing k) /\ is_verdict e = false
  /\ (forall m, e <> WriteProcessed m).
Proof.
  destruct e; intros H; vm_compute in H; try discriminate H;
    repeat split; intros; discriminate.
Qed.

Lemma Process_run_banner (env : Env) (cfg : Config) (issueKey : gostring)
    (r : Result) (tr : list Event) (k : gostring) :
  Process_run env cfg issueKey r tr -> In (Processing k) tr -> k = issueKey.
Proof.
  intros Hrun Hin.
  destruct (Process_run_shape env cfg issueKey r tr Hrun) as (mid & -> & Hmid & _).
  cbn in Hin. destruct Hin as [Heq | Hin]; [congruence |].
  apply in_app_or in Hin as [Hin | [Hin | []]]; [| discriminate].
  rewrite Forall_forall in Hmid.
  destruct (quiet_event _ (Hmid _ (proj2 (list_elem_of_In _ _) Hin))) as (Hno & _).
  destruct (Hno k eq_refl).
Qed.

Lemma Items_run_banners (env : Env) (cfg : Config) (l : list Issue)
    (m m' : gmap (list N) ProcessedIssue) (tr : list Event) (k : gostring) :
  Items_run env cfg l m tr m' ->
  In (Processing k) tr -> exists issue, In issue l /\ Issue.Key issue = k.
Proof.
  induction 1 as [|issue rest m m' r now trP tr Hrun Hrest IH]; intros Hin.
  - destruct Hin.
  - apply in_app_or in Hin as [Hin | [Hin | Hin]].
    + exists issue. split; [left; reflexivity |].
      symmetry. eapply Process_run_banner; eauto.
    + discriminate.
    + destruct (IH Hin) as (i & Hi & Hk). exists i. split; [right; exact Hi | exact Hk].
Qed.

Lemma Items_run_frame (env : Env) (cfg : Config) (l : list Issue)
    (m m' : gmap (list N) ProcessedIssue) (tr : list Event) (k : gostring) :
  Items_run env cfg l m tr m' ->
  Forall (fun issue => Issue.Key issue <> k) l -> m' !! k = m !! k.
Proof.
  induction 1 as [|issue rest m m' r now trP tr Hrun Hrest IH]; intros Hl.
  - reflexivity.
  - inversion Hl as [|? ? Hne Hl']; subst.
    rewrite (IH Hl'). apply lookup_insert_ne. exact Hne.
Qed.

(** C1. A key that is in the ledger when a tick starts is not handed to
    [ProcessIssue] during that tick: the banner of [ProcessIssue] for that key
    does not occur among the events of [poll], and the record of the key is
    left as it was. *)
Theorem poll_skips_ledger_keys (env : Env) (cfg : Config) (w : World)
    (k : gostring) (rec : ProcessedIssue) :
  processed w !! k = Some rec ->
  ~ In (Processing k) (events_of (poll env cfg) w)
  /\ processed (world_after (poll env cfg) w) !! k = Some rec.
Proof.
  intros Hk.
  destruct (poll_run env cfg w) as (answer & l & tr & Hev & Hitems & Hnew & _).
  assert (Hne : Forall (fun issue => Issue.Key issue <> k) l).
  { eapply Forall_impl; [exact Hnew |]. cbv beta. intros issue Hnone Heq.
    rewrite Heq in Hnone. congruence. }
  split.
  - rewrite Hev. intros [Heq | Hin]; [discriminate |].
    destruct (Items_run_banners env cfg l _ _ tr k Hitems Hin) as (issue & Hi & Hkey).
    rewrite Forall_forall in Hne.
    apply (Hne issue); [apply list_elem_of_In; exact Hi | exact Hkey].
  - rewrite (Items_run_frame env cfg l _ _ tr k Hitems Hne). exact Hk.
Qed.

Lemma poll_skips_ledger_keys_witness :
  ~ In (Processing (lit "K-1")) (events_of (poll (scenario_env sc_happy) cfg0) world1)
  /\ processed (world_after (poll (scenario_env sc_happy) cfg0) world1) !! lit "K-1"
     = Some rec_failed.
Proof.
  apply (poll_skips_ledger_keys (scenario_env sc_happy) cfg0 world1 (lit "K-1") rec_failed).
  vm_compute. reflexivity.
Defined.

(** In the same scenario the other assigned item is processed. *)
Example poll_processes_new_key :
  In (Processing (lit "K-2")) (events_of (poll (scenario_env sc_happy) cfg0) world1).
Proof. vm_compute. auto 10. Qed.

(** ** The ledger is written after each item of a tick, and only there *)

Lemma saved_after_each_skip (mid tr : list Event) :
  Forall (fun e => kind_in [Output; Ledger] e = false) mid ->
  saved_after_each (mid ++ tr) = saved_after_each tr.
Proof.
  induction 1 as [|e mid He Hmid IH]; [reflexivity |].
  cbn [app]. destruct (quiet_event e He) as (_ & Hv & _).
  destruct e; try discriminate Hv; exact IH.
Qed.

Lemma recorded_insert (m : gmap (list N) ProcessedIssue) (now : gostring) (r : Result) :
  recorded (<[Result.IssueKey r := record_of now r]> m) r = true.
Proof.
  unfold recorded. rewrite lookup_insert_eq. cbn.
  rewrite !gostring_eqb_refl. reflexivity.
Qed.

Lemma Items_run_saved (env : Env) (cfg : Config) (l : list Issue)
    (m m' : gmap (list N) ProcessedIssue) (tr : list Event) :
  Items_run env cfg l m tr m' -> saved_after_each tr = true.
Proof.
  induction 1 as [|issue rest m m' r now trP tr Hrun Hrest IH]; [reflexivity |].
  destruct (Process_run_shape env cfg _ r trP Hrun) as (mid & -> & Hmid & Hkey).
  cbn [app saved_after_each]. rewrite <- app_assoc.
  rewrite saved_after_each_skip by exact Hmid.
  cbn [app saved_after_each]. rewrite IH, andb_true_r.
  rewrite <- Hkey. apply recorded_insert.
Qed.

Lemma Items_run_mono (env : Env) (cfg : Config) (l : list Issue)
    (m m' : gmap (list N) ProcessedIssue) (tr : list Event) (k : gostring) :
  Items_run env cfg l m tr m' -> is_Some (m !! k) -> is_Some (m' !! k).
Proof.
  induction 1 as [|issue rest m m' r now trP tr Hrun Hrest IH]; intros Hk; [exact Hk |].
  apply IH. rewrite lookup_insert_is_Some. destruct (decide (Issue.Key issue = k)); auto.
Qed.

Lemma Items_run_verdict_key (env : Env) (cfg : Config) (l : list Issue)
    (m m' : gmap (list N) ProcessedIssue) (tr : list Event) (r : Result) :
  Items_run env cfg l m tr m' ->
  In (Verdict r) tr -> l <> [] /\ is_Some (m' !! Result.IssueKey r).
Proof.
  induction 1 as [|issue rest m m' r0 now trP tr Hrun Hrest IH]; intros Hin;
    [destruct Hin |].
  split; [discriminate |].
  apply in_app_or in Hin as [Hin | [Hin | Hin]].
  - destruct (Process_run_shape env cfg _ r0 trP Hrun) as (mid & -> & Hmid & Hkey).
    assert (r = r0) as ->.
    { destruct Hin as [Hin | Hin]; [discriminate |].
      apply in_app_or in Hin as [Hin | [Hin | []]]; [| congruence].
      rewrite Forall_forall in Hmid.
      destruct (quiet_event _ (Hmid _ (proj2 (list_elem_of_In _ _) Hin))) as (_ & Hv & _).
      discriminate Hv. }
    eapply Items_run_mono; [exact Hrest |].
    rewrite Hkey, lookup_insert_eq. eauto.
  - discriminate.
  - apply IH. exact Hin.
Qed.

Lemma quiet_not_ledger (e : Event) :
  kind_in [Output; Ledger] e = false -> kind_in [Ledger] e = false.
Proof.
  unfold kind_in. rewrite !bool_decide_eq_false. intros H Hin. apply H.
  apply elem_of_cons. right. exact Hin.
Qed.

Lemma emits_read {A : Type} (f : list Event -> A) :
  emits (fun w => (f (history w), w)) (fun _ tr => tr = []).
Proof. intros w. cbn. repeat split. exists []. rewrite app_nil_r. auto. Qed.

(** The manual trigger runs the pipeline, or nothing at all. *)
Lemma main_trigger_emits (env : Env) (args : list gostring) :
  emits (main_trigger env args)
    (fun code tr =>
       tr = [] \/ exists cfg r, Process_run env cfg (nth 2 args []) r tr).
Proof.
  unfold main_trigger.
  destruct (length args <? 3)%nat; [apply emits_ret; auto |].
  apply emits_bind. eapply emits_conseq; [apply (emits_read (ConfigExists_ env)) |].
  intros [|] ? ->; cbn [negb]; [| apply emits_ret; auto].
  apply emits_bind. eapply emits_conseq; [apply (emits_read (LoadConfig_ env)) |].
  intros [cfg|err] ? ->; [| apply emits_ret; auto].
  apply emits_bind. eapply emits_conseq; [apply ProcessIssue_emits |].
  intros r tr Hrun.
  destruct (negb _); apply emits_ret; right; exists cfg, r;
    rewrite app_nil_r; exact Hrun.
Qed.

(** X30. The path that records. In a tick every verdict of the pipeline is
    followed at once by a write of the ledger file that holds it, and at the
    end of the tick the file has an entry for the key of every verdict of the
    tick.  No run of the manual trigger reads or writes the ledger. *)
Theorem ledger_saved_after_each_item_of_a_tick (env : Env) (cfg : Config) (w : World) :
  let tr := events_of (poll env cfg) w in
  let w' := world_after (poll env cfg) w in
  saved_after_each tr = true
  /\ (forall r, In (Verdict r) tr ->
        exists m rec, processed_file w' = Some m /\ m !! Result.IssueKey r = Some rec)
  /\ (forall args,
        let v := world_after (main_trigger env args) w in
        processed v = processed w
        /\ processed_file v = processed_file w
        /\ Forall (fun e => kind_in [Ledger] e = false)
                  (events_of (main_trigger env args) w)).
Proof.
  intros tr w'. subst tr w'.
  destruct (poll_run env cfg w) as (answer & l & tr & Hev & Hitems & Hnew & _ & Hfile).
  rewrite Hev. split; [| split].
  - cbn [saved_after_each]. eapply Items_run_saved; eauto.
  - intros r [Hin | Hin]; [discriminate |].
    destruct (Items_run_verdict_key env cfg l _ _ tr r Hitems Hin) as (Hl & rec & Hrec).
    destruct l; [congruence |].
    exists (processed (world_after (poll env cfg) w)), rec. auto.
  - intros args v. subst v.
    destruct (emits_frame _ _ w (main_trigger_emits env args)) as (Hp & Hf & _ & _).
    split; [exact Hp | split; [exact Hf |]].
    destruct (emits_run _ _ w (main_trigger_emits env args)) as [-> | (c & r & Hrun)];
      [constructor |].
    destruct (Process_run_shape env c _ r _ Hrun) as (mid & -> & Hmid & _).
    constructor; [reflexivity |].
    apply Forall_app. split; [| repeat constructor].
    eapply Forall_impl; [exact Hmid |]. cbv beta. apply quiet_not_ledger.
Qed.

(** C2. The code at the failing input: [factory trigger K-1] where every
    stage succeeds, with no ledger file yet.  The run ends with the verdict
    "completed" and exit status 0, but no write of the ledger follows the
    verdict, and neither the ledger in memory nor the file has the key
    afterwards; so the daemon started next lists K-1 as new and hands it to
    [ProcessIssue] again.  On the sibling path, [poll], the same Result is
    recorded and saved, and the next tick processes nothing. *)
Lemma trigger_result_is_not_recorded :
  let env := scenario_env sc_happy in
  let args := [lit "factory"; lit "trigger"; lit "K-1"] in
  let done := completed_result (lit "K-1") (lit "https://github.com/org/repo/pull/7") in
  let tr := events_of (main_trigger env args) world0 in
  let v := world_after (main_trigger env args) world0 in
  let u := world_after (poll env cfg0) world0 in
  (* the trigger *)
  result_of (main_trigger env args) world0 = 0%Z
  /\ last tr = Some (Verdict done)
  /\ saved_after_each tr = false
  /\ existsb (kind_in [Ledger]) tr = false
  /\ processed v !! lit "K-1" = None
  /\ processed_file v = None
  (* the daemon started after it *)
  /\ banner_keys (events_of (runDaemon env 0) (new_process v)) = [lit "K-1"; lit "K-2"]
  (* the tick, on the same item *)
  /\ In (Verdict done) (events_of (poll env cfg0) world0)
  /\ option_map (fun m => recorded m done) (processed_file u) = Some true
  /\ banner_keys (events_of (poll env cfg0) u) = [].
Proof.
  vm_compute. repeat split.
  repeat (first [left; reflexivity | right]).
Qed.

(** ** Clearing the ledger *)

Lemma ClearProcessed_world (issueKey : gostring) (w : World) :
  let m := if gostring_eqb issueKey [] then ∅ else delete issueKey (loaded w) in
  snd (ClearProcessed issueKey w)
  = {| history := history w ++ [WriteProcessed m];
       processed := m;
       processed_file := Some m;
       pid_file := pid_file w |}.
Proof.
  unfold ClearProcessed, loadProcessed, loaded, mbind, M_bind.
  destruct (processed_file w) as [data|]; cbn;
    destruct (gostring_eqb issueKey []); reflexivity.
Qed.

Lemma main_clear_key (args : list gostring) (w : World) :
  snd (main_clear args w)
  = snd (ClearProcessed (if (3 <=? length args)%nat then nth 2 args [] else []) w).
Proof.
  unfold main_clear, mbind, M_bind.
  destruct (ClearProcessed _ w). reflexivity.
Qed.

Lemma main_trigger_runs_pipeline (env : Env) (cfg : Config) (prog key : gostring)
    (w : World) :
  ConfigExists_ env (history w) = true ->
  LoadConfig_ env (history w) = inl cfg ->
  events_of (main_trigger env [prog; lit "trigger"; key]) w
  = events_of (ProcessIssue env cfg key) w.
Proof.
  intros Hex Hcfg. unfold events_of, main_trigger, mbind, M_bind, ConfigExists, LoadConfig.
  cbn [length Nat.ltb Nat.leb nth]. rewrite Hex. cbn [negb]. rewrite Hcfg.
  destruct (ProcessIssue env cfg key w) as [r w']. cbn [snd].
  destruct (negb _); reflexivity.
Qed.

(** C6. With the ledger file holding [m], clearing with the empty key leaves
    the ledger empty in memory and in the file; clearing with a key removes
    that key's entry from the file and leaves every other entry as it was;
    and a trigger of the cleared key runs [ProcessIssue] on it from its first
    event, the banner, whatever the ledger holds. *)
Theorem clear_then_trigger (env : Env) (w : World) (m : gmap (list N) ProcessedIssue)
    (key : gostring) :
  processed w = ∅ ->
  processed_file w = Some m ->
  key <> [] ->
  let w0 := world_after (ClearProcessed []) w in
  let w1 := world_after (ClearProcessed key) w in
  (processed w0 = ∅ /\ processed_file w0 = Some ∅)
  /\ (processed_file w1 = Some (delete key m)
      /\ processed w1 = delete key m
      /\ delete key m !! key = None
      /\ forall k, k <> key -> delete key m !! k = m !! k)
  /\ (forall cfg prog,
        ConfigExists_ env (history w1) = true ->
        LoadConfig_ env (history w1) = inl cfg ->
        let tr := events_of (main_trigger env [prog; lit "trigger"; key]) w1 in
        tr = events_of (ProcessIssue env cfg key) w1
        /\ Process_run env cfg key (result_of (ProcessIssue env cfg key) w1) tr
        /\ tr !! 0%nat = Some (Processing key)).
Proof.
  intros Hmem Hfile Hkey w0 w1. subst w0 w1. unfold world_after.
  rewrite !ClearProcessed_world. cbn zeta.
  assert (Hl : loaded w = m).
  { unfold loaded. rewrite Hfile, Hmem. apply map_union_empty. }
  rewrite Hl. cbn [gostring_eqb].
  apply gostring_eqb_neq in Hkey. rewrite Hkey.
  split; [split; reflexivity |]. split.
  - cbn. repeat split.
    + apply lookup_delete_eq.
    + intros k Hne. apply lookup_delete_ne. congruence.
  - intros cfg prog.
    set (w1 := {| history := history w ++ [WriteProcessed (delete key m)];
                  processed := delete key m;
                  processed_file := Some (delete key m);
                  pid_file := pid_file w |}).
    intros Hex Hcfg.
    rewrite (main_trigger_runs_pipeline env cfg prog key w1 Hex Hcfg).
    split; [reflexivity |]. split; [apply ProcessIssue_run |].
    destruct (Process_run_shape env cfg key _ _ (ProcessIssue_run env cfg key w1))
      as (mid & -> & _).
    reflexivity.
Qed.

Lemma clear_then_trigger_witness :
  let env := scenario_env sc_happy in
  let w := {| history := []; processed := ∅;
              processed_file := Some {[ lit "K-1" := rec_failed ]};
              pid_file := None |} in
  let m : gmap (list N) ProcessedIssue := {[ lit "K-1" := rec_failed ]} in
  let key := lit "K-1" in
  let w0 := world_after (ClearProcessed []) w in
  let w1 := world_after (ClearProcessed key) w in
  (processed w0 = ∅ /\ processed_file w0 = Some ∅)
  /\ (processed_file w1 = Some (delete key m)
      /\ processed w1 = delete key m
      /\ delete key m !! key = None
      /\ forall k, k <> key -> delete key m !! k = m !! k)
  /\ (forall cfg prog,
        ConfigExists_ env (history w1) = true ->
        LoadConfig_ env (history w1) = inl cfg ->
        let tr := events_of (main_trigger env [prog; lit "trigger"; key]) w1 in
        tr = events_of (ProcessIssue env cfg key) w1
        /\ Process_run env cfg key (result_of (ProcessIssue env cfg key) w1) tr
        /\ tr !! 0%nat = Some (Processing key)).
Proof.
  apply (clear_then_trigger (scenario_env sc_happy)
           {| history := []; processed := ∅;
              processed_file := Some {[ lit "K-1" := rec_failed ]};
              pid_file := None |}
           {[ lit "K-1" := rec_failed ]} (lit "K-1")).
  - reflexivity.
  - reflexivity.
  - vm_compute. discriminate.
Defined.

(** ** Starting the daemon *)

(** C5. With a pid file that names a process: if the probe with signal 0
    succeeds, [StartDaemon] returns the "already running" error, spawns
    nothing and leaves the pid file; if the probe fails (a stale pid file),
    the launcher opens the log, spawns the detached child and writes the
    child's pid over the pid file, returning no error. *)
Theorem start_refuses_live_replaces_stale (env : Env) (ticks : nat) (w : World)
    (data : gostring) :
  pid_file w = Some data ->
  (0 < Atoi (TrimSpace data))%Z ->
  let pid := Atoi (TrimSpace data) in
  let w' := world_after (StartDaemon env ticks) w in
  (Signal_ env (history w) pid 0%Z = true ->
   result_of (StartDaemon env ticks) w
   = Some (lit "daemon already running (PID " ++ Itoa pid ++ lit ")")
   /\ events_of (StartDaemon env ticks) w = [Signal pid 0%Z true]
   /\ pid_file w' = Some data)
  /\ (Signal_ env (history w) pid 0%Z = false ->
      Getenv_ env (lit "FACTORY_DAEMON") <> lit "1" ->
      OpenLog_ env (history w ++ [Signal pid 0%Z false]) = None ->
      forall child,
        Spawn_ env (history w ++ [Signal pid 0%Z false] ++ [OpenLog None]) = inl child ->
        result_of (StartDaemon env ticks) w = None
        /\ events_of (StartDaemon env ticks) w
           = [Signal pid 0%Z false; OpenLog None; Spawn (inl child); WritePid (Itoa child)]
        /\ pid_file w' = Some (Itoa child)).
Proof.
  intros Hfile Hpos pid w'. subst pid w'.
  unfold result_of, events_of, world_after, StartDaemon, mbind, M_bind,
    GetDaemonPid, isRunning, ask.
  rewrite Hfile. apply Z.ltb_lt in Hpos. rewrite Hpos. cbn [emit snd fst].
  split.
  - intros ->. cbn. rewrite drop_app_length. auto.
  - intros -> Hmark Hlog child Hchild.
    apply gostring_eqb_neq in Hmark. rewrite Hmark. cbn [negb history].
    rewrite Hlog. cbn [history snd fst].
    rewrite <- app_assoc, Hchild. cbn.
    rewrite <- !app_assoc, drop_app_length. auto.
Qed.

Lemma start_refuses_live_replaces_stale_witness :
  let env := scenario_env sc_live in
  let pid := 321%Z in
  let w' := world_after (StartDaemon env 0) world_pid in
  (Signal_ env (history world_pid) pid 0%Z = true ->
   result_of (StartDaemon env 0) world_pid
   = Some (lit "daemon already running (PID " ++ Itoa pid ++ lit ")")
   /\ events_of (StartDaemon env 0) world_pid = [Signal pid 0%Z true]
   /\ pid_file w' = Some (lit "321" ++ nl))
  /\ (Signal_ env (history world_pid) pid 0%Z = false ->
      Getenv_ env (lit "FACTORY_DAEMON") <> lit "1" ->
      OpenLog_ env (history world_pid ++ [Signal pid 0%Z false]) = None ->
      forall child,
        Spawn_ env (history world_pid ++ [Signal pid 0%Z false] ++ [OpenLog None])
        = inl child ->
        result_of (StartDaemon env 0) world_pid = None
        /\ events_of (StartDaemon env 0) world_pid
           = [Signal pid 0%Z false; OpenLog None; Spawn (inl child); WritePid (Itoa child)]
        /\ pid_file w' = Some (Itoa child)).
Proof.
  apply (start_refuses_live_replaces_stale (scenario_env sc_live) 0 world_pid
           (lit "321" ++ nl)).
  - reflexivity.
  - vm_compute. reflexivity.
Defined.

(** The two cases, run: a live pid refuses the start; a stale one is replaced
    by the pid of the new child. *)
Example start_with_live_pid :
  result_of (StartDaemon (scenario_env sc_live) 0) world_pid
  = Some (lit "daemon already running (PID 321)")
  /\ pid_file (world_after (StartDaemon (scenario_env sc_live) 0) world_pid)
     = Some (lit "321" ++ nl).
Proof. vm_compute. auto. Qed.

Example start_with_stale_pid :
  result_of (StartDaemon (scenario_env sc_happy) 0) world_pid = None
  /\ pid_file (world_after (StartDaemon (scenario_env sc_happy) 0) world_pid)
     = Some (lit "4711")
  /\ events_of (StartDaemon (scenario_env sc_happy) 0) world_pid
     = [Signal 321 0 false; OpenLog None; Spawn (inl 4711%Z); WritePid (lit "4711")].
Proof. vm_compute. auto. Qed.

(* ================================================================== *)
(** * More properties of the pipeline *)
(* ================================================================== *)

(** X1. [ProcessIssue] always returns a terminal [Result] for the key it was
    given: status "completed" with no error text, or status "failed" with no
    change-request URL and an error text that opens with one of the seven
    stage names; the status "started" is never returned. *)
Theorem process_result_is_terminal (env : Env) (cfg : Config) (issueKey : gostring)
    (w : World) :
  let r := result_of (ProcessIssue env cfg issueKey) w in
  Result.IssueKey r = issueKey
  /\ ((Result.Status r = lit "completed" /\ Result.Error r = [])
      \/ (Result.Status r = lit "failed" /\ Result.PRUrl r = []
          /\ exists stage err,
               In stage stage_names /\ Result.Error r = stage ++ lit ": " ++ err)).
Proof.
  intros r. subst r.
  pose proof (ProcessIssue_run env cfg issueKey w) as Hrun.
  set (r := result_of (ProcessIssue env cfg issueKey) w) in *. clearbody r.
  inversion Hrun; subst;
    repeat match goal with
           | x := _ : Result |- _ => subst x
           end;
    (split; [reflexivity |]).
  all: try (left; split; reflexivity).
  all: right; split; [reflexivity | split; [reflexivity |]].
  all: eexists _, _; split; [| reflexivity]; unfold stage_names; cbn [In]; auto 10.
Qed.

(** X2. When the tracker cannot give the item, [ProcessIssue] fails at stage
    "fetch" with the tracker's error, and the run is the banner, the fetch and
    the verdict: nothing is done to the workspace. *)
Theorem fetch_failure_stops_the_run (env : Env) (cfg : Config) (issueKey : gostring)
    (w : World) (err : gostring) :
  events_of (ProcessIssue env cfg issueKey) w !! 1%nat
  = Some (CallGetIssue issueKey (inr err)) ->
  let r := result_of (ProcessIssue env cfg issueKey) w in
  r = failed_result issueKey (lit "fetch") err
  /\ events_of (ProcessIssue env cfg issueKey) w
     = [Processing issueKey; CallGetIssue issueKey (inr err); Verdict r].
Proof.
  intros Hf r. subst r.
  pose proof (ProcessIssue_run env cfg issueKey w) as Hrun.
  set (r := result_of (ProcessIssue env cfg issueKey) w) in *.
  set (tr := events_of (ProcessIssue env cfg issueKey) w) in *.
  clearbody r tr.
  run_inversion Hrun;
    repeat match goal with
           | x := _ : Result |- _ => subst x
           end;
    rewrite <- ?app_assoc in Hf; cbn in Hf; try discriminate Hf.
  injection Hf as <-. split; reflexivity.
Qed.

Lemma fetch_failure_stops_the_run_witness :
  let env := scenario_env sc_unreachable in
  let err := lit "jira API error 503: unavailable" in
  let r := result_of (ProcessIssue env cfg0 (lit "K-1")) world0 in
  r = failed_result (lit "K-1") (lit "fetch") err
  /\ events_of (ProcessIssue env cfg0 (lit "K-1")) world0
     = [Processing (lit "K-1"); CallGetIssue (lit "K-1") (inr err); Verdict r].
Proof.
  apply (fetch_failure_stops_the_run (scenario_env sc_unreachable) cfg0 (lit "K-1")
           world0 (lit "jira API error 503: unavailable")).
  vm_compute. reflexivity.
Defined.

(** An event of a stage has the kind of the stage. *)
Lemma kind_of_stage (k : Kind) (tr : list Event) (e : Event) :
  Forall (fun e => kind_of e = k) tr -> In e tr -> kind_of e = k.
Proof. intros H Hin. exact (proj1 (List.Forall_forall _ _) H e Hin). Qed.

(** Looks for the event of [Hin] in the events of a run, stage by stage; a
    stage all of whose events are of another kind is passed over. *)
Ltac stage_kind Hin :=
  match goal with
  | H : Init_run _ _ _ ?tr |- _ =>
      match type of Hin with In _ tr => idtac end;
      apply (kind_of_stage _ _ _ (Init_run_kinds _ _ _ _ H)) in Hin
  | H : CreateBranch_run _ _ _ _ ?tr |- _ =>
      match type of Hin with In _ tr => idtac end;
      apply (kind_of_stage _ _ _ (CreateBranch_run_kinds _ _ _ _ _ H)) in Hin
  | H : Claude_run _ _ _ ?tr |- _ =>
      match type of Hin with In _ tr => idtac end;
      apply (kind_of_stage _ _ _ (Claude_run_kinds _ _ _ _ H)) in Hin
  | H : CommitAndPush_run _ _ _ _ ?tr |- _ =>
      match type of Hin with In _ tr => idtac end;
      apply (kind_of_stage _ _ _ (CommitAndPush_run_kinds _ _ _ _ _ H)) in Hin
  end.

Ltac find_event Hin :=
  repeat match type of Hin with
         | In _ [] => contradiction
         | In _ (_ ++ _) => apply in_app_or in Hin; destruct Hin as [Hin | Hin]
         | In _ (if ?b then _ else _) => destruct b
         | In _ (_ :: _) => destruct Hin as [Hin | Hin]; [try discriminate Hin |]
         | In _ _ => solve [stage_kind Hin; discriminate Hin]
         end.

Ltac unfold_result :=
  repeat match goal with
         | x := _ : Result |- _ => subst x
         end.

(** X3. When the code generator does not end well (it exits with an error, or
    is killed after ten minutes), [ProcessIssue] fails at stage "claude" with
    the generator's error (for a timeout: "timeout after 10 minutes", after
    the kill), and the run inspects nothing, publishes nothing, opens no
    change request and writes nothing to the tracker. *)
Theorem generator_failure_stops_the_run (env : Env) (cfg : Config)
    (issueKey : gostring) (w : World) (dir prompt : gostring) (outcome : ClaudeOutcome) :
  In (CallClaude dir prompt outcome) (events_of (ProcessIssue env cfg issueKey) w) ->
  outcome <> Exited None ->
  let r := result_of (ProcessIssue env cfg issueKey) w in
  let tr := events_of (ProcessIssue env cfg issueKey) w in
  failed_at r (lit "claude") = true
  /\ match outcome with
     | Exited None => False
     | Exited (Some err) => r = failed_result issueKey (lit "claude") err
     | TimedOut =>
         r = failed_result issueKey (lit "claude") (lit "timeout after 10 minutes")
         /\ In KillClaude tr
     end
  /\ Forall (fun e => kind_in [Inspect; Publish; ChangeRequest; TrackerWrite] e = false) tr.
Proof.
  intros Hin Hbad r tr. subst r tr.
  pose proof (ProcessIssue_run env cfg issueKey w) as Hrun.
  set (r := result_of (ProcessIssue env cfg issueKey) w) in *.
  set (tr := events_of (ProcessIssue env cfg issueKey) w) in *.
  clearbody r tr.
  run_inversion Hrun; unfold_result; find_event Hin.
  all: match goal with
       | H : Claude_run _ _ _ _ |- _ => inversion H; subst; clear H
       end.
  all: find_event Hin; injection Hin as <- <- <-.
  all: try (exfalso; apply Hbad; reflexivity).
  all: split; [vm_compute; reflexivity |].
  all: split; [| run_kinds].
  all: try reflexivity.
  split; [reflexivity |]. rewrite !in_app_iff. cbn [In]. auto 10.
Qed.

Lemma generator_failure_stops_the_run_witness :
  let env := scenario_env sc_timeout in
  let r := result_of (ProcessIssue env cfg0 (lit "K-1")) world0 in
  let tr := events_of (ProcessIssue env cfg0 (lit "K-1")) world0 in
  failed_at r (lit "claude") = true
  /\ (r = failed_result (lit "K-1") (lit "claude") (lit "timeout after 10 minutes")
      /\ In KillClaude tr)
  /\ Forall (fun e => kind_in [Inspect; Publish; ChangeRequest; TrackerWrite] e = false) tr.
Proof.
  apply (generator_failure_stops_the_run (scenario_env sc_timeout) cfg0 (lit "K-1")
           world0 (lit "/home/dev/.factory/workspace")
           (claude_prompt (issue_of (lit "K-1") (lit "Fix login") (lit "Bug") (lit "Open"))) TimedOut).
  - vm_compute. auto 20.
  - discriminate.
Defined.

(** X4. A change request is opened only at the end of a full run: for the
    item fetched, after the generator exited without error, [git status]
    showed changes and the push of the feature branch succeeded; it asks to
    merge the feature branch into the default branch of the configuration,
    under the title "[key] title". *)
Theorem change_request_follows_push (env : Env) (cfg : Config) (issueKey : gostring)
    (w : World) (title body head base : gostring) (answer : gostring + gostring) :
  let tr := events_of (ProcessIssue env cfg issueKey) w in
  In (CallCreatePR title body head base answer) tr ->
  exists issue,
    In (CallGetIssue issueKey (inl issue)) tr
    /\ title = pr_title issueKey (Issue.Title issue)
    /\ body = FormatPRBody_ env issue (BaseURL (Jira cfg))
    /\ head = branch_name issueKey (Issue.Title issue)
    /\ base = DefaultBranch (Repo cfg)
    /\ In (CallClaude (repoPath (NewGit env cfg)) (claude_prompt issue) (Exited None)) tr
    /\ (exists out failed,
          In (CallGit (repoPath (NewGit env cfg)) status_args out failed) tr
          /\ no_changes out failed = false)
    /\ (exists out,
          In (CallGit (repoPath (NewGit env cfg))
                [lit "push"; lit "-u"; lit "origin"; head] out false) tr).
Proof.
  intros tr Hin. subst tr.
  pose proof (ProcessIssue_run env cfg issueKey w) as Hrun.
  set (r := result_of (ProcessIssue env cfg issueKey) w) in *.
  set (tr := events_of (ProcessIssue env cfg issueKey) w) in *.
  clearbody r tr.
  run_inversion Hrun; unfold_result; find_event Hin.
  all: injection Hin as <- <- <- <- <-.
  all: repeat match goal with
              | H : Claude_run _ _ _ _ |- _ => inversion H; subst; clear H
              | H : CommitAndPush_run _ _ _ _ _ |- _ => inversion H; subst; clear H
              end.
  all: exists issue; rewrite <- ?app_assoc; cbn [app].
  all: repeat split; try reflexivity.
  all: try (eexists _, _; split; [| eassumption]).
  all: try eexists.
  all: rewrite ?in_app_iff; cbn [In]; rewrite ?in_app_iff; cbn [In]; auto 20.
Qed.

Lemma change_request_follows_push_witness :
  let env := scenario_env sc_happy in
  let tr := events_of (ProcessIssue env cfg0 (lit "K-1")) world0 in
  exists issue,
    In (CallGetIssue (lit "K-1") (inl issue)) tr
    /\ lit "[K-1] Fix login" = pr_title (lit "K-1") (Issue.Title issue)
    /\ FormatPRBody_ env (issue_of (lit "K-1") (lit "Fix login") (lit "Bug") (lit "Open")) (BaseURL (Jira cfg0))
       = FormatPRBody_ env issue (BaseURL (Jira cfg0))
    /\ branch_name (lit "K-1") (lit "Fix login")
       = branch_name (lit "K-1") (Issue.Title issue)
    /\ DefaultBranch (Repo cfg0) = DefaultBranch (Repo cfg0)
    /\ In (CallClaude (repoPath (NewGit env cfg0)) (claude_prompt issue) (Exited None)) tr
    /\ (exists out failed,
          In (CallGit (repoPath (NewGit env cfg0)) status_args out failed) tr
          /\ no_changes out failed = false)
    /\ (exists out,
          In (CallGit (repoPath (NewGit env cfg0))
                [lit "push"; lit "-u"; lit "origin";
                 branch_name (lit "K-1") (lit "Fix login")] out false) tr).
Proof.
  apply (change_request_follows_push (scenario_env sc_happy) cfg0 (lit "K-1") world0
           (lit "[K-1] Fix login")
           (FormatPRBody_ (scenario_env sc_happy) (issue_of (lit "K-1") (lit "Fix login") (lit "Bug") (lit "Open")) (BaseURL (Jira cfg0)))
           (branch_name (lit "K-1") (lit "Fix login"))
           (DefaultBranch (Repo cfg0))
           (inl (lit "https://github.com/org/repo/pull/7"))).
  vm_compute. auto 30.
Defined.

(** X5. What follows the change request: when the code host gives its URL,
    [ProcessIssue] returns "completed" with that URL, comments "PR raised:
    URL" on the item, and moves the item to "In Progress" exactly when the
    configuration asks for it; when the code host refuses, it fails at stage
    "pr" with the host's error and writes nothing to the tracker, the branch
    staying pushed. *)
Theorem change_request_outcome (env : Env) (cfg : Config) (issueKey : gostring)
    (w : World) (title body head base : gostring) (answer : gostring + gostring) :
  let r := result_of (ProcessIssue env cfg issueKey) w in
  let tr := events_of (ProcessIssue env cfg issueKey) w in
  In (CallCreatePR title body head base answer) tr ->
  match answer with
  | inl url =>
      r = completed_result issueKey url
      /\ In (CallAddComment issueKey (lit "PR raised: " ++ url)) tr
      /\ (In (CallTransition issueKey (lit "In Progress")) tr
          <-> AutoTransition (Poll cfg) = true)
  | inr err =>
      r = failed_result issueKey (lit "pr") err
      /\ Forall (fun e => kind_in [TrackerWrite] e = false) tr
  end.
Proof.
  intros r tr Hin. subst r tr.
  pose proof (ProcessIssue_run env cfg issueKey w) as Hrun.
  set (r := result_of (ProcessIssue env cfg issueKey) w) in *.
  set (tr := events_of (ProcessIssue env cfg issueKey) w) in *.
  clearbody r tr.
  run_inversion Hrun; unfold_result; find_event Hin.
  all: injection Hin as <- <- <- <- <-.
  - split; [reflexivity | run_kinds].
  - split; [reflexivity |].
    split; [rewrite !in_app_iff; cbn [In]; auto 10 |].
    destruct (AutoTransition (Poll cfg)); split.
    + reflexivity.
    + intros _. rewrite !in_app_iff. cbn [In]. auto 10.
    + intros Hin. find_event Hin.
    + intros E. discriminate E.
Qed.

Lemma change_request_outcome_witness :
  let env := scenario_env sc_happy in
  let url := lit "https://github.com/org/repo/pull/7" in
  let r := result_of (ProcessIssue env cfg0 (lit "K-1")) world0 in
  let tr := events_of (ProcessIssue env cfg0 (lit "K-1")) world0 in
  r = completed_result (lit "K-1") url
  /\ In (CallAddComment (lit "K-1") (lit "PR raised: " ++ url)) tr
  /\ (In (CallTransition (lit "K-1") (lit "In Progress")) tr
      <-> AutoTransition (Poll cfg0) = true).
Proof.
  apply (change_request_outcome (scenario_env sc_happy) cfg0 (lit "K-1") world0
           (lit "[K-1] Fix login")
           (FormatPRBody_ (scenario_env sc_happy)
              (issue_of (lit "K-1") (lit "Fix login") (lit "Bug") (lit "Open"))
              (BaseURL (Jira cfg0)))
           (branch_name (lit "K-1") (lit "Fix login"))
           (DefaultBranch (Repo cfg0))
           (inl (lit "https://github.com/org/repo/pull/7"))).
  vm_compute. auto 30.
Defined.

(** X6. [ProcessIssue] writes to the tracker only for the item it was given
    and only after the code host gave the URL of a change request: every
    tracker write of a run is the comment "PR raised: URL" or, when the
    configuration asks for it, the transition to "In Progress", and the run
    is completed with that URL. *)
Theorem tracker_written_only_after_change_request (env : Env) (cfg : Config)
    (issueKey : gostring) (w : World) (e : Event) :
  let r := result_of (ProcessIssue env cfg issueKey) w in
  let tr := events_of (ProcessIssue env cfg issueKey) w in
  In e tr ->
  kind_of e = TrackerWrite ->
  exists title body head base url,
    In (CallCreatePR title body head base (inl url)) tr
    /\ r = completed_result issueKey url
    /\ (e = CallAddComment issueKey (lit "PR raised: " ++ url)
        \/ (e = CallTransition issueKey (lit "In Progress")
            /\ AutoTransition (Poll cfg) = true)).
Proof.
  intros r tr Hin Hk. subst r tr.
  pose proof (ProcessIssue_run env cfg issueKey w) as Hrun.
  set (r := result_of (ProcessIssue env cfg issueKey) w) in *.
  set (tr := events_of (ProcessIssue env cfg issueKey) w) in *.
  clearbody r tr.
  assert (Hstage : forall k l, Forall (fun x => kind_of x = k) l -> In e l ->
                               k <> TrackerWrite -> False).
  { intros k l Hl Hi Hne. apply Hne. rewrite <- Hk. symmetry.
    eapply kind_of_stage; eassumption. }
  run_inversion Hrun; unfold_result.
  all: repeat match type of Hin with
              | In _ [] => contradiction
              | In _ (_ ++ _) => apply in_app_or in Hin; destruct Hin as [Hin | Hin]
              | In _ (if ?b then _ else _) => destruct b eqn:?
              | In _ (_ :: _) =>
                  destruct Hin as [Hin | Hin];
                  [try (rewrite <- Hin in Hk; vm_compute in Hk; discriminate Hk) |]
              end.
  all: try (exfalso;
            match goal with
            | H : Init_run _ _ _ ?l |- _ =>
                match type of Hin with In _ l => idtac end;
                exact (Hstage _ _ (Init_run_kinds _ _ _ _ H) Hin ltac:(discriminate))
            | H : CreateBranch_run _ _ _ _ ?l |- _ =>
                match type of Hin with In _ l => idtac end;
                exact (Hstage _ _ (CreateBranch_run_kinds _ _ _ _ _ H) Hin ltac:(discriminate))
            | H : Claude_run _ _ _ ?l |- _ =>
                match type of Hin with In _ l => idtac end;
                exact (Hstage _ _ (Claude_run_kinds _ _ _ _ H) Hin ltac:(discriminate))
            | H : CommitAndPush_run _ _ _ _ ?l |- _ =>
                match type of Hin with In _ l => idtac end;
                exact (Hstage _ _ (CommitAndPush_run_kinds _ _ _ _ _ H) Hin ltac:(discriminate))
            end).
  all: try (exfalso; clear - Hk; destruct (git_kind status_args) eqn:E;
            vm_compute in E; cbn in Hk; congruence).
  all: exists (pr_title issueKey (Issue.Title issue)),
         (FormatPRBody_ env issue (BaseURL (Jira cfg))),
         (branch_name issueKey (Issue.Title issue)),
         (DefaultBranch (Repo cfg)), url.
  all: split;
    [do 3 (apply in_or_app; right); apply in_or_app; left; left; reflexivity
    | split; [reflexivity |]].
  all: subst e; first [left; reflexivity | right; split; reflexivity].
Qed.

Lemma tracker_written_only_after_change_request_witness :
  let env := scenario_env sc_happy in
  let e := CallTransition (lit "K-1") (lit "In Progress") in
  let r := result_of (ProcessIssue env cfg0 (lit "K-1")) world0 in
  let tr := events_of (ProcessIssue env cfg0 (lit "K-1")) world0 in
  exists title body head base url,
    In (CallCreatePR title body head base (inl url)) tr
    /\ r = completed_result (lit "K-1") url
    /\ (e = CallAddComment (lit "K-1") (lit "PR raised: " ++ url)
        \/ (e = CallTransition (lit "K-1") (lit "In Progress")
            /\ AutoTransition (Poll cfg0) = true)).
Proof.
  apply (tracker_written_only_after_change_request (scenario_env sc_happy) cfg0
           (lit "K-1") world0 (CallTransition (lit "K-1") (lit "In Progress"))).
  - vm_compute. auto 30.
  - reflexivity.
Defined.

(* ================================================================== *)
(** * More properties of the poller *)
(* ================================================================== *)

(** A tick, by the answer of the tracker: the fetch, then the loop over the
    fetched items whose key is not in the ledger. *)
Lemma poll_tick (env : Env) (cfg : Config) (w : World) :
  let w' := world_after (poll env cfg) w in
  let answer := GetAssignedIssues_ env (history w) cfg in
  let l := match answer with
           | inl issues => new_issues (processed w) issues
           | inr _ => []
           end in
  exists tr,
    history w' = history w ++ CallGetAssignedIssues answer :: tr
    /\ events_of (poll env cfg) w = CallGetAssignedIssues answer :: tr
    /\ Items_run env cfg l (processed w) tr (processed w')
    /\ pid_file w' = pid_file w
    /\ match l with
       | [] => processed_file w' = processed_file w
       | _ :: _ => processed_file w' = Some (processed w')
       end.
Proof.
  unfold world_after, events_of. rewrite poll_unfold.
  unfold GetAssignedIssues, ask. cbn [emit snd].
  set (answer := GetAssignedIssues_ env (history w) cfg).
  set (w1 := {| history := history w ++ [CallGetAssignedIssues answer];
                processed := processed w;
                processed_file := processed_file w;
                pid_file := pid_file w |}).
  assert (Hw1 : drop (length (history w)) (history w1) = [CallGetAssignedIssues answer])
    by (cbn; apply drop_app_length).
  destruct answer as [issues|err].
  - change (processed w1) with (processed w).
    destruct (new_issues (processed w) issues) as [|issue rest].
    + exists []. cbn [snd]. rewrite Hw1. repeat split; constructor.
    + destruct (for_each_items env cfg (issue :: rest) w1) as (tr & Hh & Hitems & Hd & Hf).
      exists tr.
      rewrite Hh. cbn [history w1]. rewrite <- app_assoc, drop_app_length.
      repeat split; assumption.
  - exists []. cbn [snd]. rewrite Hw1. repeat split; constructor.
Qed.

(** The banners of a run of the pipeline, and of the loop over the items. *)
Lemma banner_keys_quiet (mid : list Event) :
  Forall (fun e => kind_in [Output; Ledger] e = false) mid -> banner_keys mid = [].
Proof.
  induction 1 as [|e mid He _ IH]; [reflexivity |].
  unfold banner_keys in *. cbn [omap list_omap]. rewrite IH.
  destruct e; try reflexivity. vm_compute in He. discriminate He.
Qed.

Lemma Process_run_banner_keys (env : Env) (cfg : Config) (issueKey : gostring)
    (r : Result) (tr : list Event) :
  Process_run env cfg issueKey r tr -> banner_keys tr = [issueKey].
Proof.
  intros Hrun.
  destruct (Process_run_shape env cfg issueKey r tr Hrun) as (mid & -> & Hmid & _).
  unfold banner_keys. cbn [omap list_omap]. rewrite omap_app.
  fold (banner_keys mid). rewrite (banner_keys_quiet mid Hmid). reflexivity.
Qed.

Lemma Items_run_banner_keys (env : Env) (cfg : Config) (l : list Issue)
    (m m' : gmap (list N) ProcessedIssue) (tr : list Event) :
  Items_run env cfg l m tr m' -> banner_keys tr = map Issue.Key l.
Proof.
  induction 1 as [|issue rest m m' r now trP tr Hrun Hrest IH]; [reflexivity |].
  unfold banner_keys in *. rewrite omap_app. cbn [omap list_omap map].
  fold (banner_keys trP). rewrite (Process_run_banner_keys _ _ _ _ _ Hrun), IH.
  reflexivity.
Qed.

(** The keys of the ledger after the loop: those it had, and those of the
    items. *)
Lemma Items_run_keys (env : Env) (cfg : Config) (l : list Issue)
    (m m' : gmap (list N) ProcessedIssue) (tr : list Event) (k : gostring) :
  Items_run env cfg l m tr m' ->
  is_Some (m' !! k) <-> is_Some (m !! k) \/ In k (map Issue.Key l).
Proof.
  induction 1 as [|issue rest m m' r now trP tr Hrun Hrest IH].
  - cbn. tauto.
  - rewrite IH, lookup_insert_is_Some. cbn [map In].
    destruct (decide (Issue.Key issue = k)); tauto.
Qed.

(** The loop writes no ledger that lacks or alters a record of a key that is
    not among its items. *)
Lemma Items_run_writes (env : Env) (cfg : Config) (l : list Issue)
    (m m' : gmap (list N) ProcessedIssue) (tr : list Event)
    (k : gostring) (rec : ProcessedIssue) (written : gmap (list N) ProcessedIssue) :
  Items_run env cfg l m tr m' ->
  Forall (fun issue => Issue.Key issue <> k) l ->
  m !! k = Some rec ->
  In (WriteProcessed written) tr -> written !! k = Some rec.
Proof.
  induction 1 as [|issue rest m m' r now trP tr Hrun Hrest IH]; intros Hl Hk Hin;
    [destruct Hin |].
  inversion Hl as [|? ? Hne Hl']; subst.
  assert (Hk' : <[Issue.Key issue := record_of now r]> m !! k = Some rec)
    by (rewrite lookup_insert_ne; assumption).
  apply in_app_or in Hin as [Hin | [Hin | Hin]].
  - destruct (Process_run_shape env cfg _ r trP Hrun) as (mid & -> & Hmid & _).
    destruct Hin as [Hin | Hin]; [discriminate |].
    apply in_app_or in Hin as [Hin | [Hin | []]]; [| discriminate].
    rewrite Forall_forall in Hmid.
    destruct (quiet_event _ (Hmid _ (proj2 (list_elem_of_In _ _) Hin))) as (_ & _ & Hno).
    destruct (Hno written eq_refl).
  - injection Hin as <-. exact Hk'.
  - apply IH; assumption.
Qed.

Lemma new_issues_not (m : gmap (list N) ProcessedIssue) (issues : list Issue)
    (k : gostring) :
  is_Some (m !! k) -> Forall (fun issue => Issue.Key issue <> k) (new_issues m issues).
Proof.
  intros [rec Hk]. eapply Forall_impl; [apply new_issues_absent |].
  cbv beta. intros issue Hnone Heq. rewrite Heq in Hnone. congruence.
Qed.

Lemma new_issues_none (m : gmap (list N) ProcessedIssue) (issues : list Issue) :
  (forall issue, In issue issues -> is_Some (m !! Issue.Key issue)) ->
  new_issues m issues = [].
Proof.
  unfold new_issues. induction issues as [|issue rest IH]; intros H; [reflexivity |].
  cbn [List.filter]. destruct (H issue (or_introl eq_refl)) as [rec ->].
  apply IH. intros i Hi. apply H. right. exact Hi.
Qed.

(** X7. When the tracker cannot list the assigned items, the tick is the
    failed fetch and nothing else: no item is processed, and the ledger, its
    file and the pid file stay as they were. *)
Theorem failed_listing_tick_is_idle (env : Env) (cfg : Config) (w : World)
    (err : gostring) :
  GetAssignedIssues_ env (history w) cfg = inr err ->
  let w' := world_after (poll env cfg) w in
  events_of (poll env cfg) w = [CallGetAssignedIssues (inr err)]
  /\ processed w' = processed w
  /\ processed_file w' = processed_file w
  /\ pid_file w' = pid_file w.
Proof.
  intros Herr w'. subst w'.
  destruct (poll_tick env cfg w) as (tr & _ & Hev & Hitems & Hpid & Hfile).
  rewrite Herr in *. inversion Hitems; subst. auto.
Qed.

Lemma failed_listing_tick_is_idle_witness :
  let env := scenario_env sc_no_listing in
  let w' := world_after (poll env cfg0) world1 in
  events_of (poll env cfg0) world1 = [CallGetAssignedIssues (inr (lit "exit status 1"))]
  /\ processed w' = processed world1
  /\ processed_file w' = processed_file world1
  /\ pid_file w' = pid_file world1.
Proof.
  apply (failed_listing_tick_is_idle (scenario_env sc_no_listing) cfg0 world1
           (lit "exit status 1")).
  reflexivity.
Defined.

(** X8. A tick hands to [ProcessIssue], in the order of the listing, the
    listed items whose key was not in the ledger when the listing came back,
    each once per occurrence in the listing; after the tick the ledger holds
    the keys it had and the keys of these items. *)
Theorem tick_processes_new_items_in_order (env : Env) (cfg : Config) (w : World)
    (issues : list Issue) :
  GetAssignedIssues_ env (history w) cfg = inl issues ->
  let w' := world_after (poll env cfg) w in
  let new := map Issue.Key (new_issues (processed w) issues) in
  banner_keys (events_of (poll env cfg) w) = new
  /\ forall k, is_Some (processed w' !! k) <-> is_Some (processed w !! k) \/ In k new.
Proof.
  intros Hans w' new. subst w' new.
  destruct (poll_tick env cfg w) as (tr & _ & Hev & Hitems & _).
  rewrite Hans in *. rewrite Hev. split.
  - change (banner_keys (CallGetAssignedIssues (inl issues) :: tr)) with (banner_keys tr).
    eapply Items_run_banner_keys; exact Hitems.
  - intros k. eapply Items_run_keys; exact Hitems.
Qed.

Lemma tick_processes_new_items_in_order_witness :
  let env := scenario_env sc_happy in
  let w' := world_after (poll env cfg0) world1 in
  let new := map Issue.Key
               (new_issues (processed world1)
                  [issue_of (lit "K-1") (lit "Fix login") (lit "Bug") (lit "Open");
                   issue_of (lit "K-2") (lit "Add logout") (lit "Task") (lit "Open")]) in
  banner_keys (events_of (poll env cfg0) world1) = new
  /\ forall k, is_Some (processed w' !! k) <-> is_Some (processed world1 !! k) \/ In k new.
Proof.
  apply (tick_processes_new_items_in_order (scenario_env sc_happy) cfg0 world1).
  reflexivity.
Defined.

(** X9. A tick that follows a tick processes nothing when the tracker lists
    no key beyond those of the first listing and of the ledger: it is the
    fetch alone, and the ledger and the files stay as the first tick left
    them. *)
Theorem second_tick_is_idle (env : Env) (cfg : Config) (w : World)
    (issues again : list Issue) :
  let w1 := world_after (poll env cfg) w in
  GetAssignedIssues_ env (history w) cfg = inl issues ->
  GetAssignedIssues_ env (history w1) cfg = inl again ->
  (forall k, In k (map Issue.Key again) ->
             In k (map Issue.Key issues) \/ is_Some (processed w !! k)) ->
  let w2 := world_after (poll env cfg) w1 in
  events_of (poll env cfg) w1 = [CallGetAssignedIssues (inl again)]
  /\ processed w2 = processed w1
  /\ processed_file w2 = processed_file w1
  /\ pid_file w2 = pid_file w1.
Proof.
  intros w1 Hans Hagain Hkeys w2. subst w2.
  destruct (poll_tick env cfg w) as (tr & _ & _ & Hitems & _).
  rewrite Hans in Hitems. fold w1 in Hitems.
  assert (Hnone : new_issues (processed w1) again = []).
  { apply new_issues_none. intros issue Hin.
    assert (Hsome : is_Some (processed w1 !! Issue.Key issue)).
    { apply (proj2 (Items_run_keys _ _ _ _ _ _ (Issue.Key issue) Hitems)).
      destruct (Hkeys (Issue.Key issue) (in_map _ _ _ Hin)) as [Hold | Hold];
        [| left; exact Hold].
      destruct (processed w !! Issue.Key issue) eqn:E; [left; eauto |].
      right. apply in_map_iff in Hold as (i & Hi & Hini).
      apply in_map_iff. exists i. split; [exact Hi |].
      unfold new_issues. apply filter_In. split; [exact Hini |].
      rewrite Hi, E. reflexivity. }
    exact Hsome. }
  destruct (poll_tick env cfg w1) as (tr2 & _ & Hev & Hitems2 & Hpid & Hfile).
  rewrite Hagain, Hnone in *. inversion Hitems2; subst. auto.
Qed.

Lemma second_tick_is_idle_witness :
  let env := scenario_env sc_happy in
  let again := [issue_of (lit "K-1") (lit "Fix login") (lit "Bug") (lit "Open");
                issue_of (lit "K-2") (lit "Add logout") (lit "Task") (lit "Open")] in
  let w1 := world_after (poll env cfg0) world0 in
  let w2 := world_after (poll env cfg0) w1 in
  events_of (poll env cfg0) w1 = [CallGetAssignedIssues (inl again)]
  /\ processed w2 = processed w1
  /\ processed_file w2 = processed_file w1
  /\ pid_file w2 = pid_file w1.
Proof.
  apply (second_tick_is_idle (scenario_env sc_happy) cfg0 world0
           [issue_of (lit "K-1") (lit "Fix login") (lit "Bug") (lit "Open");
            issue_of (lit "K-2") (lit "Add logout") (lit "Task") (lit "Open")]
           [issue_of (lit "K-1") (lit "Fix login") (lit "Bug") (lit "Open");
            issue_of (lit "K-2") (lit "Add logout") (lit "Task") (lit "Open")]).
  - reflexivity.
  - reflexivity.
  - intros k Hin. left. exact Hin.
Defined.

(** X10. A tick only adds to the ledger: every ledger it writes to the file,
    and the ledger it leaves in memory, hold each record that was there when
    the tick began, unchanged. *)
Theorem tick_keeps_old_records (env : Env) (cfg : Config) (w : World)
    (k : gostring) (rec : ProcessedIssue) :
  processed w !! k = Some rec ->
  processed (world_after (poll env cfg) w) !! k = Some rec
  /\ forall written,
       In (WriteProcessed written) (events_of (poll env cfg) w) ->
       written !! k = Some rec.
Proof.
  intros Hk.
  destruct (poll_tick env cfg w) as (tr & _ & Hev & Hitems & _).
  set (l := match GetAssignedIssues_ env (history w) cfg with
            | inl issues => new_issues (processed w) issues
            | inr _ => []
            end) in *.
  assert (Hl : Forall (fun issue => Issue.Key issue <> k) l).
  { subst l. destruct (GetAssignedIssues_ env (history w) cfg); [| constructor].
    apply new_issues_not. eauto. }
  split.
  - rewrite (Items_run_frame _ _ _ _ _ _ k Hitems Hl). exact Hk.
  - intros written Hin. rewrite Hev in Hin. destruct Hin as [Hin | Hin]; [discriminate |].
    eapply Items_run_writes; eassumption.
Qed.

Lemma tick_keeps_old_records_witness :
  let env := scenario_env sc_happy in
  processed (world_after (poll env cfg0) world1) !! lit "K-1" = Some rec_failed
  /\ forall written,
       In (WriteProcessed written) (events_of (poll env cfg0) world1) ->
       written !! lit "K-1" = Some rec_failed.
Proof.
  apply (tick_keeps_old_records (scenario_env sc_happy) cfg0 world1 (lit "K-1") rec_failed).
  reflexivity.
Defined.

(** A tick, and any number of ticks, from a ledger that holds [k]: the
    history grows by events without a banner for [k] and without a ledger
    that lacks the record of [k]. *)
Lemma poll_keeps (env : Env) (cfg : Config) (w : World)
    (k : gostring) (rec : ProcessedIssue) :
  processed w !! k = Some rec ->
  let w' := snd (poll env cfg w) in
  exists tr,
    history w' = history w ++ tr
    /\ ~ In (Processing k) tr
    /\ (forall written, In (WriteProcessed written) tr -> written !! k = Some rec)
    /\ processed w' !! k = Some rec.
Proof.
  intros Hk w'. subst w'.
  destruct (poll_tick env cfg w) as (tr & Hh & _ & Hitems & _).
  unfold world_after in *.
  set (l := match GetAssignedIssues_ env (history w) cfg with
            | inl issues => new_issues (processed w) issues
            | inr _ => []
            end) in *.
  assert (Hl : Forall (fun issue => Issue.Key issue <> k) l).
  { subst l. destruct (GetAssignedIssues_ env (history w) cfg); [| constructor].
    apply new_issues_not. eauto. }
  exists (CallGetAssignedIssues (GetAssignedIssues_ env (history w) cfg) :: tr).
  split; [exact Hh |]. split; [| split].
  - intros [Hin | Hin]; [discriminate |].
    destruct (Items_run_banners _ _ _ _ _ _ k Hitems Hin) as (issue & Hi & Hkey).
    rewrite List.Forall_forall in Hl. exact (Hl issue Hi Hkey).
  - intros written [Hin | Hin]; [discriminate |].
    eapply Items_run_writes; eassumption.
  - rewrite (Items_run_frame _ _ _ _ _ _ k Hitems Hl). exact Hk.
Qed.

Lemma polls_keep (env : Env) (cfg : Config) (k : gostring) (rec : ProcessedIssue)
    (ticks : nat) (w : World) :
  processed w !! k = Some rec ->
  let w' := snd (for_each (repeat tt ticks) (fun _ => poll env cfg) w) in
  exists tr,
    history w' = history w ++ tr
    /\ ~ In (Processing k) tr
    /\ (forall written, In (WriteProcessed written) tr -> written !! k = Some rec)
    /\ processed w' !! k = Some rec.
Proof.
  revert w. induction ticks as [|n IH]; intros w Hk.
  - exists []. cbn. rewrite app_nil_r. repeat split; auto; intros ? [].
  - cbv zeta. cbn [repeat for_each].
    assert (E : (poll env cfg ≫= fun _ => for_each (repeat tt n) (fun _ => poll env cfg)) w
                = for_each (repeat tt n) (fun _ => poll env cfg) (snd (poll env cfg w))).
    { unfold mbind, M_bind. destruct (poll env cfg w). reflexivity. }
    rewrite E. clear E.
    destruct (poll_keeps env cfg w k rec Hk) as (tr1 & Hh1 & Hb1 & Hw1 & Hk1).
    set (w1 := snd (poll env cfg w)) in *. clearbody w1.
    destruct (IH w1 Hk1) as (tr2 & Hh2 & Hb2 & Hw2 & Hk2).
    exists (tr1 ++ tr2). rewrite Hh2, Hh1, <- app_assoc.
    split; [reflexivity |]. split; [| split; [| exact Hk2]].
    + intros Hin. apply in_app_or in Hin as [Hin | Hin]; auto.
    + intros written Hin. apply in_app_or in Hin as [Hin | Hin]; auto.
Qed.

(** X11. A daemon started over a ledger file never hands a key recorded in
    that file to [ProcessIssue], however many ticks it runs, and every ledger
    it writes to the file keeps the record of that key as the file had it. *)
Theorem restart_skips_recorded_keys (env : Env) (ticks : nat) (w : World)
    (m : gmap (list N) ProcessedIssue) (k : gostring) (rec : ProcessedIssue) :
  processed_file w = Some m ->
  m !! k = Some rec ->
  let tr := events_of (runDaemon env ticks) w in
  ~ In (Processing k) tr
  /\ forall written, In (WriteProcessed written) tr -> written !! k = Some rec.
Proof.
  intros Hfile Hk tr. subst tr.
  unfold events_of, runDaemon, mbind, M_bind, LoadConfig.
  destruct (LoadConfig_ env (history w)) as [cfg|err].
  2:{ cbn. rewrite drop_all. split; [intros [] | intros ? []]. }
  unfold loadProcessed. rewrite Hfile. cbn [set_processed].
  set (w0 := {| history := history w; processed := m ∪ processed w;
                processed_file := processed_file w; pid_file := pid_file w |}).
  assert (Hk0 : processed w0 !! k = Some rec)
    by (cbn; apply lookup_union_Some_l; exact Hk).
  destruct (poll_keeps env cfg w0 k rec Hk0) as (tr1 & Hh1 & Hb1 & Hw1 & Hk1).
  destruct (poll env cfg w0) as [[] w1]. cbn [snd] in *.
  destruct (polls_keep env cfg k rec ticks w1 Hk1) as (tr2 & Hh2 & Hb2 & Hw2 & _).
  destruct (for_each (repeat tt ticks) (fun _ => poll env cfg) w1) as [[] w2].
  cbn [snd ret mret M_ret] in *.
  rewrite Hh2, Hh1. change (history w0) with (history w).
  rewrite <- app_assoc, drop_app_length.
  split.
  - intros Hin. apply in_app_or in Hin as [Hin | Hin]; auto.
  - intros written Hin. apply in_app_or in Hin as [Hin | Hin]; auto.
Qed.

Lemma restart_skips_recorded_keys_witness :
  let tr := events_of (runDaemon (scenario_env sc_happy) 2) (new_process world1) in
  ~ In (Processing (lit "K-1")) tr
  /\ forall written, In (WriteProcessed written) tr -> written !! lit "K-1" = Some rec_failed.
Proof.
  apply (restart_skips_recorded_keys (scenario_env sc_happy) 2 (new_process world1)
           {[ lit "K-1" := rec_failed ]} (lit "K-1") rec_failed).
  - reflexivity.
  - reflexivity.
Defined.

(** X12. [clear] does not reach a daemon that is running.  While the daemon
    holds a record of [k] in memory, another process clears [k] (or the whole
    ledger): the file no longer has [k], yet the next tick of the daemon
    still skips [k], and every ledger it writes puts the record of [k] back
    into the file. *)
Theorem clear_does_not_reach_running_daemon (env : Env) (cfg : Config) (w : World)
    (k issueKey : gostring) (rec : ProcessedIssue) :
  processed w !! k = Some rec ->
  issueKey = k \/ issueKey = [] ->
  let cleared := world_after (ClearProcessed issueKey) (new_process w) in
  let w' := sees_files w cleared in
  (exists m, processed_file w' = Some m /\ m !! k = None)
  /\ ~ In (Processing k) (events_of (poll env cfg) w')
  /\ (forall written,
        In (WriteProcessed written) (events_of (poll env cfg) w') ->
        written !! k = Some rec
        /\ exists m, processed_file (world_after (poll env cfg) w') = Some m
                     /\ m !! k = Some rec).
Proof.
  intros Hk Hkey cleared w'.
  set (m0 := if gostring_eqb issueKey [] then ∅ else delete issueKey (loaded (new_process w))).
  assert (Hw : w' = {| history := history w; processed := processed w;
                       processed_file := Some m0; pid_file := pid_file w |}).
  { subst w' cleared. unfold sees_files, world_after.
    rewrite ClearProcessed_world. reflexivity. }
  clearbody w'. clear cleared. subst w'.
  set (w' := {| history := history w; processed := processed w;
                processed_file := Some m0; pid_file := pid_file w |}).
  split.
  { exists m0. split; [reflexivity |]. subst m0.
    destruct (gostring_eqb issueKey []) eqn:E; [apply lookup_empty |].
    destruct Hkey as [-> | ->]; [apply lookup_delete_eq |].
    rewrite gostring_eqb_refl in E. discriminate E. }
  assert (Hk' : processed w' !! k = Some rec) by exact Hk.
  destruct (poll_tick env cfg w') as (tr & _ & Hev & Hitems & _ & Hfile).
  set (l := match GetAssignedIssues_ env (history w') cfg with
            | inl issues => new_issues (processed w') issues
            | inr _ => []
            end) in *.
  assert (Hl : Forall (fun issue => Issue.Key issue <> k) l).
  { subst l. destruct (GetAssignedIssues_ env (history w') cfg); [| constructor].
    apply new_issues_not. eauto. }
  rewrite Hev. split.
  - intros [Hin | Hin]; [discriminate |].
    destruct (Items_run_banners _ _ _ _ _ _ k Hitems Hin) as (issue & Hi & Hkey').
    rewrite List.Forall_forall in Hl. exact (Hl issue Hi Hkey').
  - intros written [Hin | Hin]; [discriminate |].
    split; [eapply Items_run_writes; eassumption |].
    destruct l as [|issue rest].
    + inversion Hitems; subst. destruct Hin.
    + eexists. split; [exact Hfile |].
      rewrite (Items_run_frame _ _ _ _ _ _ k Hitems Hl). exact Hk'.
Qed.

Lemma clear_does_not_reach_running_daemon_witness :
  let env := scenario_env sc_happy in
  let cleared := world_after (ClearProcessed (lit "K-1")) (new_process world1) in
  let w' := sees_files world1 cleared in
  (exists m, processed_file w' = Some m /\ m !! lit "K-1" = None)
  /\ ~ In (Processing (lit "K-1")) (events_of (poll env cfg0) w')
  /\ (forall written,
        In (WriteProcessed written) (events_of (poll env cfg0) w') ->
        written !! lit "K-1" = Some rec_failed
        /\ exists m, processed_file (world_after (poll env cfg0) w') = Some m
                     /\ m !! lit "K-1" = Some rec_failed).
Proof.
  apply (clear_does_not_reach_running_daemon (scenario_env sc_happy) cfg0 world1
           (lit "K-1") (lit "K-1") rec_failed).
  - reflexivity.
  - left. reflexivity.
Defined.

(** X13. Clearing again changes nothing: after a [clear] of a key (or of the
    whole ledger), a second [clear] of the same key by a new process writes
    the file as the first left it; and a [clear] of a key the file does not
    hold writes the file back as it was. *)
Theorem clear_again_changes_nothing (w : World) (issueKey : gostring) :
  processed w = ∅ ->
  let w1 := world_after (ClearProcessed issueKey) w in
  let w2 := world_after (ClearProcessed issueKey) (new_process w1) in
  processed_file w2 = processed_file w1
  /\ forall m, processed_file w = Some m -> issueKey <> [] -> m !! issueKey = None ->
               processed_file w1 = Some m.
Proof.
  intros Hmem w1 w2. subst w1 w2. unfold world_after.
  rewrite !ClearProcessed_world. cbn zeta. cbn [processed_file].
  unfold loaded, new_process. cbn [processed_file processed].
  rewrite Hmem. split.
  - destruct (gostring_eqb issueKey []); [reflexivity |].
    f_equal. rewrite map_union_empty. apply delete_delete_eq.
  - intros m Hfile Hne Hnone. rewrite Hfile.
    apply gostring_eqb_neq in Hne. rewrite Hne.
    f_equal. rewrite map_union_empty. apply delete_id. exact Hnone.
Qed.

Lemma clear_again_changes_nothing_witness :
  let w1 := world_after (ClearProcessed (lit "K-2")) (new_process world1) in
  let w2 := world_after (ClearProcessed (lit "K-2")) (new_process w1) in
  processed_file w2 = processed_file w1
  /\ forall m, processed_file (new_process world1) = Some m -> lit "K-2" <> [] ->
               m !! lit "K-2" = None -> processed_file w1 = Some m.
Proof.
  apply (clear_again_changes_nothing (new_process world1) (lit "K-2")).
  reflexivity.
Defined.

(* ================================================================== *)
(** * More properties of the supervisor *)
(* ================================================================== *)

(** ** Writing and reading a pid *)

Lemma lit_cons (c : ascii) (s : string) : lit (String c s) = N_of_ascii c :: lit s.
Proof. reflexivity. Qed.

Lemma digits_value_uint (d : Decimal.uint) (acc : Z) :
  digits_value acc (lit (NilEmpty.string_of_uint d)) = Some (uint_value acc d).
Proof.
  revert acc. induction d; intros acc; cbn [NilEmpty.string_of_uint uint_value];
    [reflexivity | rewrite lit_cons; cbn [digits_value]; apply IHd ..].
Qed.

Lemma uint_value_acc (d : Decimal.uint) (acc : positive) :
  uint_value (Z.pos acc) d = Z.pos (Pos.of_uint_acc d acc).
Proof.
  revert acc. induction d; intros acc; cbn [uint_value Pos.of_uint_acc];
    [reflexivity | ..];
    match goal with
    | |- uint_value ?v _ = Z.pos (Pos.of_uint_acc _ ?a) =>
        replace v with (Z.pos a) by lia; apply IHd
    end.
Qed.

Lemma uint_value_0 (d : Decimal.uint) :
  uint_value 0 d = Z.of_N (Pos.of_uint d).
Proof.
  induction d; cbn [uint_value Pos.of_uint]; [reflexivity | exact IHd | ..];
    match goal with
    | |- uint_value ?v _ = _ =>
        let p := eval cbv in v in change v with p
    end; apply uint_value_acc.
Qed.

Lemma digits_no_space (d : Decimal.uint) :
  Forall (fun c => is_digit c = true) (lit (NilEmpty.string_of_uint d)).
Proof.
  induction d; cbn [NilEmpty.string_of_uint]; [exact (List.Forall_nil _) | ..];
    (rewrite lit_cons; constructor; [reflexivity | exact IHd]).
Qed.

Lemma drop_while_none (p : rune -> bool) (s : gostring) :
  match s with c :: _ => p c = false | [] => True end -> drop_while p s = s.
Proof. destruct s as [|c t]; [reflexivity |]. cbn. intros ->. reflexivity. Qed.

Lemma TrimSpace_none (s : gostring) :
  Forall (fun c => unicode_IsSpace c = false) s -> TrimSpace s = s.
Proof.
  intros H. unfold TrimSpace, drop_while_end.
  rewrite (drop_while_none _ s) by (destruct H; auto).
  rewrite drop_while_none; [apply rev_involutive |].
  apply List.Forall_rev in H. destruct H; auto.
Qed.

Lemma digit_not_space (c : rune) : is_digit c = true -> unicode_IsSpace c = false.
Proof.
  unfold is_digit, unicode_IsSpace. intros H.
  apply andb_true_iff in H as [H1 H2].
  apply N.leb_le in H1. apply N.leb_le in H2.
  repeat match goal with
         | |- context [(?a <=? ?b)] => destruct (N.leb_spec a b); try lia
         | |- context [(?a =? ?b)] => destruct (N.eqb_spec a b); try lia
         end; reflexivity.
Qed.

Lemma Itoa_pos (p : positive) :
  Itoa (Z.pos p) = lit (NilEmpty.string_of_uint (Pos.to_uint p)).
Proof.
  unfold Itoa. cbn [Z.to_int NilZero.string_of_int NilZero.string_of_uint].
  pose proof (DecimalPos.Unsigned.to_uint_nonnil p) as Hn.
  destruct (Pos.to_uint p); [congruence | reflexivity ..].
Qed.

Lemma Itoa_neg (p : positive) :
  Itoa (Z.neg p) = 45 :: lit (NilEmpty.string_of_uint (Pos.to_uint p)).
Proof.
  unfold Itoa. cbn [Z.to_int NilZero.string_of_int NilZero.string_of_uint].
  pose proof (DecimalPos.Unsigned.to_uint_nonnil p) as Hn.
  rewrite lit_cons.
  destruct (Pos.to_uint p); [congruence | reflexivity ..].
Qed.

Lemma digits_of_pos (p : positive) :
  let ds := lit (NilEmpty.string_of_uint (Pos.to_uint p)) in
  digits_value 0 ds = Some (Z.pos p)
  /\ Forall (fun c => is_digit c = true) ds
  /\ ds <> [].
Proof.
  cbv zeta. rewrite digits_value_uint, uint_value_0, DecimalPos.Unsigned.of_to.
  split; [reflexivity |]. split; [apply digits_no_space |].
  pose proof (DecimalPos.Unsigned.to_uint_nonnil p) as Hn.
  destruct (Pos.to_uint p); [congruence | ..]; cbn [NilEmpty.string_of_uint];
    rewrite lit_cons; discriminate.
Qed.

Lemma Atoi_digit (c : rune) (t : gostring) :
  is_digit c = true ->
  Atoi (c :: t)
  = match digits_value 0 (c :: t) with
    | Some v => if (max_int <? v)%Z then max_int
                else if (v <? min_int)%Z then min_int else v
    | None => 0%Z
    end.
Proof.
  intros Hc. unfold is_digit in Hc. apply andb_true_iff in Hc as [H1 H2].
  apply N.leb_le in H1. apply N.leb_le in H2.
  assert (c = 48 \/ c = 49 \/ c = 50 \/ c = 51 \/ c = 52 \/ c = 53 \/ c = 54
          \/ c = 55 \/ c = 56 \/ c = 57) as Hcases by lia.
  repeat destruct Hcases as [-> | Hcases]; try subst c; reflexivity.
Qed.

(** [strconv.Atoi] reads back what [strconv.Itoa] wrote, for every [int]. *)
Lemma Atoi_Itoa (z : Z) :
  (min_int <= z <= max_int)%Z -> Atoi (TrimSpace (Itoa z)) = z.
Proof.
  intros Hz. destruct z as [|p|p].
  - reflexivity.
  - rewrite Itoa_pos.
    destruct (digits_of_pos p) as (Hv & Hd & Hn).
    set (ds := lit (NilEmpty.string_of_uint (Pos.to_uint p))) in *. clearbody ds.
    rewrite TrimSpace_none
      by (eapply Forall_impl; [exact Hd | intros c; apply digit_not_space]).
    destruct ds as [|c t]; [congruence |].
    inversion Hd as [|? ? Hc _]; subst.
    rewrite (Atoi_digit c t Hc), Hv.
    destruct (Z.ltb_spec max_int (Z.pos p)); [lia |].
    destruct (Z.ltb_spec (Z.pos p) min_int); [lia | reflexivity].
  - rewrite Itoa_neg.
    destruct (digits_of_pos p) as (Hv & Hd & Hn).
    set (ds := lit (NilEmpty.string_of_uint (Pos.to_uint p))) in *. clearbody ds.
    rewrite TrimSpace_none.
    2:{ constructor; [reflexivity |].
        eapply Forall_impl; [exact Hd | intros c; apply digit_not_space]. }
    destruct ds as [|c t]; [congruence |].
    unfold Atoi. rewrite Hv. cbv zeta.
    change (- Z.pos p)%Z with (Z.neg p).
    destruct (Z.ltb_spec max_int (Z.neg p)); [lia |].
    destruct (Z.ltb_spec (Z.neg p) min_int); [lia | reflexivity].
Qed.

(** ** Launching *)

(** What [StartDaemon] does as the launcher, after the look at the pid file:
    [pre] is the probe of a stale pid, or nothing when the pid file gives no
    positive number. *)
Lemma StartDaemon_launcher (env : Env) (ticks : nat) (w : World) :
  Getenv_ env (lit "FACTORY_DAEMON") <> lit "1" ->
  let r := result_of (StartDaemon env ticks) w in
  let tr := events_of (StartDaemon env ticks) w in
  let w' := world_after (StartDaemon env ticks) w in
  let pid := result_of GetDaemonPid w in
  processed w' = processed w /\ processed_file w' = processed_file w
  /\ history w' = history w ++ tr
  /\ (((0 < pid)%Z /\ tr = [Signal pid 0%Z true] /\ pid_file w' = pid_file w
       /\ r = Some (lit "daemon already running (PID " ++ Itoa pid ++ lit ")"))
      \/ exists pre,
           (((pid <= 0)%Z /\ pre = []) \/ ((0 < pid)%Z /\ pre = [Signal pid 0%Z false]))
           /\ ((exists err, tr = pre ++ [OpenLog (Some err)]
                            /\ r = Some err /\ pid_file w' = pid_file w)
               \/ (exists err, tr = pre ++ [OpenLog None; Spawn (inr err)]
                               /\ r = Some err /\ pid_file w' = pid_file w)
               \/ (exists child,
                     tr = pre ++ [OpenLog None; Spawn (inl child); WritePid (Itoa child)]
                     /\ r = None /\ pid_file w' = Some (Itoa child)))).
Proof.
  intros Hmark r tr w' pid. subst r tr w' pid.
  apply gostring_eqb_neq in Hmark.
  unfold result_of, events_of, world_after, StartDaemon, mbind, M_bind, isRunning, ask.
  rewrite Hmark. cbn [negb].
  destruct (GetDaemonPid w) as [pid w0] eqn:Epid.
  assert (w0 = w) as ->.
  { unfold GetDaemonPid in Epid. destruct (pid_file w); injection Epid; auto. }
  cbn [fst snd emit].
  destruct (0 <? pid)%Z eqn:Hpos.
  - apply Z.ltb_lt in Hpos. cbn [fst snd history].
    destruct (Signal_ env (history w) pid 0%Z) eqn:Hprobe.
    + cbn. rewrite drop_app_length. repeat split. left. auto.
    + cbn [history snd fst].
      destruct (OpenLog_ env (history w ++ [Signal pid 0%Z false])) as [err|].
      { cbn. rewrite <- app_assoc, drop_app_length. repeat split.
        right. exists [Signal pid 0%Z false]. split; [right; auto |].
        left. exists err. auto. }
      cbn [history snd fst].
      destruct (Spawn_ env ((history w ++ [Signal pid 0%Z false]) ++ [OpenLog None]))
        as [child|err].
      * cbn. rewrite <- !app_assoc, drop_app_length. repeat split.
        right. exists [Signal pid 0%Z false]. split; [right; auto |].
        right. right. exists child. auto.
      * cbn. rewrite <- !app_assoc, drop_app_length. repeat split.
        right. exists [Signal pid 0%Z false]. split; [right; auto |].
        right. left. exists err. auto.
  - apply Z.ltb_ge in Hpos. cbn [history snd fst].
    destruct (OpenLog_ env (history w)) as [err|].
    { cbn. rewrite drop_app_length. repeat split.
      right. exists []. split; [left; auto |].
      left. exists err. auto. }
    cbn [history snd fst].
    destruct (Spawn_ env (history w ++ [OpenLog None])) as [child|err].
    + cbn. rewrite <- !app_assoc, drop_app_length. repeat split.
      right. exists []. split; [left; auto |].
      right. right. exists child. auto.
    + cbn. rewrite <- !app_assoc, drop_app_length. repeat split.
      right. exists []. split; [left; auto |].
      right. left. exists err. auto.
Qed.

(** A launcher that spawned a child wrote the child's pid. *)
Lemma launch_writes_child (env : Env) (ticks : nat) (w : World) (child : Z) :
  Getenv_ env (lit "FACTORY_DAEMON") <> lit "1" ->
  In (Spawn (inl child)) (events_of (StartDaemon env ticks) w) ->
  pid_file (world_after (StartDaemon env ticks) w) = Some (Itoa child).
Proof.
  intros Hmark Hin.
  destruct (StartDaemon_launcher env ticks w Hmark) as (_ & _ & _ & Hcases).
  destruct Hcases as [(_ & Htr & _) | (pre & Hpre & Hcases)].
  - rewrite Htr in Hin. destruct Hin as [Hin | []]. discriminate Hin.
  - assert (Hno : ~ In (Spawn (inl child)) pre).
    { destruct Hpre as [(_ & ->) | (_ & ->)]; [intros [] |].
      intros [Hp | []]. discriminate Hp. }
    destruct Hcases as [(err & Htr & _) | [(err & Htr & _) | (c & Htr & _ & Hd)]];
      rewrite Htr in Hin; apply in_app_or in Hin as [Hin | Hin]; try contradiction.
    + destruct Hin as [Hin | []]. discriminate Hin.
    + destruct Hin as [Hin | [Hin | []]]; discriminate Hin.
    + destruct Hin as [Hin | [Hin | [Hin | []]]]; try discriminate Hin.
      injection Hin as ->. exact Hd.
Qed.

(** What [StopDaemon] does, by the number [GetDaemonPid] reads. *)
Lemma StopDaemon_run (env : Env) (w : World) :
  let pid := result_of GetDaemonPid w in
  StopDaemon env w
  = if (pid =? 0)%Z then (Some (lit "daemon not running"), w)
    else
      (None,
       {| history :=
            history w
            ++ (if Signal_ env (history w) pid SIGTERM
                then [Signal pid SIGTERM true]
                else [Signal pid SIGTERM false;
                      Signal pid SIGKILL
                        (Signal_ env (history w ++ [Signal pid SIGTERM false]) pid SIGKILL)]);
          processed := processed w;
          processed_file := processed_file w;
          pid_file := None |}).
Proof.
  cbv zeta. unfold result_of, StopDaemon, mbind, M_bind, ask.
  destruct (GetDaemonPid w) as [pid w0] eqn:Epid.
  assert (w0 = w) as ->.
  { unfold GetDaemonPid in Epid. destruct (pid_file w); injection Epid; auto. }
  cbn [fst]. destruct (pid =? 0)%Z; [reflexivity |].
  cbn [emit snd history].
  destruct (Signal_ env (history w) pid SIGTERM); cbn; [reflexivity |].
  rewrite <- app_assoc. reflexivity.
Qed.

(** X14. The pid that a successful launch writes is the pid that is read
    back: after [StartDaemon] has spawned the child and returned no error,
    [GetDaemonPid] gives the child's pid, for every pid an [int] can hold. *)
Theorem launched_pid_is_read_back (env : Env) (ticks : nat) (w : World) (child : Z) :
  Getenv_ env (lit "FACTORY_DAEMON") <> lit "1" ->
  In (Spawn (inl child)) (events_of (StartDaemon env ticks) w) ->
  (min_int <= child <= max_int)%Z ->
  let w' := world_after (StartDaemon env ticks) w in
  pid_file w' = Some (Itoa child)
  /\ result_of GetDaemonPid w' = child.
Proof.
  intros Hmark Hin Hrange w'. subst w'.
  pose proof (launch_writes_child env ticks w child Hmark Hin) as Hfile.
  split; [exact Hfile |].
  unfold result_of, GetDaemonPid. rewrite Hfile. cbn [fst].
  apply Atoi_Itoa. exact Hrange.
Qed.

Lemma launched_pid_is_read_back_witness :
  let w' := world_after (StartDaemon (scenario_env sc_happy) 0) world_pid in
  pid_file w' = Some (Itoa 4711)
  /\ result_of GetDaemonPid w' = 4711%Z.
Proof.
  apply (launched_pid_is_read_back (scenario_env sc_happy) 0 world_pid 4711).
  - vm_compute. discriminate.
  - vm_compute. auto 10.
  - vm_compute. split; discriminate.
Defined.

(** X15. A start that follows a successful launch is refused while the child
    lives: it finds the child's pid in the pid file, probes it, and returns
    "daemon already running (PID child)" without opening the log, spawning
    or polling.  The second start may be any process, the spawned child
    included, whose own start reads the pid file the launcher wrote. *)
Theorem start_after_launch_is_refused (env env' : Env) (ticks ticks' : nat)
    (w : World) (child : Z) :
  Getenv_ env (lit "FACTORY_DAEMON") <> lit "1" ->
  In (Spawn (inl child)) (events_of (StartDaemon env ticks) w) ->
  (0 < child <= max_int)%Z ->
  let w1 := world_after (StartDaemon env ticks) w in
  Signal_ env' (history w1) child 0%Z = true ->
  result_of (StartDaemon env' ticks') w1
  = Some (lit "daemon already running (PID " ++ Itoa child ++ lit ")")
  /\ events_of (StartDaemon env' ticks') w1 = [Signal child 0%Z true]
  /\ pid_file (world_after (StartDaemon env' ticks') w1) = Some (Itoa child).
Proof.
  intros Hmark Hin Hrange w1 Halive. subst w1.
  pose proof (launch_writes_child env ticks w child Hmark Hin) as Hfile.
  set (w1 := world_after (StartDaemon env ticks) w) in *. clearbody w1.
  assert (Hread : Atoi (TrimSpace (Itoa child)) = child)
    by (apply Atoi_Itoa; unfold min_int; lia).
  unfold result_of, events_of, world_after, StartDaemon, mbind, M_bind,
    GetDaemonPid, isRunning, ask.
  rewrite Hfile, Hread.
  destruct (Z.ltb_spec 0 child) as [_ | Hle]; [| lia].
  cbn [emit snd fst]. rewrite Halive. cbn. rewrite drop_app_length. auto.
Qed.

Lemma start_after_launch_is_refused_witness :
  let env := scenario_env sc_happy in
  let env' := scenario_env (set_alive sc_happy (fun pid => (pid =? 4711)%Z)) in
  let w1 := world_after (StartDaemon env 0) world_pid in
  result_of (StartDaemon env' 0) w1
  = Some (lit "daemon already running (PID " ++ Itoa 4711 ++ lit ")")
  /\ events_of (StartDaemon env' 0) w1 = [Signal 4711%Z 0%Z true]
  /\ pid_file (world_after (StartDaemon env' 0) w1) = Some (Itoa 4711).
Proof.
  apply (start_after_launch_is_refused (scenario_env sc_happy)
           (scenario_env (set_alive sc_happy (fun pid => (pid =? 4711)%Z))) 0 0
           world_pid 4711).
  - vm_compute. discriminate.
  - vm_compute. auto 10.
  - vm_compute. split; [reflexivity | discriminate].
  - reflexivity.
Defined.

(** X16. A launch that fails leaves things as they were: when the launcher
    returns an error (a live daemon, a log file that cannot be opened, a
    child that cannot be spawned), the pid file and the ledger are untouched
    and no pid was written. *)
Theorem failed_launch_keeps_pid_file (env : Env) (ticks : nat) (w : World)
    (err : gostring) :
  Getenv_ env (lit "FACTORY_DAEMON") <> lit "1" ->
  result_of (StartDaemon env ticks) w = Some err ->
  let w' := world_after (StartDaemon env ticks) w in
  pid_file w' = pid_file w
  /\ processed w' = processed w
  /\ processed_file w' = processed_file w
  /\ forall data, ~ In (WritePid data) (events_of (StartDaemon env ticks) w).
Proof.
  intros Hmark Hres w'. subst w'.
  destruct (StartDaemon_launcher env ticks w Hmark) as (Hp & Hf & _ & Hcases).
  rewrite Hres in Hcases.
  assert (Hpre : forall pre data,
             ((result_of GetDaemonPid w <= 0)%Z /\ pre = []
              \/ (0 < result_of GetDaemonPid w)%Z
                 /\ pre = [Signal (result_of GetDaemonPid w) 0%Z false]) ->
             ~ In (WritePid data) pre).
  { intros pre data [(_ & ->) | (_ & ->)]; [intros [] |].
    intros [Hin | []]. discriminate Hin. }
  destruct Hcases as [(_ & Htr & Hd & _) | (pre & Hpre' & Hcases)].
  - rewrite Htr. repeat split; auto.
    intros data [Hin | []]. discriminate Hin.
  - destruct Hcases as [(e & Htr & _ & Hd) | [(e & Htr & _ & Hd) | (c & _ & Hnone & _)]];
      [| | discriminate Hnone].
    + rewrite Htr. repeat split; auto. intros data Hin.
      apply in_app_or in Hin as [Hin | [Hin | []]]; [| discriminate Hin].
      exact (Hpre pre data Hpre' Hin).
    + rewrite Htr. repeat split; auto. intros data Hin.
      apply in_app_or in Hin as [Hin | [Hin | [Hin | []]]]; try discriminate Hin.
      exact (Hpre pre data Hpre' Hin).
Qed.

Lemma failed_launch_keeps_pid_file_witness :
  let env := scenario_env sc_no_log in
  let w' := world_after (StartDaemon env 0) world_pid in
  pid_file w' = pid_file world_pid
  /\ processed w' = processed world_pid
  /\ processed_file w' = processed_file world_pid
  /\ forall data, ~ In (WritePid data) (events_of (StartDaemon env 0) world_pid).
Proof.
  apply (failed_launch_keeps_pid_file (scenario_env sc_no_log) 0 world_pid
           (lit "open daemon.log: permission denied")).
  - vm_compute. discriminate.
  - reflexivity.
Defined.

(** ** Stopping *)

(** X17. When the pid file is missing, or holds no number or the number 0,
    [StopDaemon] returns "daemon not running", sends no signal and leaves the
    pid file as it is. *)
Theorem stop_without_pid_does_nothing (env : Env) (w : World) :
  result_of GetDaemonPid w = 0%Z ->
  result_of (StopDaemon env) w = Some (lit "daemon not running")
  /\ events_of (StopDaemon env) w = []
  /\ world_after (StopDaemon env) w = w.
Proof.
  intros Hpid. unfold result_of, events_of, world_after in *.
  rewrite StopDaemon_run. unfold result_of. rewrite Hpid. cbn.
  rewrite drop_all. auto.
Qed.

Lemma stop_without_pid_does_nothing_witness :
  let env := scenario_env sc_happy in
  let w := {| history := []; processed := ∅; processed_file := None;
              pid_file := Some (lit "not a pid") |} in
  result_of (StopDaemon env) w = Some (lit "daemon not running")
  /\ events_of (StopDaemon env) w = []
  /\ world_after (StopDaemon env) w = w.
Proof.
  apply (stop_without_pid_does_nothing (scenario_env sc_happy)
           {| history := []; processed := ∅; processed_file := None;
              pid_file := Some (lit "not a pid") |}).
  reflexivity.
Defined.

(** X18. With any other number in the pid file, negative ones included,
    [StopDaemon] probes nothing: it sends the termination signal to that
    number, the kill signal exactly when the termination signal could not be
    sent, removes the pid file and returns no error, whatever became of the
    signals; the ledger is not touched. *)
Theorem stop_signals_and_removes_pid_file (env : Env) (w : World) :
  result_of GetDaemonPid w <> 0%Z ->
  let pid := result_of GetDaemonPid w in
  let w' := world_after (StopDaemon env) w in
  let tr := events_of (StopDaemon env) w in
  result_of (StopDaemon env) w = None
  /\ pid_file w' = None
  /\ processed w' = processed w /\ processed_file w' = processed_file w
  /\ (tr = [Signal pid SIGTERM true]
      \/ exists killed, tr = [Signal pid SIGTERM false; Signal pid SIGKILL killed])
  /\ (In (Signal pid SIGTERM true) tr <-> Signal_ env (history w) pid SIGTERM = true).
Proof.
  intros Hpid pid w' tr. subst w' tr.
  pose proof (StopDaemon_run env w) as E. cbv zeta in E.
  fold pid in E, Hpid. clearbody pid.
  unfold result_of, events_of, world_after. rewrite E.
  destruct (Z.eqb_spec pid 0) as [E0 | _]; [contradiction |].
  cbn [fst snd history pid_file processed processed_file]. rewrite drop_app_length.
  destruct (Signal_ env (history w) pid SIGTERM).
  - repeat split; auto. intros _. left. reflexivity.
  - repeat split; eauto.
    + intros [Hin | [Hin | []]]; discriminate Hin.
    + discriminate.
Qed.

Lemma stop_signals_and_removes_pid_file_witness :
  let env := scenario_env sc_happy in
  let pid := result_of GetDaemonPid world_pid in
  let w' := world_after (StopDaemon env) world_pid in
  let tr := events_of (StopDaemon env) world_pid in
  result_of (StopDaemon env) world_pid = None
  /\ pid_file w' = None
  /\ processed w' = processed world_pid /\ processed_file w' = processed_file world_pid
  /\ (tr = [Signal pid SIGTERM true]
      \/ exists killed, tr = [Signal pid SIGTERM false; Signal pid SIGKILL killed])
  /\ (In (Signal pid SIGTERM true) tr
      <-> Signal_ env (history world_pid) pid SIGTERM = true).
Proof.
  apply (stop_signals_and_removes_pid_file (scenario_env sc_happy) world_pid).
  vm_compute. discriminate.
Defined.

(** X19. Start, stop, stop: after a successful launch, [StopDaemon] signals
    the child that was spawned and removes the pid file, and a second
    [StopDaemon] finds no daemon: it returns "daemon not running" and sends
    nothing. *)
Theorem launch_stop_stop (env env' env'' : Env) (ticks : nat) (w : World) (child : Z) :
  Getenv_ env (lit "FACTORY_DAEMON") <> lit "1" ->
  In (Spawn (inl child)) (events_of (StartDaemon env ticks) w) ->
  (0 < child <= max_int)%Z ->
  let w1 := world_after (StartDaemon env ticks) w in
  let w2 := world_after (StopDaemon env') w1 in
  result_of (StopDaemon env') w1 = None
  /\ events_of (StopDaemon env') w1 !! 0%nat
     = Some (Signal child SIGTERM (Signal_ env' (history w1) child SIGTERM))
  /\ pid_file w2 = None
  /\ result_of (StopDaemon env'') w2 = Some (lit "daemon not running")
  /\ events_of (StopDaemon env'') w2 = [].
Proof.
  intros Hmark Hin Hrange w1 w2. subst w2 w1.
  pose proof (launch_writes_child env ticks w child Hmark Hin) as Hfile.
  set (w1 := world_after (StartDaemon env ticks) w) in *. clearbody w1.
  assert (Hpid : result_of GetDaemonPid w1 = child).
  { unfold result_of, GetDaemonPid. rewrite Hfile. cbn [fst].
    apply Atoi_Itoa. unfold min_int. lia. }
  unfold result_of at 1, events_of at 1, world_after.
  rewrite (StopDaemon_run env' w1), Hpid.
  destruct (Z.eqb_spec child 0) as [E | _]; [lia |].
  cbn [fst snd history]. rewrite drop_app_length.
  set (w2 := {| history := _; processed := _; processed_file := _; pid_file := None |}).
  split; [reflexivity |]. split.
  { destruct (Signal_ env' (history w1) child SIGTERM); reflexivity. }
  split; [reflexivity |].
  unfold result_of, events_of. rewrite (StopDaemon_run env'' w2).
  unfold result_of, GetDaemonPid. cbn. rewrite drop_all. auto.
Qed.

Lemma launch_stop_stop_witness :
  let env := scenario_env sc_happy in
  let w1 := world_after (StartDaemon env 0) world_pid in
  let w2 := world_after (StopDaemon env) w1 in
  result_of (StopDaemon env) w1 = None
  /\ events_of (StopDaemon env) w1 !! 0%nat
     = Some (Signal 4711 SIGTERM (Signal_ env (history w1) 4711 SIGTERM))
  /\ pid_file w2 = None
  /\ result_of (StopDaemon env) w2 = Some (lit "daemon not running")
  /\ events_of (StopDaemon env) w2 = [].
Proof.
  apply (launch_stop_stop (scenario_env sc_happy) (scenario_env sc_happy)
           (scenario_env sc_happy) 0 world_pid 4711).
  - vm_compute. discriminate.
  - vm_compute. auto 10.
  - vm_compute. split; [reflexivity | discriminate].
Defined.

(* ================================================================== *)
(** * More properties of texts *)
(* ================================================================== *)

Lemma HasPrefix_spec (s p : gostring) :
  HasPrefix s p = true <-> exists q, s = p ++ q.
Proof.
  revert s. induction p as [|a p IH]; intros s.
  - cbn. split; [intros _; exists s; reflexivity | reflexivity].
  - destruct s as [|c s]; cbn.
    + split; [discriminate | intros [q Hq]; discriminate Hq].
    + rewrite andb_true_iff, N.eqb_eq, IH. split.
      * intros [-> [q ->]]. exists q. reflexivity.
      * intros [q Hq]. injection Hq as -> ->. split; [reflexivity | exists q; reflexivity].
Qed.

Lemma Contains_cons (c : rune) (t sub : gostring) :
  Contains (c :: t) sub = HasPrefix (c :: t) sub || Contains t sub.
Proof. reflexivity. Qed.

(** A text without [sub] has no part with [sub]. *)
Lemma Contains_suffix (p s sub : gostring) :
  Contains (p ++ s) sub = false -> Contains s sub = false.
Proof.
  induction p as [|c p IH]; [auto |].
  cbn [app]. rewrite Contains_cons. intros H.
  apply orb_false_iff in H as [_ H]. exact (IH H).
Qed.

Lemma HasPrefix_app (s q sub : gostring) :
  HasPrefix s sub = true -> HasPrefix (s ++ q) sub = true.
Proof.
  rewrite !HasPrefix_spec. intros [r ->]. exists (r ++ q). apply eq_sym, app_assoc.
Qed.

Lemma Contains_nil_sub (s : gostring) : Contains s [] = true.
Proof. destruct s; reflexivity. Qed.

Lemma Contains_prefix (s q sub : gostring) :
  Contains (s ++ q) sub = false -> Contains s sub = false.
Proof.
  induction s as [|c s IH].
  - destruct sub as [|a sub]; [| reflexivity].
    rewrite Contains_nil_sub. discriminate.
  - cbn [app]. rewrite !Contains_cons. intros H.
    apply orb_false_iff in H as [H1 H2].
    rewrite (IH H2), orb_false_r.
    destruct (HasPrefix (c :: s) sub) eqn:E; [| reflexivity].
    apply (HasPrefix_app _ q) in E. cbn [app] in E. congruence.
Qed.

(** What [drop_while] and [drop_while_end] cut off, and what they leave. *)
Lemma drop_while_cut (p : rune -> bool) (s : gostring) :
  exists pre, s = pre ++ drop_while p s /\ Forall (fun c => p c = true) pre.
Proof.
  induction s as [|c t (pre & Ht & Hpre)]; [exists []; split; [reflexivity | constructor] |].
  cbn. destruct (p c) eqn:Hc.
  - exists (c :: pre). split; [cbn; congruence | constructor; assumption].
  - exists []. split; [reflexivity | constructor].
Qed.

Lemma drop_while_end_cut (p : rune -> bool) (s : gostring) :
  exists post, s = drop_while_end p s ++ post /\ Forall (fun c => p c = true) post.
Proof.
  unfold drop_while_end.
  destruct (drop_while_cut p (rev s)) as (pre & Hs & Hpre).
  exists (rev pre). split; [| apply List.Forall_rev; exact Hpre].
  rewrite <- rev_app_distr, <- Hs, rev_involutive. reflexivity.
Qed.

Lemma drop_while_head (p : rune -> bool) (s : gostring) :
  match drop_while p s with
  | c :: _ => p c = false
  | [] => True
  end.
Proof.
  induction s as [|c t IH]; cbn; [exact I |].
  destruct (p c) eqn:Hc; [exact IH | exact Hc].
Qed.

Lemma drop_while_fix (p : rune -> bool) (s : gostring) :
  match s with
  | c :: _ => p c = false
  | [] => True
  end -> drop_while p s = s.
Proof. destruct s as [|c t]; [reflexivity |]. cbn. intros ->. reflexivity. Qed.

Lemma drop_while_all (p : rune -> bool) (s : gostring) :
  Forall (fun c => p c = true) s -> drop_while p s = [].
Proof. induction 1 as [|c t Hc _ IH]; cbn; [reflexivity |]. rewrite Hc. exact IH. Qed.

(** [drop_while_end] leaves no rune of the class at the end, and leaves the
    head as it was. *)
Lemma drop_while_end_last (p : rune -> bool) (s : gostring) :
  match rev (drop_while_end p s) with
  | c :: _ => p c = false
  | [] => True
  end.
Proof. unfold drop_while_end. rewrite rev_involutive. apply drop_while_head. Qed.

Lemma drop_while_end_head (p : rune -> bool) (s : gostring) :
  match s with
  | c :: _ => p c = false
  | [] => True
  end ->
  match drop_while_end p s with
  | c :: _ => p c = false
  | [] => True
  end.
Proof.
  intros Hs. destruct (drop_while_end_cut p s) as (post & Hcut & _).
  destruct (drop_while_end p s) as [|c u]; [exact I |].
  rewrite Hcut in Hs. exact Hs.
Qed.

(** A trimmed text has nothing left to trim. *)
Lemma trim_idempotent (p : rune -> bool) (s : gostring) :
  let t := drop_while_end p (drop_while p s) in
  drop_while_end p (drop_while p t) = t.
Proof.
  cbv zeta. set (t := drop_while_end p (drop_while p s)).
  assert (Hhead : match t with c :: _ => p c = false | [] => True end)
    by (apply drop_while_end_head, drop_while_head).
  rewrite (drop_while_fix p t Hhead).
  pose proof (drop_while_end_last p (drop_while p s)) as Hlast. fold t in Hlast.
  unfold drop_while_end at 1. rewrite (drop_while_fix p (rev t) Hlast).
  apply rev_involutive.
Qed.

Lemma TrimSpace_idempotent (s : gostring) : TrimSpace (TrimSpace s) = TrimSpace s.
Proof. apply (trim_idempotent unicode_IsSpace). Qed.

(** A trimmed text is a piece of the text. *)
Lemma trim_piece (p : rune -> bool) (s : gostring) :
  exists pre post, s = pre ++ drop_while_end p (drop_while p s) ++ post.
Proof.
  destruct (drop_while_cut p s) as (pre & Hs & _).
  destruct (drop_while_end_cut p (drop_while p s)) as (post & Ht & _).
  exists pre, post. rewrite <- Ht. exact Hs.
Qed.

Lemma trim_all (p : rune -> bool) (s : gostring) :
  Forall (fun c => p c = true) s -> drop_while_end p (drop_while p s) = [].
Proof. intros H. rewrite (drop_while_all p s H). reflexivity. Qed.

(* ================================================================== *)
(** * More properties of the tracker *)
(* ================================================================== *)

(** ** The acceptance criteria *)

Lemma extractAC_unfold (desc : gostring) :
  extractAC desc
  = match after_first_marker desc with
    | Some after => TrimSpace (before_blank (drop_while colon_or_space after))
    | None => []
    end.
Proof.
  unfold extractAC.
  pose proof (FindStringSubmatch_acceptance desc) as H.
  destruct (after_first_marker desc) as [after|].
  - destruct H as (whole & ->). reflexivity.
  - rewrite H. reflexivity.
Qed.

Lemma lit_match_cut (fold : bool) (pat s rest : gostring) :
  lit_match fold pat s = Some rest -> exists p, s = p ++ rest.
Proof.
  revert s. induction pat as [|a pat IH]; intros s.
  - cbn. intros [= ->]. exists []. reflexivity.
  - destruct s as [|c s]; cbn; [discriminate |].
    destruct (rune_match fold a c); [| discriminate].
    intros H. destruct (IH s H) as [p ->]. exists (c :: p). reflexivity.
Qed.

Lemma after_first_marker_cut (s after : gostring) :
  after_first_marker s = Some after -> exists p, s = p ++ after.
Proof.
  induction s as [|c t IH]; cbn [after_first_marker].
  - destruct (marker_at []) as [a|] eqn:E; [| discriminate].
    intros [= ->]. unfold marker_at in E.
    destruct (lit_match true (lit "acceptance") []) as [s1|] eqn:E1; [| discriminate].
    vm_compute in E1. discriminate E1.
  - destruct (marker_at (c :: t)) as [a|] eqn:E.
    + intros [= ->]. unfold marker_at in E.
      destruct (lit_match true (lit "acceptance") (c :: t)) as [s1|] eqn:E1; [| discriminate].
      destruct (lit_match_cut _ _ _ _ E1) as [p1 Hp1].
      destruct (lit_match_cut _ _ _ _ E) as [p2 Hp2].
      destruct (drop_while_cut re_space s1) as (p3 & Hp3 & _).
      exists (p1 ++ p3 ++ p2). rewrite Hp1, Hp3, Hp2 at 1.
      rewrite <- !app_assoc. reflexivity.
    + intros H. destruct (IH H) as [p ->]. exists (c :: p). reflexivity.
Qed.

Lemma before_blank_cut (s : gostring) : exists post, s = before_blank s ++ post.
Proof.
  induction s as [|c t [post IH]]; [exists []; reflexivity |].
  cbn [before_blank]. destruct (HasPrefix (c :: t) (nl ++ nl)).
  - exists (c :: t). reflexivity.
  - exists post. cbn. congruence.
Qed.

Lemma before_blank_no_blank (s : gostring) :
  Contains (before_blank s) (nl ++ nl) = false.
Proof.
  induction s as [|c t IH]; [reflexivity |].
  cbn [before_blank]. destruct (HasPrefix (c :: t) (nl ++ nl)) eqn:E; [reflexivity |].
  rewrite Contains_cons, IH, orb_false_r.
  destruct (HasPrefix (c :: before_blank t) (nl ++ nl)) eqn:E'; [| reflexivity].
  destruct (before_blank_cut t) as [post Hpost].
  apply (HasPrefix_app _ post) in E'. cbn [app] in E'. rewrite <- Hpost in E'. congruence.
Qed.

Lemma before_blank_fix (s : gostring) :
  Contains s (nl ++ nl) = false -> before_blank s = s.
Proof.
  induction s as [|c t IH]; [reflexivity |].
  rewrite Contains_cons. intros H. apply orb_false_iff in H as [H1 H2].
  cbn [before_blank]. rewrite H1, (IH H2). reflexivity.
Qed.

(** X20. What [extractAC] returns is a piece of the description, with no
    white space at either end and no blank line inside: one paragraph at
    most. *)
Theorem criteria_are_one_trimmed_piece (desc : gostring) :
  (exists pre post, desc = pre ++ extractAC desc ++ post)
  /\ TrimSpace (extractAC desc) = extractAC desc
  /\ Contains (extractAC desc) (nl ++ nl) = false.
Proof.
  rewrite extractAC_unfold.
  destruct (after_first_marker desc) as [after|] eqn:E.
  2:{ split; [exists [], desc; reflexivity |]. split; reflexivity. }
  set (body := before_blank (drop_while colon_or_space after)).
  destruct (trim_piece unicode_IsSpace body) as (p1 & q1 & Hbody).
  fold (TrimSpace body) in Hbody.
  split; [| split].
  - destruct (after_first_marker_cut _ _ E) as [p2 Hp2].
    destruct (drop_while_cut colon_or_space after) as (p3 & Hp3 & _).
    destruct (before_blank_cut (drop_while colon_or_space after)) as [q2 Hq2].
    fold body in Hq2.
    exists (p2 ++ p3 ++ p1), (q1 ++ q2).
    rewrite Hp2, Hp3, Hq2, Hbody at 1. rewrite <- !app_assoc. reflexivity.
  - apply TrimSpace_idempotent.
  - pose proof (before_blank_no_blank (drop_while colon_or_space after)) as Hno.
    fold body in Hno. rewrite Hbody in Hno.
    apply Contains_suffix in Hno. apply Contains_prefix in Hno. exact Hno.
Qed.

(** ** The description of the REST interface *)

Lemma Join_head (texts : list gostring) (c : rune) (rest : gostring) :
  Forall (fun text => text <> [] /\ Forall (fun r => r <> 10) text) texts ->
  Join texts nl = c :: rest -> c <> 10.
Proof.
  intros H. destruct H as [|text texts [Hne Hnl] Hrest]; [discriminate |].
  destruct text as [|a text]; [congruence |].
  inversion Hnl as [|? ? Ha _]; subst.
  destruct texts; cbn; intros [= <- _]; exact Ha.
Qed.

Lemma Contains_skip (e s : gostring) :
  Forall (fun r => r <> 10) e ->
  Contains (e ++ s) (nl ++ nl) = Contains s (nl ++ nl).
Proof.
  induction 1 as [|c e Hc _ IH]; [reflexivity |].
  cbn [app]. rewrite Contains_cons, IH.
  replace (HasPrefix (c :: e ++ s) (nl ++ nl)) with false; [reflexivity |].
  cbn. apply N.eqb_neq in Hc. rewrite Hc. reflexivity.
Qed.

Lemma Join_no_blank (texts : list gostring) :
  Forall (fun text => text <> [] /\ Forall (fun r => r <> 10) text) texts ->
  Contains (Join texts nl) (nl ++ nl) = false.
Proof.
  induction 1 as [|text texts [Hne Hnl] Hrest IH]; [reflexivity |].
  destruct texts as [|next texts].
  - cbn [Join]. rewrite <- (app_nil_r text), (Contains_skip text [] Hnl). reflexivity.
  - change (Join (text :: next :: texts) nl) with (text ++ nl ++ Join (next :: texts) nl).
    rewrite (Contains_skip text _ Hnl).
    set (J := Join (next :: texts) nl) in *.
    change (nl ++ J) with (10 :: J). rewrite Contains_cons, IH, orb_false_r.
    destruct J as [|c rest] eqn:EJ; [reflexivity |].
    pose proof (Join_head _ _ _ Hrest EJ) as Hc.
    cbn. apply N.eqb_neq in Hc. rewrite Hc. reflexivity.
Qed.

(** X21. Over the REST interface, when no text node of the description
    holds a line feed, the description has no blank line, so the acceptance
    criteria never stop at a paragraph: they are all the text after the first
    marker, up to the end of the description, trimmed. *)
Theorem rest_criteria_run_to_the_end (data : RestIssue) (issue : Issue) :
  Forall (Forall (fun text => Forall (fun r => r <> 10) text)) (rest_Description data) ->
  GetIssueREST (inl data) = inl issue ->
  Contains (Issue.Description issue) (nl ++ nl) = false
  /\ Issue.AcceptanceCriteria issue
     = match after_first_marker (Issue.Description issue) with
       | Some after => TrimSpace (drop_while colon_or_space after)
       | None => []
       end.
Proof.
  intros Htexts [= <-]. cbn [Issue.Description Issue.AcceptanceCriteria].
  set (desc := rest_description (rest_Description data)).
  assert (Hno : Contains desc (nl ++ nl) = false).
  { subst desc. unfold rest_description. apply Join_no_blank.
    apply List.Forall_forall. intros text Hin.
    apply filter_In in Hin as [Hin Hne].
    split.
    - intros ->. discriminate Hne.
    - apply in_concat in Hin as (block & Hb & Ht).
      rewrite List.Forall_forall in Htexts. specialize (Htexts block Hb).
      rewrite List.Forall_forall in Htexts. exact (Htexts text Ht). }
  split; [exact Hno |].
  rewrite extractAC_unfold.
  destruct (after_first_marker desc) as [after|] eqn:E; [| reflexivity].
  destruct (after_first_marker_cut _ _ E) as [p Hp].
  destruct (drop_while_cut colon_or_space after) as (p' & Hp' & _).
  rewrite before_blank_fix; [reflexivity |].
  rewrite Hp, Hp' in Hno.
  apply Contains_suffix in Hno. apply Contains_suffix in Hno. exact Hno.
Qed.

Lemma rest_criteria_run_to_the_end_witness :
  let data := {| rest_Key := lit "K-1"; rest_Summary := lit "Fix login";
                 rest_Description := [[lit "Login fails."];
                                      [lit "Acceptance criteria:"];
                                      [lit "- user can log in"; lit "- error is shown"];
                                      [lit "Notes: see K-0"]];
                 rest_IssueType := lit "Bug"; rest_Priority := lit "High";
                 rest_Status := lit "Open"; rest_Labels := []; rest_Components := [] |} in
  exists issue,
    GetIssueREST (inl data) = inl issue
    /\ Contains (Issue.Description issue) (nl ++ nl) = false
    /\ Issue.AcceptanceCriteria issue
       = match after_first_marker (Issue.Description issue) with
         | Some after => TrimSpace (drop_while colon_or_space after)
         | None => []
         end.
Proof.
  cbv zeta. eexists. split; [reflexivity |].
  apply (rest_criteria_run_to_the_end
           {| rest_Key := lit "K-1"; rest_Summary := lit "Fix login";
              rest_Description := [[lit "Login fails."];
                                   [lit "Acceptance criteria:"];
                                   [lit "- user can log in"; lit "- error is shown"];
                                   [lit "Notes: see K-0"]];
              rest_IssueType := lit "Bug"; rest_Priority := lit "High";
              rest_Status := lit "Open"; rest_Labels := []; rest_Components := [] |}).
  - vm_compute. repeat constructor; discriminate.
  - reflexivity.
Defined.

(** ** The command-line tracker *)

(** The first answer of a run is the tracker's, asked after the banner; an
    item of a type that is not accepted ends the run there. *)
Lemma ProcessIssue_invalid (env : Env) (cfg : Config) (issueKey : gostring) (w : World)
    (issue : Issue) :
  GetIssue_ env (history w ++ [Processing issueKey]) cfg issueKey = inl issue ->
  IsValidType issue = false ->
  let r := failed_result issueKey (lit "validate")
             (lit "invalid type: " ++ Issue.Type_ issue) in
  result_of (ProcessIssue env cfg issueKey) w = r
  /\ events_of (ProcessIssue env cfg issueKey) w
     = [Processing issueKey; CallGetIssue issueKey (inl issue); Verdict r].
Proof.
  intros Hans Hinvalid r. subst r.
  unfold result_of, events_of, ProcessIssue, mbind, M_bind, GetIssue, ask, emit.
  cbn [fst snd history]. rewrite Hans, Hinvalid. cbn [negb].
  unfold fail, mbind, M_bind, emit. cbn [fst snd history ret mret M_ret].
  rewrite <- !app_assoc, drop_app_length. split; reflexivity.
Qed.

Lemma splitn_last (sep s cur : gostring) :
  splitn_from sep s 0 cur 1 = [rev cur ++ s].
Proof.
  revert cur. induction s as [|c t IH]; intros cur; cbn.
  - rewrite app_nil_r. reflexivity.
  - rewrite IH. cbn. rewrite <- app_assoc. reflexivity.
Qed.

Lemma splitn_colon (key rest cur : gostring) :
  Forall (fun c => c <> 58) key ->
  splitn_from [58] (key ++ 58 :: rest) 0 cur 2 = [rev cur ++ key; rest].
Proof.
  intros Hkey. revert cur. induction Hkey as [|c key Hc _ IH]; intros cur.
  - cbn. rewrite splitn_last, app_nil_r. reflexivity.
  - cbn [app splitn_from]. apply N.eqb_neq in Hc.
    replace (HasPrefix (c :: key ++ 58 :: rest) [58]) with false
      by (cbn; rewrite Hc; reflexivity).
    rewrite andb_false_r, IH. cbn. rewrite <- app_assoc. reflexivity.
Qed.

(** X22. A line of the listing is cut at its first colon: what stands before
    it, trimmed, is the key, and all that follows, later colons included, is
    the title, trimmed; the other fields of the item stay empty. *)
Theorem listing_line_is_cut_at_first_colon (line key rest : gostring) :
  TrimSpace line = key ++ lit ":" ++ rest ->
  Forall (fun c => c <> 58) key ->
  issue_of_line line
  = Some {| Issue.Key := TrimSpace key; Issue.Title := TrimSpace rest;
            Issue.Description := []; Issue.Type_ := []; Issue.Priority := [];
            Issue.Status := []; Issue.Labels := []; Issue.Components := [];
            Issue.AcceptanceCriteria := []; Issue.Comments := [] |}.
Proof.
  intros Hline Hkey. unfold issue_of_line. rewrite Hline.
  replace (gostring_eqb (key ++ lit ":" ++ rest) []) with false
    by (destruct key; reflexivity).
  unfold SplitN. change (lit ":" ++ rest) with (58 :: rest). change (lit ":") with [58].
  rewrite (splitn_colon key rest [] Hkey). reflexivity.
Qed.

Lemma listing_line_is_cut_at_first_colon_witness :
  issue_of_line (lit "  K-1 : Fix: the login  ")
  = Some {| Issue.Key := TrimSpace (lit "K-1 "); Issue.Title := TrimSpace (lit " Fix: the login");
            Issue.Description := []; Issue.Type_ := []; Issue.Priority := [];
            Issue.Status := []; Issue.Labels := []; Issue.Components := [];
            Issue.AcceptanceCriteria := []; Issue.Comments := [] |}.
Proof.
  apply (listing_line_is_cut_at_first_colon (lit "  K-1 : Fix: the login  ")
           (lit "K-1 ") (lit " Fix: the login")).
  - reflexivity.
  - vm_compute. repeat constructor; discriminate.
Defined.

(** X23. A listing that prints nothing but white space has no items: the
    one empty line it is cut into is skipped. *)
Theorem blank_listing_has_no_items (jira : list gostring -> gostring + gostring)
    (out : gostring) :
  jira [lit "list"; lit "-q"; assigned_jql] = inl out ->
  Forall (fun c => unicode_IsSpace c = true) out ->
  GetAssignedIssuesACLI jira = inl [].
Proof.
  intros Hout Hblank. unfold GetAssignedIssuesACLI, execJira. rewrite Hout.
  unfold TrimSpace. rewrite (trim_all unicode_IsSpace out Hblank). reflexivity.
Qed.

Lemma blank_listing_has_no_items_witness :
  GetAssignedIssuesACLI (fun _ => inl (nl ++ lit "  " ++ nl)) = inl [].
Proof.
  apply (blank_listing_has_no_items (fun _ => inl (nl ++ lit "  " ++ nl))
           (nl ++ lit "  " ++ nl)).
  - reflexivity.
  - vm_compute. repeat constructor.
Defined.

(** X24. With the command-line tracker a failure of the jira command is
    never a failure of the stage "fetch": [GetIssueACLI] returns an item
    whatever the command does, with the fields it could not read left empty,
    so when the type cannot be read the run fails at "validate" with reason
    "invalid type: " and an empty type. *)
Theorem cli_failure_shows_as_invalid_type (base : Env)
    (jira : list gostring -> gostring + gostring) (rest : gostring -> RestIssue + gostring)
    (cfg : Config) (issueKey : gostring) (w : World) (err : gostring) :
  UseACLI (Jira cfg) = true ->
  jira (template_args issueKey (lit "issuetype.name")) = inr err ->
  let env := tracker_env base jira rest in
  let r := result_of (ProcessIssue env cfg issueKey) w in
  r = failed_result issueKey (lit "validate") (lit "invalid type: ")
  /\ failed_at r (lit "fetch") = false
  /\ exists issue,
       GetIssueACLI jira issueKey = inl issue
       /\ events_of (ProcessIssue env cfg issueKey) w
          = [Processing issueKey; CallGetIssue issueKey (inl issue); Verdict r].
Proof.
  intros Hcli Htype env r. subst r env.
  destruct (GetIssueACLI jira issueKey) as [issue|e] eqn:Hget; [| discriminate Hget].
  assert (Hempty : Issue.Type_ issue = []).
  { unfold GetIssueACLI in Hget. injection Hget as <-.
    cbn [Issue.Type_]. unfold execJira. rewrite Htype. reflexivity. }
  assert (Hinvalid : IsValidType issue = false).
  { unfold IsValidType. rewrite Hempty. reflexivity. }
  destruct (ProcessIssue_invalid (tracker_env base jira rest) cfg issueKey w issue)
    as [Hr Hev]; [cbn; rewrite Hcli; exact Hget | exact Hinvalid |].
  rewrite Hempty, app_nil_r in Hr, Hev.
  split; [exact Hr |]. split; [rewrite Hr; reflexivity |].
  exists issue. split; [reflexivity |]. rewrite Hr. exact Hev.
Qed.

Lemma cli_failure_shows_as_invalid_type_witness :
  let env := tracker_env (scenario_env sc_happy)
               (fun _ => inr (lit "exec: jira: executable file not found in $PATH"))
               (fun _ => inr (lit "unused")) in
  let r := result_of (ProcessIssue env cfg0 (lit "K-1")) world0 in
  r = failed_result (lit "K-1") (lit "validate") (lit "invalid type: ")
  /\ failed_at r (lit "fetch") = false
  /\ exists issue,
       GetIssueACLI (fun _ => inr (lit "exec: jira: executable file not found in $PATH"))
         (lit "K-1") = inl issue
       /\ events_of (ProcessIssue env cfg0 (lit "K-1")) world0
          = [Processing (lit "K-1"); CallGetIssue (lit "K-1") (inl issue); Verdict r].
Proof.
  apply (cli_failure_shows_as_invalid_type (scenario_env sc_happy)
           (fun _ => inr (lit "exec: jira: executable file not found in $PATH"))
           (fun _ => inr (lit "unused")) cfg0 (lit "K-1") world0
           (lit "exec: jira: executable file not found in $PATH")).
  - reflexivity.
  - reflexivity.
Defined.

(* ================================================================== *)
(** * More properties of the commands *)
(* ================================================================== *)

(** The manual trigger and its exit status. *)
Lemma main_trigger_status (env : Env) (args : list gostring) :
  emits (main_trigger env args)
    (fun code tr =>
       (tr = [] /\ code = 1%Z)
       \/ exists cfg r,
            Process_run env cfg (nth 2 args []) r tr
            /\ (3 <= length args)%nat
            /\ code = if gostring_eqb (Result.Status r) (lit "completed")
                      then 0%Z else 1%Z).
Proof.
  unfold main_trigger.
  destruct (Nat.ltb_spec (length args) 3) as [Hlen | Hlen]; [apply emits_ret; auto |].
  apply emits_bind. eapply emits_conseq; [apply (emits_read (ConfigExists_ env)) |].
  intros [|] ? ->; cbn [negb]; [| apply emits_ret; auto].
  apply emits_bind. eapply emits_conseq; [apply (emits_read (LoadConfig_ env)) |].
  intros [cfg|err] ? ->; [| apply emits_ret; auto].
  apply emits_bind. eapply emits_conseq; [apply ProcessIssue_emits |].
  intros r tr Hrun.
  destruct (gostring_eqb (Result.Status r) (lit "completed")) eqn:E; cbn [negb];
    apply emits_ret; right; exists cfg, r; rewrite app_nil_r, E; auto.
Qed.

(** X25. The exit status of [trigger]: it is 0 exactly when the pipeline ran
    and its verdict is "completed", and 1 otherwise; without a key on the
    command line nothing is run. *)
Theorem trigger_exit_status (env : Env) (args : list gostring) (w : World) :
  let code := result_of (main_trigger env args) w in
  let tr := events_of (main_trigger env args) w in
  (code = 0%Z \/ code = 1%Z)
  /\ (code = 0%Z
      <-> exists r, In (Verdict r) tr /\ Result.Status r = lit "completed")
  /\ ((length args < 3)%nat -> tr = [] /\ code = 1%Z)
  /\ (forall k, In (Processing k) tr -> k = nth 2 args []).
Proof.
  intros code tr. subst code tr.
  pose proof (emits_run _ _ w (main_trigger_status env args)) as H. cbv beta in H.
  set (code := result_of (main_trigger env args) w) in *.
  set (tr := events_of (main_trigger env args) w) in *. clearbody code tr.
  destruct H as [[-> ->] | (cfg & r & Hrun & Hlen & Hcode)].
  - split; [auto |]. split; [| split; [auto | intros k []]].
    split; [discriminate | intros (r & [] & _)].
  - destruct (Process_run_shape env cfg _ r tr Hrun) as (mid & Htr & Hmid & _).
    assert (Honly : forall r', In (Verdict r') tr -> r' = r).
    { intros r' Hin. rewrite Htr in Hin.
      destruct Hin as [Hin | Hin]; [discriminate |].
      apply in_app_or in Hin as [Hin | [Hin | []]]; [| congruence].
      rewrite Forall_forall in Hmid.
      destruct (quiet_event _ (Hmid _ (proj2 (list_elem_of_In _ _) Hin))) as (_ & Hv & _).
      discriminate Hv. }
    assert (Hlast : In (Verdict r) tr).
    { rewrite Htr. right. apply in_or_app. right. left. reflexivity. }
    destruct (gostring_eqb (Result.Status r) (lit "completed")) eqn:E; subst code.
    + apply gostring_eqb_eq in E.
      split; [auto |]. split; [| split; [lia |]].
      * split; [intros _; exists r; auto | reflexivity].
      * intros k Hin. eapply Process_run_banner; eassumption.
    + split; [auto |]. split; [| split; [lia |]].
      * split; [discriminate |]. intros (r' & Hin & Hst).
        rewrite (Honly r' Hin) in Hst. rewrite Hst, gostring_eqb_refl in E. discriminate E.
      * intros k Hin. eapply Process_run_banner; eassumption.
Qed.

(* ================================================================== *)
(** * More properties of the branch name *)
(* ================================================================== *)

Lemma ToLower_no_capital (s : gostring) :
  Forall (fun r => is_upper r = false) (ToLower s).
Proof.
  unfold ToLower. apply List.Forall_forall. intros r Hin.
  apply in_map_iff in Hin as (c & <- & _).
  unfold unicode_ToLower.
  destruct (is_upper c) eqn:Hc.
  - unfold is_upper in *. apply andb_true_iff in Hc as [H1 H2].
    apply N.leb_le in H1. apply N.leb_le in H2.
    apply andb_false_iff. right. apply N.leb_gt. lia.
  - destruct (N.eqb_spec c 304) as [-> | _]; [reflexivity |].
    destruct (N.eqb_spec c 8490) as [-> | _]; [reflexivity |].
    exact Hc.
Qed.

Lemma alnum_not_hyphen (r : rune) : is_alnum r = true -> is_hyphen r = false.
Proof.
  unfold is_alnum, is_lower, is_upper, is_digit, is_hyphen, hyphen.
  rewrite !orb_true_iff, !andb_true_iff, !N.leb_le. intros H.
  apply N.eqb_neq. lia.
Qed.

Lemma collapse_runs_lower (s : gostring) :
  Forall (fun r => is_upper r = false) s ->
  Forall (fun r => is_lower r || is_digit r || is_hyphen r = true) (collapse_runs s).
Proof.
  induction 1 as [|c t Hc _ IH]; cbn [collapse_runs]; [constructor |].
  destruct (is_alnum c) eqn:Ha.
  - constructor; [| exact IH].
    unfold is_alnum in Ha. rewrite Hc, orb_false_r in Ha. rewrite Ha. reflexivity.
  - destruct t as [|d t']; [repeat constructor |].
    destruct (is_alnum d); [constructor; [reflexivity | exact IH] | exact IH].
Qed.

Lemma collapse_runs_single (s : gostring) :
  Contains (collapse_runs s) (lit "--") = false.
Proof.
  induction s as [|c t IH]; [reflexivity |].
  cbn [collapse_runs]. destruct (is_alnum c) eqn:Ha.
  - rewrite Contains_cons, IH, orb_false_r.
    apply alnum_not_hyphen in Ha. unfold is_hyphen, hyphen in Ha.
    change (lit "--") with [45; 45]. cbn [HasPrefix]. rewrite Ha. reflexivity.
  - destruct t as [|d t']; [reflexivity |].
    destruct (is_alnum d) eqn:Hd; [| exact IH].
    rewrite Contains_cons, IH, orb_false_r.
    cbn [collapse_runs]. rewrite Hd.
    apply alnum_not_hyphen in Hd. unfold is_hyphen, hyphen in Hd.
    change (lit "--") with [45; 45]. unfold hyphen. cbn [HasPrefix].
    rewrite Hd, andb_false_r. reflexivity.
Qed.

Lemma collapse_runs_all_hyphens (s : gostring) :
  Forall (fun r => is_hyphen r = true) (collapse_runs s)
  <-> Forall (fun r => is_alnum r = false) s.
Proof.
  induction s as [|c t IH]; [split; constructor |].
  cbn [collapse_runs]. destruct (is_alnum c) eqn:Ha.
  - split; intros H; inversion H as [|? ? Hc _]; subst.
    + rewrite (alnum_not_hyphen c Ha) in Hc. discriminate Hc.
    + congruence.
  - destruct t as [|d t'].
    + split; intros _; repeat constructor. exact Ha.
    + destruct (is_alnum d) eqn:Hd.
      * split; intros H; inversion H as [|? ? _ Hrest]; subst.
        -- constructor; [exact Ha | apply IH; exact Hrest].
        -- constructor; [reflexivity | apply IH; exact Hrest].
      * rewrite IH. split; intros H; [constructor; [exact Ha | exact H] |].
        inversion H; assumption.
Qed.

Lemma trim_hyphens_cut (s : gostring) :
  exists pre post,
    s = pre ++ trim_hyphens s ++ post
    /\ Forall (fun r => is_hyphen r = true) pre
    /\ Forall (fun r => is_hyphen r = true) post.
Proof.
  unfold trim_hyphens.
  destruct (drop_while_cut is_hyphen s) as (pre & Hs & Hpre).
  destruct (drop_while_end_cut is_hyphen (drop_while is_hyphen s)) as (post & Ht & Hpost).
  exists pre, post. rewrite <- Ht. auto.
Qed.

(** X26. The slug of a branch name is made of the letters a to z, the
    digits and the hyphen; it has at most 40 characters, no two hyphens in a
    row and no hyphen in front; and it ends with a hyphen only when it was
    cut at 40 characters. *)
Theorem slug_shape (title : gostring) :
  let slug := slug_of title in
  Forall (fun r => is_lower r || is_digit r || is_hyphen r = true) slug
  /\ (length slug <= 40)%nat
  /\ Contains slug (lit "--") = false
  /\ HasPrefix slug (lit "-") = false
  /\ (forall pre, slug = pre ++ lit "-" -> length slug = 40%nat).
Proof.
  cbv zeta. rewrite slug_of_spec. unfold slug_spec.
  set (C := collapse_runs (ToLower title)).
  destruct (trim_hyphens_cut C) as (pre & post & HC & _ & _).
  set (T := trim_hyphens C) in *.
  assert (Hchars : Forall (fun r => is_lower r || is_digit r || is_hyphen r = true) T).
  { pose proof (collapse_runs_lower _ (ToLower_no_capital title)) as H. fold C in H.
    rewrite HC in H. apply List.Forall_app in H as [_ H].
    apply List.Forall_app in H as [H _]. exact H. }
  assert (Hsingle : Contains T (lit "--") = false).
  { pose proof (collapse_runs_single (ToLower title)) as H. fold C in H.
    rewrite HC in H. apply Contains_suffix in H. apply Contains_prefix in H. exact H. }
  assert (Hhead : match T with c :: _ => is_hyphen c = false | [] => True end).
  { subst T. unfold trim_hyphens. apply drop_while_end_head, drop_while_head. }
  assert (Hlast : match rev T with c :: _ => is_hyphen c = false | [] => True end).
  { subst T. unfold trim_hyphens. apply drop_while_end_last. }
  clearbody T. clear HC.
  split; [| split; [| split; [| split]]].
  - rewrite <- (firstn_skipn 40 T) in Hchars.
    apply List.Forall_app in Hchars as [H _]. exact H.
  - rewrite length_firstn. lia.
  - rewrite <- (firstn_skipn 40 T) in Hsingle.
    apply Contains_prefix in Hsingle. exact Hsingle.
  - destruct T as [|c T']; [reflexivity |].
    change (lit "-") with [45]. cbn [firstn HasPrefix].
    unfold is_hyphen, hyphen in Hhead. rewrite Hhead. reflexivity.
  - intros pre' Hcut.
    destruct (Nat.le_gt_cases (length T) 40) as [Hle | Hgt].
    + rewrite firstn_all2 in Hcut by exact Hle.
      rewrite Hcut, rev_app_distr in Hlast. change (lit "-") with [45] in Hlast.
      cbn in Hlast. discriminate Hlast.
    + rewrite length_firstn. lia.
Qed.

(** X27. The slug is empty exactly when the lower-cased title has no letter
    a to z and no digit, as for a title written in another script; the
    branch is then named "feature/" and the key followed by a hyphen. *)
Theorem slug_empty_without_alnum (issueKey title : gostring) :
  (slug_of title = [] <-> Forall (fun r => is_alnum r = false) (ToLower title))
  /\ (Forall (fun r => is_alnum r = false) (ToLower title) ->
      branch_name issueKey title = lit "feature/" ++ issueKey ++ lit "-").
Proof.
  assert (Hiff : slug_of title = []
                 <-> Forall (fun r => is_alnum r = false) (ToLower title)).
  { rewrite slug_of_spec. unfold slug_spec.
    rewrite <- collapse_runs_all_hyphens.
    set (C := collapse_runs (ToLower title)).
    destruct (trim_hyphens_cut C) as (pre & post & HC & Hpre & Hpost).
    split.
    - intros Hnil.
      assert (HT : trim_hyphens C = [])
        by (destruct (trim_hyphens C); [reflexivity | discriminate Hnil]).
      rewrite HC, HT. apply List.Forall_app. split; assumption.
    - intros Hall. unfold trim_hyphens.
      rewrite (trim_all is_hyphen C Hall). reflexivity. }
  split; [exact Hiff |].
  intros Hnone. unfold branch_name. rewrite (proj2 Hiff Hnone), app_nil_r. reflexivity.
Qed.

(* ================================================================== *)
(** * More properties of the workspace *)
(* ================================================================== *)

(** The clone of [git.Init], and the stages that never clone. *)
Lemma Init_run_clone (env : Env) (g : Git) (res : option gostring) (tr : list Event)
    (url path out : gostring) (failed : bool) :
  Init_run env g res tr ->
  In (CallClone url path out failed) tr ->
  url = cloneURL g /\ path = repoPath g
  /\ In (CallMkdirAll path None) tr
  /\ In (CallStat (PathJoin_ env path (lit ".git")) true) tr
  /\ res = if failed then Some (lit "clone failed: " ++ out) else None.
Proof.
  intros Hrun Hin.
  destruct Hrun; cbn [In] in Hin;
    repeat (destruct Hin as [Hin | Hin]; [try discriminate Hin |]);
    try contradiction.
  all: injection Hin as <- <- <- <-; cbn [In]; auto 10.
Qed.

Lemma CreateBranch_run_no_clone (g : Git) (issueKey title : gostring)
    (res : gostring + gostring) (tr : list Event) (url path out : gostring) (failed : bool) :
  CreateBranch_run g issueKey title res tr -> ~ In (CallClone url path out failed) tr.
Proof.
  intros Hrun Hin.
  destruct Hrun as [err tr Hp | tr o1 o2 f1 f2 Hp].
  - destruct Hp; cbn [In] in Hin;
      repeat (destruct Hin as [Hin | Hin]; [discriminate Hin |]); contradiction.
  - apply in_app_or in Hin as [Hin | Hin].
    + destruct Hp; cbn [In] in Hin;
        repeat (destruct Hin as [Hin | Hin]; [discriminate Hin |]); contradiction.
    + cbn [In] in Hin.
      repeat (destruct Hin as [Hin | Hin]; [discriminate Hin |]); contradiction.
Qed.

(** X28. [git.Init] clones only into a working tree that is missing: a run
    clones at most after [os.Stat] reported that [.git] does not exist, from
    the clone URL of the configuration into the workspace; and when the clone
    fails the run fails at stage "git" with "clone failed: " and the output
    of git. *)
Theorem clone_only_into_missing_tree (env : Env) (cfg : Config) (issueKey : gostring)
    (w : World) (url path out : gostring) (failed : bool) :
  let r := result_of (ProcessIssue env cfg issueKey) w in
  let tr := events_of (ProcessIssue env cfg issueKey) w in
  In (CallClone url path out failed) tr ->
  url = CloneURL (Repo cfg)
  /\ path = repoPath (NewGit env cfg)
  /\ In (CallMkdirAll path None) tr
  /\ In (CallStat (PathJoin_ env path (lit ".git")) true) tr
  /\ (failed = true -> r = failed_result issueKey (lit "git") (lit "clone failed: " ++ out)).
Proof.
  intros r tr Hin. subst r tr.
  pose proof (ProcessIssue_run env cfg issueKey w) as Hrun.
  set (r := result_of (ProcessIssue env cfg issueKey) w) in *.
  set (tr := events_of (ProcessIssue env cfg issueKey) w) in *.
  clearbody r tr.
  run_inversion Hrun; unfold_result; find_event Hin.
  all: try (exfalso; eapply CreateBranch_run_no_clone; eassumption).
  all: match goal with
       | H : Init_run _ _ ?res _ |- _ =>
           destruct (Init_run_clone _ _ _ _ _ _ _ _ H Hin) as (-> & -> & Hmk & Hst & Hres)
       end.
  all: split; [reflexivity |]; split; [reflexivity |].
  all: split; [rewrite !in_app_iff; cbn [In]; rewrite ?in_app_iff; auto 10 |].
  all: split; [rewrite !in_app_iff; cbn [In]; rewrite ?in_app_iff; auto 10 |].
  all: intros ->; first [injection Hres as ->; reflexivity | discriminate Hres].
Qed.

Lemma clone_only_into_missing_tree_witness :
  let env := scenario_env sc_clone_fails in
  let r := result_of (ProcessIssue env cfg0 (lit "K-1")) world0 in
  let tr := events_of (ProcessIssue env cfg0 (lit "K-1")) world0 in
  let path := lit "/home/dev/.factory/workspace" in
  let out := lit "fatal: repository not found" in
  lit "https://github.com/org/repo.git" = CloneURL (Repo cfg0)
  /\ path = repoPath (NewGit env cfg0)
  /\ In (CallMkdirAll path None) tr
  /\ In (CallStat (PathJoin_ env path (lit ".git")) true) tr
  /\ (true = true -> r = failed_result (lit "K-1") (lit "git") (lit "clone failed: " ++ out)).
Proof.
  apply (clone_only_into_missing_tree (scenario_env sc_clone_fails) cfg0 (lit "K-1") world0
           (lit "https://github.com/org/repo.git") (lit "/home/dev/.factory/workspace")
           (lit "fatal: repository not found") true).
  vm_compute. auto 10.
Defined.

(** The listing of branches, [git branch -a], occurs in [CreateBranch] alone,
    after a pull that went well, and is followed by the checkout. *)
Ltac not_listing Hin :=
  exfalso; apply (f_equal (git_verb_is (lit "branch"))) in Hin;
  vm_compute in Hin; discriminate Hin.

Ltac no_listing Hin :=
  cbn [In] in Hin;
  repeat (destruct Hin as [Hin | Hin]; [first [discriminate Hin | not_listing Hin] |]);
  try contradiction.

Lemma Init_run_no_listing (env : Env) (g : Git) (res : option gostring) (tr : list Event)
    (dir out : gostring) (failed : bool) :
  Init_run env g res tr -> ~ In (CallGit dir [lit "branch"; lit "-a"] out failed) tr.
Proof. intros Hrun Hin. destruct Hrun; no_listing Hin. Qed.

Lemma Pull_run_no_listing (g : Git) (res : option gostring) (tr : list Event)
    (dir out : gostring) (failed : bool) :
  Pull_run g res tr -> ~ In (CallGit dir [lit "branch"; lit "-a"] out failed) tr.
Proof. intros Hrun Hin. destruct Hrun; no_listing Hin. Qed.

Lemma CreateBranch_run_listing (g : Git) (issueKey title : gostring)
    (res : gostring + gostring) (tr : list Event) (dir out : gostring) (failed : bool) :
  CreateBranch_run g issueKey title res tr ->
  In (CallGit dir [lit "branch"; lit "-a"] out failed) tr ->
  dir = repoPath g
  /\ res = inl (branch_name issueKey title)
  /\ exists o2 f2,
       In (CallGit dir
             (if Contains (fst (exec_result [lit "branch"; lit "-a"] out failed))
                          (branch_name issueKey title)
              then [lit "checkout"; branch_name issueKey title]
              else [lit "checkout"; lit "-b"; branch_name issueKey title])
             o2 f2) tr.
Proof.
  intros Hrun Hin.
  destruct Hrun as [err tr Hp | tr o1 o2 f1 f2 Hp].
  - destruct (Pull_run_no_listing _ _ _ _ _ _ Hp Hin).
  - apply in_app_or in Hin as [Hin | Hin];
      [destruct (Pull_run_no_listing _ _ _ _ _ _ Hp Hin) |].
    destruct Hin as [Hin | [Hin | []]].
    + injection Hin as <- <- <-.
      split; [reflexivity |]. split; [reflexivity |].
      exists o2, f2. apply in_or_app. right. right. left. reflexivity.
    + destruct (Contains _ _); not_listing Hin.
Qed.

(** X29. The feature branch: after the listing of the branches,
    [CreateBranch] checks the branch out when its name occurs anywhere in
    the listing and creates it otherwise (also when the listing failed).  It
    drops what that checkout returns: whether it failed or not, the run is
    not failed at stage "branch" and calls the code generator next. *)
Theorem feature_branch_reused_or_created (env : Env) (cfg : Config)
    (issueKey : gostring) (w : World) (dir out : gostring) (failed : bool) :
  let r := result_of (ProcessIssue env cfg issueKey) w in
  let tr := events_of (ProcessIssue env cfg issueKey) w in
  In (CallGit dir [lit "branch"; lit "-a"] out failed) tr ->
  exists issue o2 f2 outcome,
    In (CallGetIssue issueKey (inl issue)) tr
    /\ dir = repoPath (NewGit env cfg)
    /\ In (CallGit dir
             (if Contains (fst (exec_result [lit "branch"; lit "-a"] out failed))
                          (branch_name issueKey (Issue.Title issue))
              then [lit "checkout"; branch_name issueKey (Issue.Title issue)]
              else [lit "checkout"; lit "-b"; branch_name issueKey (Issue.Title issue)])
             o2 f2) tr
    /\ In (CallClaude dir (claude_prompt issue) outcome) tr
    /\ failed_at r (lit "branch") = false.
Proof.
  intros r tr Hin. subst r tr.
  pose proof (ProcessIssue_run env cfg issueKey w) as Hrun.
  set (r := result_of (ProcessIssue env cfg issueKey) w) in *.
  set (tr := events_of (ProcessIssue env cfg issueKey) w) in *.
  clearbody r tr.
  run_inversion Hrun; unfold_result.
  all: repeat match type of Hin with
              | In _ [] => contradiction
              | In _ (_ ++ _) => apply in_app_or in Hin; destruct Hin as [Hin | Hin]
              | In _ (if ?b then _ else _) => destruct b
              | In _ (_ :: _) =>
                  destruct Hin as [Hin | Hin];
                  [first [discriminate Hin | not_listing Hin] |]
              end.
  all: try (exfalso;
            match goal with
            | H : Init_run _ _ _ ?l |- _ =>
                match type of Hin with In _ l => idtac end;
                exact (Init_run_no_listing _ _ _ _ _ _ _ H Hin)
            | H : Claude_run _ _ _ ?l |- _ =>
                match type of Hin with In _ l => idtac end;
                apply (kind_of_stage _ _ _ (Claude_run_kinds _ _ _ _ H)) in Hin;
                vm_compute in Hin; discriminate Hin
            | H : CommitAndPush_run _ _ _ _ ?l |- _ =>
                match type of Hin with In _ l => idtac end;
                apply (kind_of_stage _ _ _ (CommitAndPush_run_kinds _ _ _ _ _ H)) in Hin;
                vm_compute in Hin; discriminate Hin
            end).
  all: match goal with
       | H : CreateBranch_run _ _ _ _ ?l |- _ =>
           destruct (CreateBranch_run_listing _ _ _ _ _ _ _ _ H Hin)
             as (-> & Hres & o2 & f2 & Hco)
       end.
  all: try discriminate Hres.
  all: match goal with
       | H : Claude_run _ ?i ?e ?l |- _ =>
           assert (exists outcome,
                     In (CallClaude (repoPath (NewGit env cfg)) (claude_prompt i) outcome) l)
             as [outcome Hcl]
             by (destruct H; eexists; left; reflexivity)
       end.
  all: exists issue, o2, f2, outcome.
  all: split; [right; left; reflexivity |].
  all: split; [reflexivity |].
  all: split; [rewrite !in_app_iff; cbn [In]; rewrite ?in_app_iff; auto 10 |].
  all: split; [rewrite !in_app_iff; cbn [In]; rewrite ?in_app_iff; auto 10 |].
  all: vm_compute; reflexivity.
Qed.

Lemma feature_branch_reused_or_created_witness :
  let env := scenario_env sc_happy in
  let r := result_of (ProcessIssue env cfg0 (lit "K-1")) world0 in
  let tr := events_of (ProcessIssue env cfg0 (lit "K-1")) world0 in
  let dir := lit "/home/dev/.factory/workspace" in
  exists issue o2 f2 outcome,
    In (CallGetIssue (lit "K-1") (inl issue)) tr
    /\ dir = repoPath (NewGit env cfg0)
    /\ In (CallGit dir
             (if Contains (fst (exec_result [lit "branch"; lit "-a"] [] false))
                          (branch_name (lit "K-1") (Issue.Title issue))
              then [lit "checkout"; branch_name (lit "K-1") (Issue.Title issue)]
              else [lit "checkout"; lit "-b"; branch_name (lit "K-1") (Issue.Title issue)])
             o2 f2) tr
    /\ In (CallClaude dir (claude_prompt issue) outcome) tr
    /\ failed_at r (lit "branch") = false.
Proof.
  apply (feature_branch_reused_or_created (scenario_env sc_happy) cfg0 (lit "K-1") world0
           (lit "/home/dev/.factory/workspace") [] false).
  vm_compute. auto 20.
Defined.
